(** * UPI transaction log analyzer: a shallow embedding of
    [src/10-upi-transaction-log.js] and the properties of its summary.

    The JavaScript function [analyzeUPITransactions] is embedded as a Rocq
    function over a universe of JavaScript data values: undefined, null,
    booleans, Numbers, strings, arrays and plain objects with own data
    properties (what a JSON text or an object literal without accessors
    denotes).  Numbers are IEEE 754 binary64 values ([spec_float] with
    [prec = 53] and [emax = 1024]) with the arithmetic of the language;
    property reads and property-key conversions are fallible and live in a
    completion monad; and the two plain objects the function uses as
    dictionaries keep the properties they inherit from [Object.prototype].

    The first part of the file holds the embedding and the quantities the
    properties speak about, the second part the lemmas and the theorems. *)

From Stdlib Require Import ZArith Bool List Ascii String Permutation Lia.
From Stdlib Require Import SpecFloat.
From stdpp Require Import gmap strings list fin_maps pretty.

Local Open Scope string_scope.
Local Open Scope list_scope.
Local Open Scope Z_scope.

(** ** Numbers: IEEE 754 binary64 *)

Module Num.

Definition prec : Z := 53.
Definition emax : Z := 1024.

Abbreviation number := spec_float.

Definition zero : number := S754_zero false.
Definition nan : number := S754_nan.
Definition infinity : number := S754_infinity false.

Definition add (x y : number) : number := SFadd prec emax x y.
Definition sub (x y : number) : number := SFsub prec emax x y.
Definition div (x y : number) : number := SFdiv prec emax x y.

(** [x < y], [x <= y] and [x == y] on Numbers; all are false when an
    operand is NaN. *)
Definition ltb (x y : number) : bool := SFltb x y.
Definition leb (x y : number) : bool := SFleb x y.
Definition eqb (x y : number) : bool := SFeqb x y.

(** The Number value of an integer (exact below 2^53, rounded to nearest
    even above). *)
Definition of_Z (z : Z) : number := binary_normalize prec emax z 0 false.
Definition of_nat (n : nat) : number := of_Z (Z.of_nat n).

(** The Number a decimal literal [n/d] denotes, for [n] and [d] below 2^53:
    the correctly rounded quotient. *)
Definition dec (n d : Z) : number := div (of_Z n) (of_Z d).

(** ToBoolean on a Number: +0, -0 and NaN are falsy. *)
Definition truthy (x : number) : bool :=
  match x with
  | S754_zero _ | S754_nan => false
  | _ => true
  end.

(** [Math.round]: the integral Number closest to [x], ties towards
    +infinity.  [round_int s m e] is floor(x + 1/2) for the finite
    x = (-1)^s * m * 2^e with e < 0. *)
Definition round_int (s : bool) (m : positive) (e : Z) : Z :=
  (2 * cond_Zopp s (Zpos m) + 2 ^ (- e)) / 2 ^ (1 - e).

Definition round (x : number) : number :=
  match x with
  | S754_finite s m e =>
      if 0 <=? e then x
      else
        let k := round_int s m e in
        if k =? 0 then S754_zero s else of_Z k
  | _ => x
  end.

(** *** Number::toString (radix 10)

    The shortest decimal [s * 10^(n-k)] ([s] of [k] digits) that reads
    back as [x], the closest one when several share the length, printed in
    positional notation for -6 < n <= 21 and in exponent notation
    otherwise. *)

(** Comparison of [a * 10^t] with [b * 2^q], exactly. *)
Definition cmp_dec_bin (a t b q : Z) : comparison :=
  (a * 10 ^ Z.max t 0 * 2 ^ Z.max (- q) 0
     ?= b * 2 ^ Z.max q 0 * 10 ^ Z.max (- t) 0).

(** Does the decimal [s * 10^t] round to the binary64 value [m * 2^e]?
    The rounding interval reaches half way to both neighbours (the lower
    neighbour of a power of two is closer), and is closed when [m] is even. *)
Definition reads_back (m : positive) (e s t : Z) : bool :=
  let lo :=
    if (Zpos m =? 2 ^ (prec - 1)) && (3 - emax - prec <? e)
    then 4 * Zpos m - 1 else 4 * Zpos m - 2 in
  let hi := 4 * Zpos m + 2 in
  match cmp_dec_bin s t lo (e - 2), cmp_dec_bin s t hi (e - 2) with
  | Gt, Lt => true
  | Eq, Lt | Gt, Eq => Z.even (Zpos m)
  | _, _ => false
  end.

(** The decimal exponent: the least [n] with [m * 2^e < 10^n]. *)
Fixpoint dec_exponent_from (fuel : nat) (m : positive) (e n : Z) : Z :=
  match fuel with
  | O => n
  | S fuel' =>
      match cmp_dec_bin 1 n (Zpos m) e with
      | Gt => n
      | _ => dec_exponent_from fuel' m e (n + 1)
      end
  end.

Definition dec_exponent (m : positive) (e : Z) : Z :=
  let b := Zpos (digits2_pos m) + e in
  dec_exponent_from 6 m e ((b - 1) * 30103 / 100000 - 1).

(** The [k]-digit candidate for [m * 2^e], if there is one: the digits [s]
    and the exponent [n]. *)
Definition digits_of_length (m : positive) (e n0 k : Z) : option (Z * Z) :=
  let t := n0 - k in
  let s1 :=
    if 0 <=? t then Zpos m * 2 ^ Z.max e 0 / (10 ^ t * 2 ^ Z.max (- e) 0)
    else Zpos m * 2 ^ Z.max e 0 * 10 ^ (- t) / 2 ^ Z.max (- e) 0 in
  let s2 := s1 + 1 in
  let up := if s2 =? 10 ^ k then (10 ^ (k - 1), n0 + 1) else (s2, n0) in
  match reads_back m e s1 t, reads_back m e s2 t with
  | true, false => Some (s1, n0)
  | false, true => Some up
  | true, true =>
      match cmp_dec_bin (s1 + s2) t (2 * Zpos m) e with
      | Gt => Some (s1, n0)
      | Lt => Some up
      | Eq => if Z.even s1 then Some (s1, n0) else Some up
      end
  | false, false => None
  end.

Fixpoint shortest_digits (fuel : nat) (m : positive) (e n0 k : Z) : Z * Z * Z :=
  match fuel with
  | O => (1, n0, k)
  | S fuel' =>
      match digits_of_length m e n0 k with
      | Some (s, n) => (s, n, k)
      | None => shortest_digits fuel' m e n0 (k + 1)
      end
  end.

Fixpoint zeros (n : nat) : string :=
  match n with
  | O => ""
  | S n' => String "0" (zeros n')
  end.

Definition head_digits (n : Z) (ds : string) : string :=
  String.substring 0 (Z.to_nat n) ds.
Definition tail_digits (n : Z) (ds : string) : string :=
  String.substring (Z.to_nat n) (String.length ds - Z.to_nat n) ds.

Definition positive_to_string (m : positive) (e : Z) : string :=
  let '(s, n, k) := shortest_digits 17 m e (dec_exponent m e) 1 in
  let ds := pretty (Z.to_N s) in
  if (-6 <? n) && (n <=? 21) then
    if k <=? n then ds +:+ zeros (Z.to_nat (n - k))
    else if 0 <? n then head_digits n ds +:+ "." +:+ tail_digits n ds
    else "0." +:+ zeros (Z.to_nat (- n)) +:+ ds
  else
    let ex := (if n - 1 <? 0 then "-" else "+") +:+ pretty (Z.to_N (Z.abs (n - 1))) in
    if k =? 1 then ds +:+ "e" +:+ ex
    else head_digits 1 ds +:+ "." +:+ tail_digits 1 ds +:+ "e" +:+ ex.

Definition to_string (x : number) : string :=
  match x with
  | S754_nan => "NaN"
  | S754_zero _ => "0"
  | S754_infinity s => if s then "-Infinity" else "Infinity"
  | S754_finite s m e =>
      (if s then "-" else "") +:+ positive_to_string m e
  end.

(** The binary64 representation of an integer 0 < q < 2^53: its binary
    digits, shifted to fill the 53 bits of the mantissa. *)
Definition normal_form (q : Z) : number :=
  S754_finite false (Z.to_pos (q * 2 ^ (52 - Z.log2 q))) (Z.log2 q - 52).

(** A Number that is +0, positive and finite, or +infinity. *)
Definition nonneg (x : number) : Prop :=
  match x with
  | S754_zero false | S754_infinity false | S754_finite false _ _ => True
  | _ => False
  end.

(** A Number greater than zero. *)
Definition positive_number (x : number) : Prop := ltb zero x = true.

(** The order of two positive Numbers, read off their representation. *)
Definition lt_pos (x y : number) : Prop :=
  match x, y with
  | S754_finite false m1 e1, S754_finite false m2 e2 =>
      e1 < e2 ∨ (e1 = e2 ∧ (m1 < m2)%positive)
  | S754_finite false _ _, S754_infinity false => True
  | _, _ => False
  end.

Definition le_pos (x y : number) : Prop :=
  match x, y with
  | S754_finite false m1 e1, S754_finite false m2 e2 =>
      e1 < e2 ∨ (e1 = e2 ∧ (m1 <= m2)%positive)
  | _, S754_infinity false => True
  | _, _ => False
  end.

End Num.

Abbreviation number := Num.number.

(** ** JavaScript data values

    The argument of the function and everything reachable from it: the
    primitives, arrays, and plain objects given by their own data properties
    (the first binding of a name is the live one).  Their prototype is
    [Object.prototype]. *)

#[warnings="-register-all"]
Inductive value : Type :=
  | VUndefined
  | VNull
  | VBool (b : bool)
  | VNumber (x : number)
  | VString (s : string)
  | VArray (elems : list value)
  | VObject (props : list (string * value)).

(** ** Completions: a call returns normally or throws *)

Inductive exception : Type := TypeError.

Inductive completion (A : Type) : Type :=
  | Normal (a : A)
  | Throw (e : exception).

Arguments Normal {A} a.
Arguments Throw {A} e.

Definition bind {A B : Type} (c : completion A) (k : A → completion B) : completion B :=
  match c with
  | Normal a => k a
  | Throw e => Throw e
  end.

Notation "'let*' x ':=' c 'in' k" := (bind c (fun x => k))
  (at level 10, x name, c at level 100, k at level 200, only parsing).

(** [Array.prototype.filter] and [Array.prototype.reduce] (with an initial
    value) with a callback that may throw. *)
Fixpoint filterM {A : Type} (f : A → completion bool) (l : list A) : completion (list A) :=
  match l with
  | [] => Normal []
  | x :: l' =>
      let* b := f x in
      let* r := filterM f l' in
      Normal (if b then x :: r else r)
  end.

Fixpoint reduceM {A B : Type} (f : B → A → completion B) (l : list A) (acc : B) : completion B :=
  match l with
  | [] => Normal acc
  | x :: l' => let* acc' := f acc x in reduceM f l' acc'
  end.

(** ** Abstract operations of the language *)

(** ToBoolean *)
Definition ToBoolean (v : value) : bool :=
  match v with
  | VUndefined | VNull => false
  | VBool b => b
  | VNumber x => Num.truthy x
  | VString s => negb (bool_decide (s = ""))
  | VArray _ | VObject _ => true
  end.

Fixpoint own (props : list (string * value)) (p : string) : option value :=
  match props with
  | [] => None
  | (q, v) :: props' => if bool_decide (q = p) then Some v else own props' p
  end.

(** The property read [v.p], for the four names the function reads: "type",
    "amount", "to" and "category".  No built-in prototype defines any of
    them, so a value without such an own property reads as undefined;
    reading a property of undefined or null throws. *)
Definition Get (v : value) (p : string) : completion value :=
  match v with
  | VUndefined | VNull => Throw TypeError
  | VObject props => Normal (default VUndefined (own props p))
  | _ => Normal VUndefined
  end.

(** [v === "s"] *)
Definition is_string (v : value) (s : string) : bool :=
  match v with
  | VString s' => bool_decide (s' = s)
  | _ => false
  end.

(** [typeof v === "number"] *)
Definition is_number (v : value) : bool :=
  match v with
  | VNumber _ => true
  | _ => false
  end.

(** The Number held by a value whose [typeof] is "number".  The function
    applies [+], [>] and [>=] to [txn.amount] only for records that passed
    the [typeof] test of the filter, where they are Number::add and
    Number::lessThan. *)
Definition number_of (v : value) : number :=
  match v with
  | VNumber x => x
  | _ => Num.nan
  end.

(** ToString, as ToPropertyKey applies it to a value used as a computed
    member name.  An array is joined with commas (undefined and null elements
    give the empty string).  A plain object is converted by
    OrdinaryToPrimitive: the inherited [toString] gives "[object Object]";
    an own data property "toString" shadows it with a value that cannot be
    called, [valueOf] does not return a primitive, and the conversion
    throws. *)
Fixpoint ToString (v : value) : completion string :=
  match v with
  | VUndefined => Normal "undefined"
  | VNull => Normal "null"
  | VBool b => Normal (if b then "true" else "false")
  | VNumber x => Normal (Num.to_string x)
  | VString s => Normal s
  | VArray elems =>
      let element (e : value) : completion string :=
        match e with
        | VUndefined | VNull => Normal ""
        | _ => ToString e
        end in
      (fix join (l : list value) : completion string :=
         match l with
         | [] => Normal ""
         | [e] => element e
         | e :: l' =>
             let* s := element e in
             let* r := join l' in
             Normal (s +:+ "," +:+ r)
         end) elems
  | VObject props =>
      match own props "toString" with
      | None => Normal "[object Object]"
      | Some _ => Throw TypeError
      end
  end.

Definition ToPropertyKey (v : value) : completion string := ToString v.

(** ** Plain objects used as dictionaries

    [categoryBreakdown] and [contactCount] are created by [{}] and read and
    written with computed member names.  A read finds an own property or one
    inherited from [Object.prototype]; a write creates or updates an own
    property, except for "__proto__", whose inherited setter ignores a
    primitive. *)

Inductive inherited : Type :=
  | NativeFunction (name : string)
  | ObjectPrototype.

Definition Object_prototype_methods : list string :=
  [ "hasOwnProperty"; "isPrototypeOf"; "propertyIsEnumerable";
    "toLocaleString"; "toString"; "valueOf";
    "__defineGetter__"; "__defineSetter__";
    "__lookupGetter__"; "__lookupSetter__" ].

Definition Object_prototype (k : string) : option inherited :=
  if bool_decide (k = "__proto__") then Some ObjectPrototype
  else if bool_decide (k = "constructor") then Some (NativeFunction "Object")
  else if bool_decide (k ∈ Object_prototype_methods) then Some (NativeFunction k)
  else None.

(** ToString of an inherited value: the source text of a built-in function
    (in the form V8 prints; the language fixes it up to white space) and the
    tag of [Object.prototype]. *)
Definition inherited_text (i : inherited) : string :=
  match i with
  | NativeFunction name => "function " +:+ name +:+ "() { [native code] }"
  | ObjectPrototype => "[object Object]"
  end.

(** The value of an own property of a dictionary: a Number, or the string
    that [+] builds when the name was first read from [Object.prototype]:
    the text of the inherited value followed by the texts of the Numbers
    appended to it since. *)
Inductive cell : Type :=
  | CNum (n : number)
  | CText (i : inherited) (appended : list number).

Definition cell_text (c : cell) : string :=
  match c with
  | CNum n => Num.to_string n
  | CText i appended =>
      fold_left (fun s n => s +:+ Num.to_string n) appended (inherited_text i)
  end.

Inductive slot : Type :=
  | SUndefined
  | SOwn (c : cell)
  | SInherited (i : inherited).

(** [acc[k]] *)
Definition dict_get (acc : gmap string cell) (k : string) : slot :=
  match acc !! k with
  | Some c => SOwn c
  | None =>
      match Object_prototype k with
      | Some i => SInherited i
      | None => SUndefined
      end
  end.

(** [acc[k] = c] *)
Definition dict_set (acc : gmap string cell) (k : string) (c : cell) : gmap string cell :=
  if bool_decide (k = "__proto__") then acc else <[k := c]> acc.

(** [(s || 0) + n]: a falsy slot (undefined, zero, NaN) gives [0 + n]; a
    string or an inherited object is truthy and [+] concatenates. *)
Definition or_zero_plus (s : slot) (n : number) : cell :=
  match s with
  | SUndefined => CNum (Num.add Num.zero n)
  | SOwn (CNum m) => CNum (Num.add (if Num.truthy m then m else Num.zero) n)
  | SOwn (CText i appended) => CText i (appended ++ [n])
  | SInherited i => CText i [n]
  end.

(** [s > maxCount] for a slot of [contactCount]: a string built on an
    inherited value and the inherited values themselves convert to NaN, as
    does undefined, and the comparison is false. *)
Definition slot_gt (s : slot) (maxCount : number) : bool :=
  match s with
  | SOwn (CNum n) => Num.ltb maxCount n
  | _ => false
  end.

(** The count assigned to [maxCount] when the comparison held. *)
Definition slot_count (s : slot) (maxCount : number) : number :=
  match s with
  | SOwn (CNum n) => n
  | _ => maxCount
  end.

Definition one : number := Num.of_Z 1.

(** [Array.prototype.every] and [Array.prototype.some] stop at the first
    element that decides the result. *)
Fixpoint everyM {A : Type} (f : A → completion bool) (l : list A) : completion bool :=
  match l with
  | [] => Normal true
  | x :: l' => let* b := f x in if b then everyM f l' else Normal false
  end.

Fixpoint someM {A : Type} (f : A → completion bool) (l : list A) : completion bool :=
  match l with
  | [] => Normal false
  | x :: l' => let* b := f x in if b then Normal true else someM f l'
  end.

(** [a && b] and [a || b] on conditions: the right operand is evaluated only
    when the left one does not decide. *)
Definition andM (a b : completion bool) : completion bool :=
  let* x := a in if x then b else Normal false.

Definition orM (a b : completion bool) : completion bool :=
  let* x := a in if x then Normal true else b.

(** ** The analyzer: [analyzeUPITransactions] *)

Record summary : Type := {
  totalCredit : number;
  totalDebit : number;
  netBalance : number;
  transactionCount : nat;
  avgTransaction : number;
  highestTransaction : value;
  categoryBreakdown : gmap string cell;
  frequentContact : value;
  allAbove100 : bool;
  hasLargeTransaction : bool
}.

Definition hundred : number := Num.of_Z 100.
Definition five_thousand : number := Num.of_Z 5000.

(** [txn.type === s] *)
Definition type_is (s : string) (txn : value) : completion bool :=
  let* t := Get txn "type" in Normal (is_string t s).

(** The callback of the first [filter] (lines 56-61). *)
Definition isValidTxn (txn : value) : completion bool :=
  andM (Normal (ToBoolean txn))
    (andM (orM (type_is "credit" txn) (type_is "debit" txn))
       (andM (let* a := Get txn "amount" in Normal (is_number a))
             (let* a := Get txn "amount" in Normal (Num.ltb Num.zero (number_of a))))).

(** [(sum, txn) => sum + txn.amount] *)
Definition addAmount (sum : number) (txn : value) : completion number :=
  let* a := Get txn "amount" in Normal (Num.add sum (number_of a)).

(** [(max, txn) => txn.amount > max.amount ? txn : max] *)
Definition higher (max txn : value) : completion value :=
  let* a := Get txn "amount" in
  let* b := Get max "amount" in
  Normal (if Num.ltb (number_of b) (number_of a) then txn else max).

(** [acc[txn.category] = (acc[txn.category] || 0) + txn.amount] *)
Definition addCategory (acc : gmap string cell) (txn : value)
  : completion (gmap string cell) :=
  let* c := Get txn "category" in
  let* k := ToPropertyKey c in
  let* a := Get txn "amount" in
  Normal (dict_set acc k (or_zero_plus (dict_get acc k) (number_of a))).

(** [contactCount[txn.to] = (contactCount[txn.to] || 0) + 1] *)
Definition countContact (acc : gmap string cell) (txn : value)
  : completion (gmap string cell) :=
  let* t := Get txn "to" in
  let* k := ToPropertyKey t in
  Normal (dict_set acc k (or_zero_plus (dict_get acc k) one)).

(** The body of the [for ... of] loop (lines 103-106), on the pair
    [(maxCount, frequentContact)]. *)
Definition pickContact (contactCount : gmap string cell)
    (st : number * value) (txn : value) : completion (number * value) :=
  let* t := Get txn "to" in
  let* k := ToPropertyKey t in
  if slot_gt (dict_get contactCount k) (fst st)
  then Normal (slot_count (dict_get contactCount k) (fst st), t)
  else Normal st.

Definition analyzeUPITransactions (transactions : value) : completion (option summary) :=
  match transactions with
  | VArray txns =>
      if Nat.eqb (length txns) 0 then Normal None
      else
        let* validTxns := filterM isValidTxn txns in
        match validTxns with
        | [] => Normal None
        | first :: rest =>
            let* credits := filterM (type_is "credit") validTxns in
            let* totalCredit := reduceM addAmount credits Num.zero in
            let* debits := filterM (type_is "debit") validTxns in
            let* totalDebit := reduceM addAmount debits Num.zero in
            let netBalance := Num.sub totalCredit totalDebit in
            let transactionCount := length validTxns in
            let* totalAmount := reduceM addAmount validTxns Num.zero in
            let avgTransaction :=
              Num.round (Num.div totalAmount (Num.of_nat transactionCount)) in
            let* highestTransaction := reduceM higher rest first in
            let* categoryBreakdown := reduceM addCategory validTxns ∅ in
            let* to0 := Get first "to" in
            let* contactCount := reduceM countContact validTxns ∅ in
            let* best := reduceM (pickContact contactCount) validTxns (Num.zero, to0) in
            let* allAbove100 :=
              everyM (fun txn => let* a := Get txn "amount" in
                                 Normal (Num.ltb hundred (number_of a))) validTxns in
            let* hasLargeTransaction :=
              someM (fun txn => let* a := Get txn "amount" in
                                Normal (Num.leb five_thousand (number_of a))) validTxns in
            Normal (Some {|
              totalCredit := totalCredit;
              totalDebit := totalDebit;
              netBalance := netBalance;
              transactionCount := transactionCount;
              avgTransaction := avgTransaction;
              highestTransaction := highestTransaction;
              categoryBreakdown := categoryBreakdown;
              frequentContact := snd best;
              allAbove100 := allAbove100;
              hasLargeTransaction := hasLargeTransaction
            |})
        end
  | _ => Normal None
  end.

(** ** The quantities the properties are stated with

    What the summary is compared to: the validity predicate, the valid
    records of an input, their amounts and labels, and the sums, extremes
    and counts over them. *)

(** The value of property [p] of a record ([undefined] when it has none). *)
Definition field (txn : value) (p : string) : value :=
  match txn with
  | VObject props => default VUndefined (own props p)
  | _ => VUndefined
  end.

Definition amount (txn : value) : number := number_of (field txn "amount").

Definition is_credit (txn : value) : bool := is_string (field txn "type") "credit".
Definition is_debit (txn : value) : bool := is_string (field txn "type") "debit".

(** The validity predicate: the type is exactly "credit" or "debit", the
    amount is a Number, and the amount is greater than zero. *)
Definition valid (txn : value) : bool :=
  (is_credit txn || is_debit txn)
  && is_number (field txn "amount")
  && Num.ltb Num.zero (amount txn).

Definition valid_records (txns : list value) : list value := List.filter valid txns.

(** The floating-point sum of a list of Numbers, added from the left
    starting at 0, as [reduce] adds them. *)
Definition sum (l : list number) : number := fold_left Num.add l Num.zero.

Definition amounts (l : list value) : list number := map amount l.

(** The first element of [first :: rest] whose measure [f] is greatest, and
    the first one whose measure is least, found by a scan that replaces the
    running choice only by a strictly better element. *)
Definition first_max {A : Type} (f : A → number) (first : A) (rest : list A) : A :=
  fold_left (fun max x => if Num.ltb (f max) (f x) then x else max) rest first.

Definition first_min {A : Type} (f : A → number) (first : A) (rest : list A) : A :=
  fold_left (fun min x => if Num.ltb (f x) (f min) then x else min) rest first.

(** The record with the greatest amount, the first one among equals. *)
Definition highest (first : value) (rest : list value) : value :=
  first_max amount first rest.

(** The least and the greatest of a non-empty list of Numbers. *)
Definition minimum (first : number) (rest : list number) : number :=
  first_min (fun x => x) first rest.

Definition maximum (first : number) (rest : list number) : number :=
  first_max (fun x => x) first rest.

(** The property keys under which a record is filed. *)
Definition category_key (txn : value) : completion string :=
  ToPropertyKey (field txn "category").

Definition contact_key (txn : value) : completion string :=
  ToPropertyKey (field txn "to").

Fixpoint mapM {A B : Type} (f : A → completion B) (l : list A) : completion (list B) :=
  match l with
  | [] => Normal []
  | x :: l' =>
      let* y := f x in
      let* r := mapM f l' in
      Normal (y :: r)
  end.

(** A dictionary after the entries [(k, n)] were filed one by one with
    [acc[k] = (acc[k] || 0) + n]. *)
Definition accumulate (entries : list (string * number))
    (acc : gmap string cell) : gmap string cell :=
  fold_left (fun acc e => dict_set acc (fst e) (or_zero_plus (dict_get acc (fst e)) (snd e)))
    entries acc.

(** The scan for the most frequent contact over the keys and labels of the
    valid records. *)
Definition pick (counts : gmap string cell) (entries : list (string * value))
    (st : number * value) : number * value :=
  fold_left (fun st e =>
               if slot_gt (dict_get counts (fst e)) (fst st)
               then (slot_count (dict_get counts (fst e)) (fst st), snd e)
               else st)
    entries st.

Definition labels (l : list value) : list value := map (fun txn => field txn "to") l.

(** The summary of the valid records [first :: rest], whose category keys
    are [cks] and whose contact keys are [tks]. *)
Definition summarize (first : value) (rest : list value) (cks tks : list string) : summary :=
  let vs := first :: rest in
  let counts := accumulate (zip tks (map (fun _ => one) vs)) ∅ in
  {| totalCredit := sum (amounts (List.filter is_credit vs));
     totalDebit := sum (amounts (List.filter is_debit vs));
     netBalance := Num.sub (sum (amounts (List.filter is_credit vs)))
                           (sum (amounts (List.filter is_debit vs)));
     transactionCount := length vs;
     avgTransaction := Num.round (Num.div (sum (amounts vs)) (Num.of_nat (length vs)));
     highestTransaction := highest first rest;
     categoryBreakdown := accumulate (zip cks (amounts vs)) ∅;
     frequentContact := snd (pick counts (zip tks (labels vs)) (Num.zero, field first "to"));
     allAbove100 := forallb (fun txn => Num.ltb hundred (amount txn)) vs;
     hasLargeTransaction := existsb (fun txn => Num.leb five_thousand (amount txn)) vs |}.

(** The number of times a key occurs in a list of keys. *)
Definition occurrences (k : string) (ks : list string) : nat :=
  length (List.filter (fun k' => bool_decide (k' = k)) ks).

(** The numbers filed under key [k], in the order of the entries. *)
Definition filed_under {N : Type} (k : string) (entries : list (string * N)) : list N :=
  map snd (List.filter (fun e => bool_decide (fst e = k)) entries).

(** The slot a dictionary shows for a key that [Object.prototype] does not
    define. *)
Definition slot_of (c : option cell) : slot :=
  match c with
  | Some c => SOwn c
  | None => SUndefined
  end.

(** The total of a list of integers. *)
Definition total (zs : list Z) : Z := fold_right Z.add 0 zs.

(** The Number a category holds in a breakdown, 0 when it holds none. *)
Definition breakdown_value (cb : gmap string cell) (k : string) : number :=
  match cb !! k with
  | Some (CNum x) => x
  | _ => Num.zero
  end.

(** Both labels of a record convert to property keys. *)
Definition labels_convert (txn : value) : Prop :=
  (∃ k, category_key txn = Normal k) ∧ (∃ k, contact_key txn = Normal k).

(** The primitive values: everything but arrays and objects. *)
Definition primitive (v : value) : Prop :=
  match v with
  | VArray _ | VObject _ => False
  | _ => True
  end.

(** ** Sample inputs *)

Module Sample.

Definition record (id type : string) (amt : number) (to category date : string) : value :=
  VObject [ ("id", VString id); ("type", VString type); ("amount", VNumber amt);
            ("to", VString to); ("category", VString category);
            ("date", VString date) ].

(** The documented example (lines 38-47 of the source). *)
Definition T1 : value := record "T1" "credit" (Num.of_Z 5000) "Salary" "income" "2025-01-01".
Definition T2 : value := record "T2" "debit" (Num.of_Z 200) "Swiggy" "food" "2025-01-02".
Definition T3 : value := record "T3" "debit" (Num.of_Z 100) "Swiggy" "food" "2025-01-03".

Definition documented : list value := [T1; T2; T3].

Definition documented_summary : summary :=
  summarize T1 [T2; T3] ["income"; "food"; "food"] ["Salary"; "Swiggy"; "Swiggy"].

(** The same records among elements that are not valid records: null, a
    string, a record with a negative amount, one with a string amount and
    one with an unknown type. *)
Definition noisy : list value :=
  [ VNull; T1; VString "T9";
    record "T4" "credit" (Num.of_Z (-5)) "A" "x" "2025-01-04";
    T2;
    VObject [("type", VString "debit"); ("amount", VString "500")];
    T3;
    record "T5" "refund" (Num.of_Z 40) "B" "y" "2025-01-05" ].

(** A valid record whose category is an object with an own "toString"
    property. *)
Definition object_category : value :=
  VObject [ ("id", VString "T6"); ("type", VString "credit");
            ("amount", VNumber (Num.of_Z 500)); ("to", VString "Rahul");
            ("category", VObject [("toString", VNumber (Num.of_Z 1))]) ].

(** A valid record whose contact is such an object. *)
Definition object_contact : value :=
  VObject [ ("id", VString "T7"); ("type", VString "debit");
            ("amount", VNumber (Num.of_Z 250));
            ("to", VObject [("toString", VString "Rahul")]);
            ("category", VString "food") ].

(** Four valid records: the first has no contact, the second has the
    contact "undefined", the last two have the contact "A". *)
Definition missing_contact : list value :=
  [ VObject [ ("id", VString "T1"); ("type", VString "credit");
              ("amount", VNumber (Num.of_Z 100)); ("category", VString "misc") ];
    record "T2" "debit" (Num.of_Z 100) "undefined" "misc" "2025-03-02";
    record "T3" "debit" (Num.of_Z 100) "A" "misc" "2025-03-03";
    record "T4" "debit" (Num.of_Z 100) "A" "misc" "2025-03-04" ].

(** Two payments to a contact named "constructor" and one to "Asha", the
    first of them in a category named "constructor". *)
Definition inherited_names : list value :=
  [ record "T1" "debit" (Num.of_Z 500) "constructor" "constructor" "2025-04-01";
    record "T2" "debit" (Num.of_Z 300) "constructor" "food" "2025-04-02";
    record "T3" "debit" (Num.of_Z 200) "Asha" "food" "2025-04-03" ].

(** Three records with amounts 0.1, 0.1 and 4.3. *)
Definition small_amounts : list value :=
  [ record "T1" "credit" (Num.dec 1 10) "Asha" "food" "2025-02-01";
    record "T2" "debit" (Num.dec 1 10) "Asha" "food" "2025-02-02";
    record "T3" "debit" (Num.dec 43 10) "Ravi" "rent" "2025-02-03" ].

End Sample.

(** [k] is the integer nearest to x = (-1)^s * m * 2^e, the greater one when
    two are equally near: k - 1/2 <= x < k + 1/2, multiplied by 2^(1-e). *)
Definition nearest_half_up (s : bool) (m : positive) (e : Z) (k : Z) : Prop :=
  (2 * k - 1) * 2 ^ (- e) <= 2 * cond_Zopp s (Zpos m)
  ∧ 2 * cond_Zopp s (Zpos m) < (2 * k + 1) * 2 ^ (- e).

(** Equality of values is decidable. *)
#[export] Instance number_eq_dec : EqDecision number.
Proof. solve_decision. Defined.

#[export] Instance value_eq_dec : EqDecision value.
Proof.
  refine (fix go (a b : value) {struct a} : Decision (a = b) :=
            let _ : EqDecision value := go in
            match a, b with
            | VUndefined, VUndefined => left _
            | VNull, VNull => left _
            | VBool x, VBool y => cast_if (decide (x = y))
            | VNumber x, VNumber y => cast_if (decide (x = y))
            | VString x, VString y => cast_if (decide (x = y))
            | VArray x, VArray y => cast_if (decide (x = y))
            | VObject x, VObject y => cast_if (decide (x = y))
            | _, _ => right _
            end); congruence.
Defined.

(** The number of valid records that carry the label [l]. *)
Definition label_count (l : value) (ls : list value) : nat :=
  length (List.filter (fun l' => bool_decide (l' = l)) ls).

(** ** Quantities for the further properties *)

(** Two elements agree on the four properties the analyzer reads. *)
Definition same_entry (txn1 txn2 : value) : Prop :=
  field txn1 "type" = field txn2 "type"
  ∧ field txn1 "amount" = field txn2 "amount"
  ∧ field txn1 "to" = field txn2 "to"
  ∧ field txn1 "category" = field txn2 "category".

(** Two summaries agree on every field, the highest transactions being
    compared by what the analyzer reads of them. *)
Definition same_but_record (s1 s2 : summary) : Prop :=
  totalCredit s1 = totalCredit s2
  ∧ totalDebit s1 = totalDebit s2
  ∧ netBalance s1 = netBalance s2
  ∧ transactionCount s1 = transactionCount s2
  ∧ avgTransaction s1 = avgTransaction s2
  ∧ categoryBreakdown s1 = categoryBreakdown s2
  ∧ frequentContact s1 = frequentContact s2
  ∧ allAbove100 s1 = allAbove100 s2
  ∧ hasLargeTransaction s1 = hasLargeTransaction s2
  ∧ same_entry (highestTransaction s1) (highestTransaction s2).


(** The amounts of the records [l] are whole numbers, [units txn] for the
    record [txn]. *)
Definition whole_amounts (units : value → Z) (l : list value) : Prop :=
  ∀ txn, In txn l → amount txn = Num.of_Z (units txn).

Definition units_total (units : value → Z) (l : list value) : Z :=
  total (map units l).

(** The records of [l] that are filed under the key [k]. *)
Definition filed_records (key : value → completion string) (k : string)
    (l : list value) : list value :=
  List.filter (fun txn => match key txn with
                          | Normal k' => bool_decide (k' = k)
                          | Throw _ => false
                          end) l.

(** The integral value of a Number that holds an integer (its integral
    part, towards zero, for any finite Number; 0 for the others). *)
Definition whole_part (x : number) : Z :=
  match x with
  | S754_finite s m e =>
      cond_Zopp s (if 0 <=? e then Zpos m * 2 ^ e else Zpos m / 2 ^ (- e))
  | _ => 0
  end.

Definition rupees (txn : value) : Z := whole_part (amount txn).

(** Whether a location records that digits were lost. *)
Definition inexact (l : location) : bool :=
  match l with
  | loc_Exact => false
  | loc_Inexact _ => true
  end.

Module Scenario.

(** The documented records under other ids and dates, the first one with a
    note and its properties in another order. *)
Definition R1 : value :=
  VObject [ ("note", VString "bonus"); ("category", VString "income");
            ("to", VString "Salary"); ("amount", VNumber (Num.of_Z 5000));
            ("type", VString "credit"); ("id", VString "A-17") ].
Definition R2 : value :=
  Sample.record "A-18" "debit" (Num.of_Z 200) "Swiggy" "food" "2031-07-09".
Definition R3 : value :=
  Sample.record "A-19" "debit" (Num.of_Z 100) "Swiggy" "food" "2031-07-10".

Definition relabelled : list value := [R1; R2; R3].

Definition relabelled_summary : summary :=
  summarize R1 [R2; R3] ["income"; "food"; "food"] ["Salary"; "Swiggy"; "Swiggy"].

Definition inherited_names_summary : summary :=
  summarize
    (Sample.record "T1" "debit" (Num.of_Z 500) "constructor" "constructor" "2025-04-01")
    [ Sample.record "T2" "debit" (Num.of_Z 300) "constructor" "food" "2025-04-02";
      Sample.record "T3" "debit" (Num.of_Z 200) "Asha" "food" "2025-04-03" ]
    ["constructor"; "food"; "food"] ["constructor"; "constructor"; "Asha"].

(** A credit and a debit of Infinity. *)
Definition unbounded : list value :=
  [ Sample.record "T1" "credit" Num.infinity "Asha" "gift" "2025-05-01";
    Sample.record "T2" "debit" Num.infinity "Ravi" "loan" "2025-05-02" ].

Definition unbounded_summary : summary :=
  summarize (Sample.record "T1" "credit" Num.infinity "Asha" "gift" "2025-05-01")
    [Sample.record "T2" "debit" Num.infinity "Ravi" "loan" "2025-05-02"]
    ["gift"; "loan"] ["Asha"; "Ravi"].

(** Three whole amounts whose total is 3 * 2^51 + 1. *)
Definition large_amounts : list value :=
  [ Sample.record "T1" "credit" (Num.of_Z (3 * 2 ^ 51 - 1)) "Asha" "sale" "2025-06-01";
    Sample.record "T2" "debit" (Num.of_Z 1) "Ravi" "fee" "2025-06-02";
    Sample.record "T3" "debit" (Num.of_Z 1) "Ravi" "fee" "2025-06-03" ].

(** The documented records in another order. *)
Definition shuffled : list value := [Sample.T3; Sample.T1; Sample.T2].

Definition shuffled_summary : summary :=
  summarize Sample.T3 [Sample.T1; Sample.T2]
    ["food"; "income"; "food"] ["Swiggy"; "Salary"; "Swiggy"].

End Scenario.

(** * Properties *)

(** ** Facts about binary64 arithmetic *)

Module NumFacts.
Import Num.

Lemma positive_cases x :
  positive_number x →
  x = S754_infinity false ∨ ∃ m e, x = S754_finite false m e.
Proof.
  unfold positive_number, ltb, SFltb.
  destruct x as [s|s| |s m e]; simpl; try discriminate.
  - destruct s; simpl; [discriminate|auto].
  - destruct s; simpl; [discriminate|eauto].
Qed.

Lemma positive_nonneg x : positive_number x → nonneg x.
Proof. intros [->|(m & e & ->)]%positive_cases; exact I. Qed.

Lemma positive_truthy x : positive_number x → truthy x = true.
Proof. intros [->|(m & e & ->)]%positive_cases; reflexivity. Qed.

(** *** Sums of non-negative Numbers are non-negative Numbers, never NaN *)

Lemma shr_1_nonneg mrs : 0 <= shr_m mrs → 0 <= shr_m (shr_1 mrs).
Proof.
  destruct mrs as [m r s]; simpl.
  destruct m as [|p|p]; simpl; try lia.
  destruct p; simpl; lia.
Qed.

Lemma iter_shr_1_nonneg n mrs :
  0 <= shr_m mrs → 0 <= shr_m (SpecFloat.iter_pos shr_1 n mrs).
Proof.
  revert mrs. induction n as [n IH|n IH|]; intros mrs Hm; simpl.
  - apply IH, IH, shr_1_nonneg, Hm.
  - apply IH, IH, Hm.
  - apply shr_1_nonneg, Hm.
Qed.

Lemma shr_fexp_nonneg m e l :
  0 <= m → 0 <= shr_m (fst (shr_fexp prec emax m e l)).
Proof.
  intros Hm. unfold shr_fexp, shr.
  assert (Hr : 0 <= shr_m (shr_record_of_loc m l)).
  { destruct l as [|[]]; simpl; exact Hm. }
  destruct (fexp prec emax (Zdigits2 m + e) - e); simpl; auto.
  apply iter_shr_1_nonneg, Hr.
Qed.

Lemma round_nearest_even_nonneg m l : 0 <= m → 0 <= round_nearest_even m l.
Proof.
  intros Hm. destruct l as [|[]]; simpl; try lia.
  destruct (Z.even m); lia.
Qed.

Lemma binary_round_aux_nonneg m e l :
  0 <= m → nonneg (binary_round_aux prec emax false m e l).
Proof.
  intros Hm. unfold binary_round_aux.
  destruct (shr_fexp prec emax m e l) as [mrs' e'] eqn:E1.
  destruct (shr_fexp prec emax _ e' loc_Exact) as [mrs'' e''] eqn:E2.
  assert (H1 : 0 <= shr_m mrs').
  { change mrs' with (fst (mrs', e')). rewrite <- E1. apply shr_fexp_nonneg, Hm. }
  assert (H2 : 0 <= shr_m mrs'').
  { change mrs'' with (fst (mrs'', e'')). rewrite <- E2.
    apply shr_fexp_nonneg, round_nearest_even_nonneg, H1. }
  destruct (shr_m mrs'') as [|p|p]; simpl; try lia; auto.
  destruct (e'' <=? emax - prec); simpl; auto.
Qed.

Lemma add_nonneg x y : nonneg x → nonneg y → nonneg (add x y).
Proof.
  destruct x as [[]|[]| |[] mx ex]; simpl; try contradiction;
  destruct y as [[]|[]| |[] my ey]; simpl; try contradiction; auto.
  intros _ _. unfold add, SFadd. simpl cond_Zopp.
  unfold binary_normalize. simpl Z.add.
  unfold binary_round.
  destruct (shl_align _ _ _) as [mz ez].
  apply binary_round_aux_nonneg. lia.
Qed.

(** On a non-negative running sum, [(sum || 0) + x] is [sum + x]. *)
Lemma add_or_zero x y :
  nonneg x → add (if truthy x then x else zero) y = add x y.
Proof.
  destruct x as [[]|[]| |[] mx ex]; simpl; try contradiction; reflexivity.
Qed.

Lemma fold_add_nonneg l acc :
  nonneg acc → Forall nonneg l → nonneg (fold_left add l acc).
Proof.
  revert acc. induction l as [|x l IH]; intros acc Hacc Hl; simpl; [exact Hacc|].
  inversion Hl; subst. apply IH; [apply add_nonneg|]; assumption.
Qed.

(** *** The order of positive Numbers *)

Lemma ltb_lt_pos x y :
  positive_number x → positive_number y → (ltb x y = true ↔ lt_pos x y).
Proof.
  intros Hx Hy.
  destruct (positive_cases x Hx) as [->|(m1 & e1 & ->)];
  destruct (positive_cases y Hy) as [->|(m2 & e2 & ->)];
    unfold ltb, SFltb; simpl; try (split; [discriminate|tauto]); try tauto.
  rewrite Pos.compare_cont_spec. simpl.
  destruct (Z.compare_spec e1 e2); destruct (Pos.compare_spec m1 m2);
    split; intros; try discriminate; try lia; auto.
Qed.

Lemma leb_le_pos x y :
  positive_number x → positive_number y → (leb x y = true ↔ le_pos x y).
Proof.
  intros Hx Hy.
  destruct (positive_cases x Hx) as [->|(m1 & e1 & ->)];
  destruct (positive_cases y Hy) as [->|(m2 & e2 & ->)];
    unfold leb, SFleb; simpl; try (split; [discriminate|tauto]); try tauto.
  rewrite Pos.compare_cont_spec. simpl.
  destruct (Z.compare_spec e1 e2); destruct (Pos.compare_spec m1 m2);
    split; intros; try discriminate; try lia; auto.
Qed.

Ltac order_pos2 x y Hx Hy :=
  rewrite ?ltb_lt_pos, ?leb_le_pos by assumption;
  destruct (positive_cases x Hx) as [->|(?m & ?e & ->)];
  destruct (positive_cases y Hy) as [->|(?m & ?e & ->)];
  simpl; try tauto; lia.

Ltac order_pos3 x y z Hx Hy Hz :=
  rewrite ?ltb_lt_pos, ?leb_le_pos by assumption;
  destruct (positive_cases x Hx) as [->|(?m & ?e & ->)];
  destruct (positive_cases y Hy) as [->|(?m & ?e & ->)];
  destruct (positive_cases z Hz) as [->|(?m & ?e & ->)];
  simpl; try tauto; lia.

Lemma leb_refl x : positive_number x → leb x x = true.
Proof.
  intros Hx. rewrite leb_le_pos by assumption.
  destruct (positive_cases x Hx) as [->|(m & e & ->)]; simpl; [tauto|lia].
Qed.

Lemma ltb_leb x y :
  positive_number x → positive_number y → ltb x y = true → leb x y = true.
Proof. intros Hx Hy. order_pos2 x y Hx Hy. Qed.

Lemma ltb_trans x y z :
  positive_number x → positive_number y → positive_number z →
  ltb x y = true → ltb y z = true → ltb x z = true.
Proof. intros Hx Hy Hz. order_pos3 x y z Hx Hy Hz. Qed.

Lemma leb_trans x y z :
  positive_number x → positive_number y → positive_number z →
  leb x y = true → leb y z = true → leb x z = true.
Proof. intros Hx Hy Hz. order_pos3 x y z Hx Hy Hz. Qed.

Lemma ltb_leb_trans x y z :
  positive_number x → positive_number y → positive_number z →
  ltb x y = true → leb y z = true → ltb x z = true.
Proof. intros Hx Hy Hz. order_pos3 x y z Hx Hy Hz. Qed.

Lemma leb_ltb_trans x y z :
  positive_number x → positive_number y → positive_number z →
  leb x y = true → ltb y z = true → ltb x z = true.
Proof. intros Hx Hy Hz. order_pos3 x y z Hx Hy Hz. Qed.

Lemma not_ltb_leb x y :
  positive_number x → positive_number y → ltb x y = false → leb y x = true.
Proof.
  intros Hx Hy Hlt. apply not_true_iff_false in Hlt. revert Hlt.
  order_pos2 x y Hx Hy.
Qed.

(** *** [Math.round] rounds to the nearest integer, halves upwards *)

(** For x = (-1)^s * m * 2^e with e < 0, the integer k = [round_int s m e]
    satisfies k - 1/2 <= x < k + 1/2, here multiplied by 2^(1-e). *)
Lemma round_int_nearest s m e :
  e < 0 →
  (2 * round_int s m e - 1) * 2 ^ (- e) <= 2 * cond_Zopp s (Zpos m)
  ∧ 2 * cond_Zopp s (Zpos m) < (2 * round_int s m e + 1) * 2 ^ (- e).
Proof.
  intros He. unfold round_int.
  set (x := cond_Zopp s (Z.pos m)).
  replace (1 - e) with (Z.succ (- e)) by lia.
  rewrite Z.pow_succ_r by lia.
  assert (Hp : 0 < 2 ^ (- e)) by (apply Z.pow_pos_nonneg; lia).
  set (p := 2 ^ (- e)) in *.
  pose proof (Z.div_mod (2 * x + p) (2 * p) ltac:(lia)) as Hdm.
  pose proof (Z.mod_pos_bound (2 * x + p) (2 * p) ltac:(lia)) as Hb.
  nia.
Qed.

End NumFacts.

(** ** Arithmetic on integers below 2^53 is exact *)

Section Integers.
Import Num.

Lemma digits2_size p : digits2_pos p = Pos.size p.
Proof. induction p; simpl; congruence. Qed.

Lemma digits2_bounds p :
  2 ^ (Zpos (digits2_pos p) - 1) <= Zpos p < 2 ^ Zpos (digits2_pos p).
Proof.
  rewrite digits2_size.
  pose proof (Pos.size_gt p) as Hgt. pose proof (Pos.size_le p) as Hle.
  apply Pos2Z.pos_lt_pos in Hgt. apply Pos2Z.pos_le_pos in Hle.
  rewrite Pos2Z.inj_pow in Hgt, Hle.
  replace (Zpos (Pos.size p)) with (Z.succ (Zpos (Pos.size p) - 1)) in Hle at 1 by lia.
  rewrite Z.pow_succ_r in Hle by lia.
  lia.
Qed.

Lemma digits2_unique p d :
  2 ^ (d - 1) <= Zpos p < 2 ^ d → Zpos (digits2_pos p) = d.
Proof.
  intros [Hlo Hhi]. pose proof (digits2_bounds p) as [Hlo' Hhi'].
  set (D := Zpos (digits2_pos p)) in *.
  assert (HD : 1 <= D) by (unfold D; lia).
  assert (Hd : 1 <= d).
  { destruct (Z_lt_le_dec d 1) as [Hlt|]; [|assumption].
    assert (2 ^ d <= 2 ^ 0) by (apply Z.pow_le_mono_r; lia).
    simpl in *. lia. }
  destruct (Z.lt_trichotomy D d) as [Hlt|[Heq|Hgt]]; [|assumption|].
  - assert (2 ^ D <= 2 ^ (d - 1)) by (apply Z.pow_le_mono_r; lia). lia.
  - assert (2 ^ d <= 2 ^ (D - 1)) by (apply Z.pow_le_mono_r; lia). lia.
Qed.

Lemma iter_xO p k : Zpos (Pos.iter xO p k) = Zpos p * 2 ^ Zpos k.
Proof.
  induction k as [|k IH] using Pos.peano_ind.
  - simpl. lia.
  - rewrite Pos.iter_succ, Pos2Z.inj_succ, Z.pow_succ_r by lia.
    change (Zpos (Pos.iter xO p k)~0) with (2 * Zpos (Pos.iter xO p k)).
    rewrite IH. lia.
Qed.

Lemma iter_pos_iter {A : Type} (f : A → A) n x :
  SpecFloat.iter_pos f n x = Pos.iter f x n.
Proof.
  revert x. induction n as [n IH|n IH|]; intros x; simpl.
  - rewrite !IH, !Pos.iter_swap. reflexivity.
  - rewrite !IH. reflexivity.
  - reflexivity.
Qed.

Lemma shr_1_double m :
  0 < m →
  shr_1 {| shr_m := 2 * m; shr_r := false; shr_s := false |}
  = {| shr_m := m; shr_r := false; shr_s := false |}.
Proof. destruct m as [|p|p]; try lia. reflexivity. Qed.

Lemma shr_exact k m :
  0 < m →
  Pos.iter shr_1 {| shr_m := m * 2 ^ Zpos k; shr_r := false; shr_s := false |} k
  = {| shr_m := m; shr_r := false; shr_s := false |}.
Proof.
  intros Hm. revert m Hm. induction k as [|k IH] using Pos.peano_ind; intros m Hm.
  - simpl. replace (m * 2 ^ 1) with (2 * m) by lia. apply shr_1_double. assumption.
  - rewrite Pos.iter_succ_r, Pos2Z.inj_succ, Z.pow_succ_r by lia.
    replace (m * (2 * 2 ^ Zpos k)) with (2 * (m * 2 ^ Zpos k)) by lia.
    rewrite shr_1_double by (apply Z.mul_pos_pos; [assumption|apply Z.pow_pos_nonneg; lia]).
    apply IH. assumption.
Qed.

(** Rounding a mantissa that is a 53-bit number [r] followed by [d] zero
    bits is exact. *)
Lemma binary_round_aux_exact M r e d :
  0 <= d →
  Zpos M = Zpos r * 2 ^ d →
  Zpos (digits2_pos r) = 53 →
  -1074 <= e + d <= 971 →
  binary_round_aux prec emax false (Zpos M) e loc_Exact = S754_finite false r (e + d).
Proof.
  intros Hd HM Hr He.
  assert (HdM : Zpos (digits2_pos M) = 53 + d).
  { apply digits2_unique. pose proof (digits2_bounds r) as [Hlo Hhi].
    rewrite Hr in Hlo, Hhi. rewrite HM.
    replace (53 + d - 1) with (52 + d) by lia.
    rewrite !Z.pow_add_r by lia.
    assert (0 < 2 ^ d) by (apply Z.pow_pos_nonneg; lia). nia. }
  unfold binary_round_aux, shr_fexp. simpl Zdigits2. rewrite HdM.
  unfold fexp, SpecFloat.emin, prec, emax.
  replace (Z.max (53 + d + e - 53) (3 - 1024 - 53) - e) with d by lia.
  assert (Hshr : shr {| shr_m := Zpos M; shr_r := false; shr_s := false |} e d
                 = ({| shr_m := Zpos r; shr_r := false; shr_s := false |}, e + d)).
  { unfold shr. destruct d as [|k|k]; try lia.
    - f_equal; [|lia]. f_equal. rewrite HM. simpl. lia.
    - rewrite iter_pos_iter, HM, shr_exact by lia. reflexivity. }
  simpl shr_record_of_loc. rewrite Hshr.
  simpl shr_m. simpl loc_of_shr_record. simpl round_nearest_even.
  simpl Zdigits2. rewrite Hr.
  replace (Z.max (53 + (e + d) - 53) (3 - 1024 - 53) - (e + d)) with 0 by lia.
  simpl shr. cbv beta iota. simpl shr_m.
  rewrite (proj2 (Z.leb_le (e + d) (1024 - 53))) by lia. reflexivity.
Qed.
End Integers.

Section IntegerSums.
Import Num.

Lemma normal_form_mantissa q :
  0 < q < 2 ^ 53 →
  0 <= Z.log2 q <= 52
  ∧ Zpos (Z.to_pos (q * 2 ^ (52 - Z.log2 q))) = q * 2 ^ (52 - Z.log2 q)
  ∧ Zpos (digits2_pos (Z.to_pos (q * 2 ^ (52 - Z.log2 q)))) = 53.
Proof.
  intros [Hq0 Hq].
  pose proof (Z.log2_spec q Hq0) as [Hlo Hhi].
  pose proof (Z.log2_nonneg q) as Hl0.
  assert (Hl : Z.log2 q < 53) by (apply Z.log2_lt_pow2; lia).
  assert (Hp : 0 < 2 ^ (52 - Z.log2 q)) by (apply Z.pow_pos_nonneg; lia).
  assert (Hr : Zpos (Z.to_pos (q * 2 ^ (52 - Z.log2 q))) = q * 2 ^ (52 - Z.log2 q)).
  { apply Z2Pos.id. nia. }
  split; [lia|]. split; [exact Hr|].
  apply digits2_unique. rewrite Hr.
  assert (E1 : 2 ^ (53 - 1) = 2 ^ Z.log2 q * 2 ^ (52 - Z.log2 q)).
  { rewrite <- Z.pow_add_r by lia. f_equal; lia. }
  assert (E2 : 2 ^ 53 = 2 ^ Z.succ (Z.log2 q) * 2 ^ (52 - Z.log2 q)).
  { rewrite <- Z.pow_add_r by lia. f_equal; lia. }
  rewrite E1, E2. nia.
Qed.

(** Rounding [M * 2^e] is exact when it is an integer below 2^53. *)
Lemma binary_round_integer M e q :
  e <= 0 →
  Zpos M = q * 2 ^ (- e) →
  0 < q < 2 ^ 53 →
  binary_round prec emax false M e = normal_form q.
Proof.
  intros He HM Hq.
  destruct (normal_form_mantissa q Hq) as (Hl & Hr & Hdr).
  pose proof (Z.log2_spec q ltac:(lia)) as [Hlo Hhi].
  set (r := Z.to_pos (q * 2 ^ (52 - Z.log2 q))) in *.
  assert (Hpe : 0 < 2 ^ (- e)) by (apply Z.pow_pos_nonneg; lia).
  assert (HdM : Zpos (digits2_pos M) = Z.log2 q + 1 - e).
  { apply digits2_unique. rewrite HM.
    assert (E1 : 2 ^ (Z.log2 q + 1 - e - 1) = 2 ^ Z.log2 q * 2 ^ (- e)).
    { rewrite <- Z.pow_add_r by lia. f_equal; lia. }
    assert (E2 : 2 ^ (Z.log2 q + 1 - e) = 2 ^ Z.succ (Z.log2 q) * 2 ^ (- e)).
    { rewrite <- Z.pow_add_r by lia. f_equal; lia. }
    rewrite E1, E2. nia. }
  unfold binary_round, normal_form. fold r. rewrite HdM.
  replace (fexp prec emax (Z.log2 q + 1 - e + e)) with (Z.log2 q - 52)
    by (unfold fexp, SpecFloat.emin, prec, emax; lia).
  unfold shl_align.
  destruct (Z.log2 q - 52 - e) as [|k|k] eqn:Hdiff.
  - rewrite (binary_round_aux_exact M r e 0); try lia.
    + f_equal. lia.
    + rewrite Hr, HM. replace (- e) with (52 - Z.log2 q) by lia. lia.
  - rewrite (binary_round_aux_exact M r e (Zpos k)); try lia.
    + f_equal. lia.
    + rewrite Hr, HM. replace (- e) with ((52 - Z.log2 q) + Zpos k) by lia.
      rewrite Z.pow_add_r by lia. lia.
  - assert (Hmz : Pos.iter xO M k = r).
    { apply Pos2Z.inj. rewrite iter_xO, Hr, HM.
      replace (52 - Z.log2 q) with ((- e) + Zpos k) by lia.
      rewrite Z.pow_add_r by lia. lia. }
    rewrite Hmz.
    rewrite (binary_round_aux_exact r r (Z.log2 q - 52) 0); try lia.
    f_equal. lia.
Qed.

Lemma of_Z_normal_form q : 0 < q < 2 ^ 53 → of_Z q = normal_form q.
Proof.
  intros Hq. unfold of_Z, binary_normalize.
  destruct q as [|p|p]; try lia.
  apply binary_round_integer; [lia| |assumption]. simpl. lia.
Qed.

Lemma shl_align_value m e ez :
  ez <= e → Zpos (fst (shl_align m e ez)) = Zpos m * 2 ^ (e - ez).
Proof.
  intros Hle. unfold shl_align.
  destruct (ez - e) as [|k|k] eqn:Hd; simpl fst; try lia.
  - replace (e - ez) with 0 by lia. simpl. lia.
  - rewrite iter_xO. f_equal. f_equal. lia.
Qed.

(** Adding two non-negative integers whose sum is below 2^53 is exact. *)
Lemma add_of_Z a b :
  0 <= a → 0 <= b → a + b < 2 ^ 53 → add (of_Z a) (of_Z b) = of_Z (a + b).
Proof.
  intros Ha Hb Hab.
  destruct (Z.eq_dec a 0) as [->|Ha0].
  { rewrite Z.add_0_l. destruct (Z.eq_dec b 0) as [->|Hb0]; [reflexivity|].
    rewrite !(of_Z_normal_form b) by lia. reflexivity. }
  destruct (Z.eq_dec b 0) as [->|Hb0].
  { rewrite Z.add_0_r. rewrite !(of_Z_normal_form a) by lia. reflexivity. }
  rewrite (of_Z_normal_form a), (of_Z_normal_form b), (of_Z_normal_form (a + b)) by lia.
  destruct (normal_form_mantissa a ltac:(lia)) as (Hla & Hra & _).
  destruct (normal_form_mantissa b ltac:(lia)) as (Hlb & Hrb & _).
  unfold normal_form at 1 2. unfold add, SFadd.
  set (ra := Z.to_pos (a * 2 ^ (52 - Z.log2 a))) in *.
  set (rb := Z.to_pos (b * 2 ^ (52 - Z.log2 b))) in *.
  set (ez := Z.min (Z.log2 a - 52) (Z.log2 b - 52)).
  simpl cond_Zopp.
  assert (Hsum : Zpos (fst (shl_align ra (Z.log2 a - 52) ez))
                 + Zpos (fst (shl_align rb (Z.log2 b - 52) ez))
                 = (a + b) * 2 ^ (- ez)).
  { rewrite !shl_align_value by (unfold ez; lia). rewrite Hra, Hrb.
    rewrite <- !Z.mul_assoc, <- !Z.pow_add_r by (unfold ez; lia).
    replace (52 - Z.log2 a + (Z.log2 a - 52 - ez)) with (- ez) by lia.
    replace (52 - Z.log2 b + (Z.log2 b - 52 - ez)) with (- ez) by lia.
    lia. }
  unfold binary_normalize.
  destruct (Zpos (fst (shl_align ra (Z.log2 a - 52) ez))
            + Zpos (fst (shl_align rb (Z.log2 b - 52) ez))) as [|M|M] eqn:HM;
    try lia.
  apply binary_round_integer; [unfold ez; lia| |lia].
  rewrite <- Hsum. reflexivity.
Qed.

End IntegerSums.

(** ** Counting in binary64 is counting in the natural numbers

    What the embedding of [contactCount] relies on: below 2^53, adding 1,
    testing for zero and comparing give on Numbers what they give on natural
    numbers. *)

Section BinaryCounts.
Import Num NumFacts.

Lemma count_add (n : nat) :
  Z.of_nat n + 1 < 2 ^ 53 → add (of_nat n) (of_Z 1) = of_nat (S n).
Proof.
  intros Hn. unfold of_nat. rewrite add_of_Z by lia. f_equal. lia.
Qed.

Lemma count_truthy (n : nat) :
  Z.of_nat n < 2 ^ 53 → truthy (of_nat n) = negb (Nat.eqb n 0).
Proof.
  intros Hn. unfold of_nat. destruct n as [|n]; [reflexivity|].
  rewrite of_Z_normal_form by lia. reflexivity.
Qed.

Lemma normal_form_ltb a b :
  0 < a < 2 ^ 53 → 0 < b < 2 ^ 53 →
  ltb (normal_form a) (normal_form b) = (a <? b).
Proof.
  intros Ha Hb.
  destruct (normal_form_mantissa a Ha) as (Hla & Hra & _).
  destruct (normal_form_mantissa b Hb) as (Hlb & Hrb & _).
  pose proof (Z.log2_spec a ltac:(lia)) as [Halo Hahi].
  pose proof (Z.log2_spec b ltac:(lia)) as [Hblo Hbhi].
  assert (Hpa : 0 < 2 ^ (52 - Z.log2 a)) by (apply Z.pow_pos_nonneg; lia).
  apply eq_true_iff_eq. rewrite ltb_lt_pos by reflexivity.
  unfold normal_form, lt_pos. rewrite Z.ltb_lt.
  set (ra := Z.to_pos (a * 2 ^ (52 - Z.log2 a))) in *.
  set (rb := Z.to_pos (b * 2 ^ (52 - Z.log2 b))) in *.
  assert (Hpos : (ra < rb)%positive ↔ Zpos ra < Zpos rb) by lia.
  rewrite Hpos, Hra, Hrb.
  split.
  - intros [Hlt|[Heq Hr]].
    + assert (2 ^ Z.succ (Z.log2 a) <= 2 ^ Z.log2 b) by (apply Z.pow_le_mono_r; lia).
      lia.
    + assert (Hl : Z.log2 a = Z.log2 b) by lia. rewrite Hl in *. nia.
  - intros Hab.
    pose proof (Z.log2_le_mono a b ltac:(lia)) as Hmono.
    destruct (Z.eq_dec (Z.log2 a) (Z.log2 b)) as [Hl|Hl].
    + right. split; [lia|]. rewrite Hl in *. nia.
    + left. lia.
Qed.

Lemma count_ltb (a b : nat) :
  Z.of_nat a < 2 ^ 53 → Z.of_nat b < 2 ^ 53 →
  ltb (of_nat a) (of_nat b) = Nat.ltb a b.
Proof.
  intros Ha Hb. unfold of_nat.
  destruct a as [|a]; destruct b as [|b]; try reflexivity.
  - rewrite (of_Z_normal_form (Z.of_nat (S b))) by lia. reflexivity.
  - rewrite (of_Z_normal_form (Z.of_nat (S a))) by lia. reflexivity.
  - rewrite !of_Z_normal_form by lia. rewrite normal_form_ltb by lia.
    apply eq_true_iff_eq. rewrite Z.ltb_lt, Nat.ltb_lt. lia.
Qed.

End BinaryCounts.

(** ** The embedding agrees with its pure reading *)

Section Bridge.

Lemma valid_object txn : valid txn = true → ∃ props, txn = VObject props.
Proof.
  destruct txn; try discriminate. eauto.
Qed.

Lemma Get_object props p : Get (VObject props) p = Normal (field (VObject props) p).
Proof. reflexivity. Qed.

Lemma Get_valid txn p : valid txn = true → Get txn p = Normal (field txn p).
Proof. intros [props ->]%valid_object. reflexivity. Qed.

(** The callback of the filter never throws and computes [valid]. *)
Lemma isValidTxn_valid txn : isValidTxn txn = Normal (valid txn).
Proof.
  destruct txn as [| |b|x|s|elems|props]; try reflexivity.
  - destruct b; reflexivity.
  - unfold isValidTxn. destruct (ToBoolean (VNumber x)); reflexivity.
  - unfold isValidTxn. destruct (ToBoolean (VString s)); reflexivity.
  - unfold isValidTxn, valid, is_credit, is_debit, amount, type_is, andM, orM.
    rewrite !Get_object.
    set (t := field (VObject props) "type").
    set (a := field (VObject props) "amount").
    simpl.
    destruct (is_string t "credit"), (is_string t "debit"), (is_number a);
      reflexivity.
Qed.

Lemma filterM_Normal {A : Type} (f : A → completion bool) (g : A → bool) l :
  (∀ x, In x l → f x = Normal (g x)) →
  filterM f l = Normal (List.filter g l).
Proof.
  induction l as [|x l IH]; intros Hf; simpl; [reflexivity|].
  rewrite Hf by (left; reflexivity). simpl.
  rewrite IH by (intros; apply Hf; right; assumption). reflexivity.
Qed.

Lemma reduceM_Normal {A B : Type} (f : B → A → completion B) (g : B → A → B) l :
  (∀ acc x, In x l → f acc x = Normal (g acc x)) →
  ∀ acc, reduceM f l acc = Normal (fold_left g l acc).
Proof.
  induction l as [|x l IH]; intros Hf acc; simpl; [reflexivity|].
  rewrite Hf by (left; reflexivity). simpl.
  apply IH. intros; apply Hf; right; assumption.
Qed.

Lemma everyM_Normal {A : Type} (f : A → completion bool) (g : A → bool) l :
  (∀ x, In x l → f x = Normal (g x)) →
  everyM f l = Normal (forallb g l).
Proof.
  induction l as [|x l IH]; intros Hf; simpl; [reflexivity|].
  rewrite Hf by (left; reflexivity). simpl.
  destruct (g x); simpl; [|reflexivity].
  apply IH. intros; apply Hf; right; assumption.
Qed.

Lemma someM_Normal {A : Type} (f : A → completion bool) (g : A → bool) l :
  (∀ x, In x l → f x = Normal (g x)) →
  someM f l = Normal (existsb g l).
Proof.
  induction l as [|x l IH]; intros Hf; simpl; [reflexivity|].
  rewrite Hf by (left; reflexivity). simpl.
  destruct (g x); simpl; [reflexivity|].
  apply IH. intros; apply Hf; right; assumption.
Qed.

Lemma valid_records_length txns : (length (valid_records txns) <= length txns)%nat.
Proof.
  unfold valid_records. induction txns as [|txn txns IH]; simpl; [lia|].
  destruct (valid txn); simpl; lia.
Qed.

Lemma valid_records_valid txns txn : In txn (valid_records txns) → valid txn = true.
Proof. unfold valid_records. rewrite filter_In. tauto. Qed.

Lemma fold_left_amounts (l : list value) acc :
  fold_left (fun sum txn => Num.add sum (amount txn)) l acc
  = fold_left Num.add (amounts l) acc.
Proof.
  revert acc. induction l as [|x l IH]; intros acc; simpl; [reflexivity|]. apply IH.
Qed.

Lemma reduceM_addAmount l :
  (∀ txn, In txn l → valid txn = true) →
  reduceM addAmount l Num.zero = Normal (sum (amounts l)).
Proof.
  intros Hl. unfold sum. rewrite <- fold_left_amounts.
  apply reduceM_Normal. intros acc x Hx.
  unfold addAmount. rewrite (Get_valid x) by auto. reflexivity.
Qed.

Lemma reduceM_higher first rest :
  (∀ txn, In txn (first :: rest) → valid txn = true) →
  reduceM higher rest first = Normal (highest first rest).
Proof.
  unfold highest, first_max. revert first.
  induction rest as [|x rest IH]; intros first Hl; simpl; [reflexivity|].
  unfold higher at 1.
  rewrite (Get_valid x), (Get_valid first) by (apply Hl; simpl; auto).
  simpl. apply IH. intros txn [<-|Hin].
  - destruct (Num.ltb _ _); apply Hl; simpl; auto.
  - apply Hl; simpl; auto.
Qed.

(** Filing the records under their keys throws exactly when a key does
    not convert. *)
Lemma reduceM_addCategory l :
  (∀ txn, In txn l → valid txn = true) →
  ∀ acc,
    reduceM addCategory l acc
    = let* ks := mapM category_key l in
      Normal (accumulate (zip ks (amounts l)) acc).
Proof.
  induction l as [|x l IH]; intros Hl acc; simpl; [reflexivity|].
  unfold addCategory at 1.
  rewrite !(Get_valid x) by (apply Hl; simpl; auto). simpl.
  unfold category_key at 1.
  destruct (ToPropertyKey (field x "category")) as [k|e]; simpl; [|reflexivity].
  rewrite IH by (intros; apply Hl; simpl; auto).
  destruct (mapM category_key l) as [ks|e]; reflexivity.
Qed.

Lemma reduceM_countContact l :
  (∀ txn, In txn l → valid txn = true) →
  ∀ acc,
    reduceM countContact l acc
    = let* ks := mapM contact_key l in
      Normal (accumulate (zip ks (map (fun _ => one) l)) acc).
Proof.
  induction l as [|x l IH]; intros Hl acc; simpl; [reflexivity|].
  unfold countContact at 1.
  rewrite !(Get_valid x) by (apply Hl; simpl; auto). simpl.
  unfold contact_key at 1.
  destruct (ToPropertyKey (field x "to")) as [k|e]; simpl; [|reflexivity].
  rewrite IH by (intros; apply Hl; simpl; auto).
  destruct (mapM contact_key l) as [ks|e]; reflexivity.
Qed.

Lemma reduceM_pickContact counts l :
  (∀ txn, In txn l → valid txn = true) →
  ∀ st,
    reduceM (pickContact counts) l st
    = let* ks := mapM contact_key l in
      Normal (pick counts (zip ks (labels l)) st).
Proof.
  induction l as [|x l IH]; intros Hl st; simpl; [reflexivity|].
  unfold pickContact at 1.
  rewrite !(Get_valid x) by (apply Hl; simpl; auto). simpl.
  unfold contact_key at 1.
  destruct (ToPropertyKey (field x "to")) as [k|e]; simpl; [|reflexivity].
  destruct (slot_gt (dict_get counts k) st.1) eqn:Egt; simpl;
    rewrite IH by (intros; apply Hl; simpl; auto);
    (destruct (mapM contact_key l) as [ks|e]; simpl; [|reflexivity]);
    unfold pick; simpl; rewrite Egt; reflexivity.
Qed.

Lemma filter_valid_subset (P : value → bool) l :
  (∀ txn, In txn l → valid txn = true) →
  ∀ txn, In txn (List.filter P l) → valid txn = true.
Proof. intros Hl txn [Hin _]%filter_In. auto. Qed.

(** The analyzer on an array: null when no record is valid, and otherwise
    the summary of the valid records, unless a label of a valid record
    does not convert to a property key. *)
Lemma analyze_array txns :
  analyzeUPITransactions (VArray txns)
  = match valid_records txns with
    | [] => Normal None
    | first :: rest =>
        let* cks := mapM category_key (first :: rest) in
        let* tks := mapM contact_key (first :: rest) in
        Normal (Some (summarize first rest cks tks))
    end.
Proof.
  unfold analyzeUPITransactions.
  destruct txns as [|t0 txns0]; [reflexivity|].
  set (txns := t0 :: txns0). simpl Nat.eqb. cbv iota.
  rewrite (filterM_Normal _ valid) by (intros; apply isValidTxn_valid).
  fold (valid_records txns).
  pose proof (valid_records_valid txns) as Hv.
  destruct (valid_records txns) as [|first rest]; [reflexivity|].
  unfold bind at 1. cbv beta iota.
  set (vs := first :: rest) in *.
  rewrite (filterM_Normal _ is_credit)
    by (intros x Hx; unfold type_is; rewrite (Get_valid x) by auto; reflexivity).
  unfold bind at 1.
  rewrite reduceM_addAmount by (apply filter_valid_subset; assumption).
  unfold bind at 1.
  rewrite (filterM_Normal _ is_debit)
    by (intros x Hx; unfold type_is; rewrite (Get_valid x) by auto; reflexivity).
  unfold bind at 1.
  rewrite reduceM_addAmount by (apply filter_valid_subset; assumption).
  unfold bind at 1.
  rewrite reduceM_addAmount by assumption.
  unfold bind at 1.
  rewrite reduceM_higher by assumption.
  unfold bind at 1.
  rewrite reduceM_addCategory by assumption.
  destruct (mapM category_key vs) as [cks|e]; [|reflexivity].
  unfold bind at 1. unfold bind at 1.
  rewrite (Get_valid first) by (apply Hv; left; reflexivity).
  unfold bind at 1.
  rewrite reduceM_countContact by assumption.
  destruct (mapM contact_key vs) as [tks|e] eqn:Etks; [|reflexivity].
  unfold bind at 1. unfold bind at 1.
  rewrite reduceM_pickContact by assumption.
  rewrite Etks. unfold bind at 1.
  rewrite (everyM_Normal _ (fun txn => Num.ltb hundred (amount txn)))
    by (intros x Hx; rewrite (Get_valid x) by auto; reflexivity).
  unfold bind at 1.
  rewrite (someM_Normal _ (fun txn => Num.leb five_thousand (amount txn)))
    by (intros x Hx; rewrite (Get_valid x) by auto; reflexivity).
  reflexivity.
Qed.

End Bridge.

(** ** The embedding on known values *)

(** The analysis of the documented example is the documented summary. *)
Lemma documented_example :
  analyzeUPITransactions (VArray Sample.documented)
  = Normal (Some Sample.documented_summary)
  ∧ map Num.to_string
      [ totalCredit Sample.documented_summary;
        totalDebit Sample.documented_summary;
        netBalance Sample.documented_summary;
        avgTransaction Sample.documented_summary ]
    = ["5000"; "300"; "4700"; "1767"]
  ∧ transactionCount Sample.documented_summary = 3%nat
  ∧ highestTransaction Sample.documented_summary = Sample.T1
  ∧ categoryBreakdown Sample.documented_summary
    = <["income" := CNum (Num.of_Z 5000)]> (<["food" := CNum (Num.of_Z 300)]> ∅)
  ∧ frequentContact Sample.documented_summary = VString "Swiggy"
  ∧ allAbove100 Sample.documented_summary = false
  ∧ hasLargeTransaction Sample.documented_summary = true.
Proof. repeat split; vm_compute; reflexivity. Qed.

(** An empty array, a non-array and an array without a valid record give
    null. *)
Lemma null_examples :
  analyzeUPITransactions (VArray []) = Normal None
  ∧ analyzeUPITransactions (VString "not an array") = Normal None
  ∧ analyzeUPITransactions VUndefined = Normal None
  ∧ analyzeUPITransactions
      (VArray [Sample.record "T1" "credit" (Num.of_Z (-5)) "A" "x" "2025-01-01"])
    = Normal None
  ∧ analyzeUPITransactions
      (VArray [VObject [("type", VString "credit"); ("amount", VString "500")]])
    = Normal None.
Proof. repeat split; vm_compute; reflexivity. Qed.

(** Number::toString and [Math.round] on familiar values. *)
Lemma to_string_examples :
  map Num.to_string
    [ Num.of_Z 1; Num.of_Z 500; Num.dec 1 10; Num.add (Num.dec 1 10) (Num.dec 2 10);
      Num.dec 43 10; Num.of_Z (10 ^ 21); Num.dec 15 100000000; Num.of_Z (-42);
      Num.infinity; Num.nan ]
  = [ "1"; "500"; "0.1"; "0.30000000000000004"; "4.3"; "1e+21"; "1.5e-7"; "-42";
      "Infinity"; "NaN" ].
Proof. vm_compute. reflexivity. Qed.

Lemma round_examples :
  map (fun x => Num.to_string (Num.round x))
    [ Num.dec 5 2; Num.dec 3 2; Num.dec 1 2; Num.dec 49 100; Num.dec (-5) 2;
      Num.dec 5300 3; Num.of_Z 7 ]
  = [ "3"; "2"; "1"; "0"; "-2"; "1767"; "7" ].
Proof. vm_compute. reflexivity. Qed.

(** The amounts of the sample inputs are binary64 values. *)
Lemma sample_amounts_are_binary64 :
  forallb (valid_binary Num.prec Num.emax)
    [ Num.of_Z 5000; Num.of_Z 200; Num.of_Z 100; Num.of_Z 500; Num.of_Z 300;
      Num.of_Z 250; Num.of_Z (-5); Num.of_Z 40; Num.dec 1 10; Num.dec 2 10;
      Num.dec 43 10; Num.dec 45 10 ]
  = true.
Proof. vm_compute. reflexivity. Qed.

(** ** The scans for the greatest and the least element *)

Section Extremes.
Import NumFacts.
Context {A : Type} (f : A → number).

Lemma first_max_scan rest :
  ∀ pre m i,
    pre !! i = Some m →
    (∀ x, In x pre → Num.leb (f x) (f m) = true) →
    (∀ j x, (j < i)%nat → pre !! j = Some x → Num.ltb (f x) (f m) = true) →
    (∀ x, In x (pre ++ rest) → Num.positive_number (f x)) →
    ∃ i',
      (pre ++ rest) !! i' = Some (first_max f m rest)
      ∧ (∀ x, In x (pre ++ rest) → Num.leb (f x) (f (first_max f m rest)) = true)
      ∧ (∀ j x, (j < i')%nat → (pre ++ rest) !! j = Some x →
                Num.ltb (f x) (f (first_max f m rest)) = true).
Proof.
  induction rest as [|x rest IH]; intros pre m i Hi Hle Hlt Hpos.
  - exists i. rewrite app_nil_r. auto.
  - assert (Hm : Num.positive_number (f m)).
    { apply Hpos, in_or_app. left. apply list_elem_of_In.
      eapply list_elem_of_lookup_2, Hi. }
    assert (Hx : Num.positive_number (f x)).
    { apply Hpos, in_or_app. right. left. reflexivity. }
    assert (Hpre : ∀ y, In y pre → Num.positive_number (f y)).
    { intros y Hy. apply Hpos, in_or_app. left. exact Hy. }
    change (first_max f m (x :: rest))
      with (first_max f (if Num.ltb (f m) (f x) then x else m) rest).
    replace (pre ++ x :: rest) with ((pre ++ [x]) ++ rest) in *
      by (rewrite <- app_assoc; reflexivity).
    destruct (Num.ltb (f m) (f x)) eqn:Hcmp.
    + apply (IH (pre ++ [x]) x (length pre)); auto.
      * rewrite lookup_app_r by lia. rewrite Nat.sub_diag. reflexivity.
      * intros y [Hy|[<-|[]]]%in_app_or.
        -- apply ltb_leb; auto.
           apply (leb_ltb_trans (f y) (f m) (f x)); auto.
        -- apply leb_refl; auto.
      * intros j y Hj Hy. rewrite lookup_app_l in Hy by lia.
        assert (In y pre).
        { apply list_elem_of_In. eapply list_elem_of_lookup_2, Hy. }
        apply (leb_ltb_trans (f y) (f m) (f x)); auto.
    + apply (IH (pre ++ [x]) m i); auto.
      * rewrite lookup_app_l; [exact Hi|]. eapply lookup_lt_Some, Hi.
      * intros y [Hy|[<-|[]]]%in_app_or; auto.
        apply not_ltb_leb; auto.
      * intros j y Hj Hy. apply (Hlt j); auto.
        rewrite lookup_app_l in Hy; [exact Hy|].
        apply lookup_lt_Some in Hi. lia.
Qed.

(** [first_max] returns an element that is at least every element and
    strictly above every element before it. *)
Lemma first_max_spec first rest :
  (∀ x, In x (first :: rest) → Num.positive_number (f x)) →
  ∃ i,
    (first :: rest) !! i = Some (first_max f first rest)
    ∧ (∀ x, In x (first :: rest) → Num.leb (f x) (f (first_max f first rest)) = true)
    ∧ (∀ j x, (j < i)%nat → (first :: rest) !! j = Some x →
              Num.ltb (f x) (f (first_max f first rest)) = true).
Proof.
  intros Hpos.
  apply (first_max_scan rest [first] first 0%nat); auto.
  - intros x [<-|[]]. apply leb_refl, Hpos. left; reflexivity.
  - intros j x Hj. lia.
Qed.

Lemma first_min_scan rest :
  ∀ pre m,
    In m pre →
    (∀ x, In x pre → Num.leb (f m) (f x) = true) →
    (∀ x, In x (pre ++ rest) → Num.positive_number (f x)) →
    In (first_min f m rest) (pre ++ rest)
    ∧ (∀ x, In x (pre ++ rest) → Num.leb (f (first_min f m rest)) (f x) = true).
Proof.
  induction rest as [|x rest IH]; intros pre m Hin Hle Hpos.
  - rewrite app_nil_r. auto.
  - assert (Hm : Num.positive_number (f m)).
    { apply Hpos, in_or_app. left. exact Hin. }
    assert (Hx : Num.positive_number (f x)).
    { apply Hpos, in_or_app. right. left. reflexivity. }
    assert (Hpre : ∀ y, In y pre → Num.positive_number (f y)).
    { intros y Hy. apply Hpos, in_or_app. left. exact Hy. }
    change (first_min f m (x :: rest))
      with (first_min f (if Num.ltb (f x) (f m) then x else m) rest).
    replace (pre ++ x :: rest) with ((pre ++ [x]) ++ rest) in *
      by (rewrite <- app_assoc; reflexivity).
    destruct (Num.ltb (f x) (f m)) eqn:Hcmp.
    + apply (IH (pre ++ [x]) x); auto.
      * apply in_or_app. right. left. reflexivity.
      * intros y [Hy|[<-|[]]]%in_app_or.
        -- apply ltb_leb; auto.
           apply (ltb_leb_trans (f x) (f m) (f y)); auto.
        -- apply leb_refl; auto.
    + apply (IH (pre ++ [x]) m); auto.
      * apply in_or_app. left. exact Hin.
      * intros y [Hy|[<-|[]]]%in_app_or; auto.
        apply not_ltb_leb; auto.
Qed.

(** [first_min] returns an element that is at most every element. *)
Lemma first_min_spec first rest :
  (∀ x, In x (first :: rest) → Num.positive_number (f x)) →
  In (first_min f first rest) (first :: rest)
  ∧ (∀ x, In x (first :: rest) → Num.leb (f (first_min f first rest)) (f x) = true).
Proof.
  intros Hpos.
  apply (first_min_scan rest [first] first); auto.
  - left; reflexivity.
  - intros x [<-|[]]. apply leb_refl, Hpos. left; reflexivity.
Qed.

End Extremes.

(** ** Dictionaries after filing *)

Section Dictionaries.
Lemma proto_not_own k : Object_prototype k = None → k ≠ "__proto__".
Proof. intros Hk ->. discriminate. Qed.

Lemma dict_get_own (acc : gmap string cell) k :
  Object_prototype k = None → dict_get acc k = slot_of (acc !! k).
Proof.
  intros Hk. unfold dict_get. rewrite Hk. destruct (acc !! k); reflexivity.
Qed.

Lemma dict_set_lookup_eq (acc : gmap string cell) k c :
  k ≠ "__proto__" → dict_set acc k c !! k = Some c.
Proof.
  intros Hk. unfold dict_set. rewrite bool_decide_eq_false_2 by assumption.
  apply lookup_insert_eq.
Qed.

Lemma dict_set_lookup_ne (acc : gmap string cell) k k' c :
  k' ≠ k → dict_set acc k' c !! k = acc !! k.
Proof.
  intros Hk. unfold dict_set. destruct (bool_decide (k' = "__proto__")); [reflexivity|].
  apply lookup_insert_ne. assumption.
Qed.

(** Filing touches only the keys of the entries. *)
Lemma accumulate_lookup_ne (entries : list (string * number)) k :
  ∀ acc, (∀ e, In e entries → fst e ≠ k) →
         accumulate entries acc !! k = acc !! k.
Proof.
  induction entries as [|[k' n] entries IH]; intros acc Hne; [reflexivity|].
  unfold accumulate in *. simpl.
  rewrite IH by (intros; apply Hne; right; assumption).
  apply dict_set_lookup_ne. apply (Hne (k', n)). left; reflexivity.
Qed.

(** Under a key that [Object.prototype] does not define, the cell is the
    result of filing the numbers of that key, in order. *)
Lemma accumulate_lookup_own (entries : list (string * number)) k :
  Object_prototype k = None →
  ∀ acc,
    accumulate entries acc !! k
    = fold_left (fun c n => Some (or_zero_plus (slot_of c) n))
        (filed_under k entries) (acc !! k).
Proof.
  intros Hk.
  induction entries as [|[k' n] entries IH]; intros acc; [reflexivity|].
  unfold accumulate, filed_under in *. simpl.
  rewrite IH. destruct (bool_decide (k' = k)) eqn:Ek.
  - apply bool_decide_eq_true_1 in Ek. subst k'. simpl.
    rewrite dict_set_lookup_eq by (apply proto_not_own; assumption).
    rewrite dict_get_own by assumption. reflexivity.
  - apply bool_decide_eq_false_1 in Ek.
    rewrite dict_set_lookup_ne by assumption. reflexivity.
Qed.

(** Every own property of the result is the key of an entry. *)
Lemma accumulate_lookup_Some (entries : list (string * number)) k :
  is_Some (accumulate entries ∅ !! k) → In k (map fst entries).
Proof.
  intros Hs.
  destruct (in_dec string_dec k (map fst entries)) as [Hin|Hnin]; [assumption|].
  rewrite accumulate_lookup_ne in Hs.
  - rewrite lookup_empty in Hs. destruct Hs; discriminate.
  - intros e He <-. apply Hnin. apply in_map. assumption.
Qed.

End Dictionaries.

Section Counts.
Import NumFacts.

Lemma filed_under_ones {B : Type} (ks : list string) k :
  ∀ l : list B, length ks = length l →
    filed_under k (zip ks (map (fun _ => one) l)) = repeat one (occurrences k ks).
Proof.
  unfold filed_under, occurrences.
  induction ks as [|k' ks IH]; intros [|x l] Hlen; try discriminate; [reflexivity|].
  simpl. injection Hlen as Hlen.
  destruct (bool_decide (k' = k)); simpl; rewrite IH by assumption; reflexivity.
Qed.

(** [(count || 0) + 1] is the next count. *)
Lemma count_step c :
  Z.of_nat c + 1 < 2 ^ 53 →
  or_zero_plus (SOwn (CNum (Num.of_nat c))) one = CNum (Num.of_nat (S c)).
Proof.
  intros Hc. unfold or_zero_plus. rewrite count_truthy by lia.
  destruct c as [|c]; [reflexivity|].
  simpl negb. cbv iota. unfold one. rewrite count_add by assumption. reflexivity.
Qed.

Lemma count_cells n :
  ∀ c0, Z.of_nat (c0 + n) < 2 ^ 53 →
        fold_left (fun c x => Some (or_zero_plus (slot_of c) x)) (repeat one n)
          (Some (CNum (Num.of_nat c0)))
        = Some (CNum (Num.of_nat (c0 + n))).
Proof.
  induction n as [|n IH]; intros c0 Hlt.
  - rewrite Nat.add_0_r. reflexivity.
  - cbn [repeat fold_left slot_of]. rewrite count_step by lia.
    rewrite IH by lia. do 3 f_equal. lia.
Qed.

Lemma occurrences_le k ks : (occurrences k ks <= length ks)%nat.
Proof.
  unfold occurrences. induction ks as [|k' ks IH]; simpl; [lia|].
  destruct (bool_decide (k' = k)); simpl; lia.
Qed.

Lemma occurrences_pos k ks : In k ks → (0 < occurrences k ks)%nat.
Proof.
  unfold occurrences. induction ks as [|k' ks IH]; intros Hin; [destruct Hin|].
  simpl. destruct (bool_decide (k' = k)) eqn:Ek; simpl; [lia|].
  apply bool_decide_eq_false_1 in Ek. destruct Hin as [->|Hin]; [congruence|auto].
Qed.

(** After counting, a key that [Object.prototype] does not define holds
    its number of occurrences. *)
Lemma count_lookup {B : Type} (ks : list string) (l : list B) k :
  Object_prototype k = None →
  length ks = length l →
  Z.of_nat (length ks) < 2 ^ 53 →
  accumulate (zip ks (map (fun _ => one) l)) ∅ !! k
  = match occurrences k ks with
    | O => None
    | S n => Some (CNum (Num.of_nat (S n)))
    end.
Proof.
  intros Hk Hlen Hlt. rewrite accumulate_lookup_own by assumption.
  rewrite filed_under_ones by assumption. rewrite lookup_empty.
  pose proof (occurrences_le k ks) as Hle.
  destruct (occurrences k ks) as [|n]; [reflexivity|].
  cbn [repeat fold_left slot_of or_zero_plus].
  change (Num.add Num.zero one) with (Num.of_nat 1).
  rewrite count_cells by lia. reflexivity.
Qed.

Lemma count_slot {B : Type} (ks : list string) (l : list B) k :
  Object_prototype k = None →
  length ks = length l →
  Z.of_nat (length ks) < 2 ^ 53 →
  In k ks →
  dict_get (accumulate (zip ks (map (fun _ => one) l)) ∅) k
  = SOwn (CNum (Num.of_nat (occurrences k ks))).
Proof.
  intros Hk Hlen Hlt Hin. rewrite dict_get_own by assumption.
  rewrite (count_lookup ks l k) by assumption.
  pose proof (occurrences_pos k ks Hin).
  destruct (occurrences k ks); [lia|reflexivity].
Qed.

(** *** The scan for the most frequent contact *)

(** When every entry's slot holds a count, the scan either keeps its
    state, no entry having a greater count, or ends on the first entry whose
    count is greatest. *)
Lemma pick_scan counts (count : string → nat) (entries : list (string * value)) :
  (∀ e, In e entries →
        dict_get counts (fst e) = SOwn (CNum (Num.of_nat (count (fst e))))
        ∧ Z.of_nat (count (fst e)) < 2 ^ 53) →
  ∀ m label,
    Z.of_nat m < 2 ^ 53 →
    (pick counts entries (Num.of_nat m, label) = (Num.of_nat m, label)
     ∧ ∀ e, In e entries → (count (fst e) <= m)%nat)
    ∨ (∃ i e,
         entries !! i = Some e
         ∧ pick counts entries (Num.of_nat m, label) = (Num.of_nat (count (fst e)), snd e)
         ∧ (m < count (fst e))%nat
         ∧ (∀ j e', (j < i)%nat → entries !! j = Some e' →
                    (count (fst e') < count (fst e))%nat)
         ∧ (∀ e', In e' entries → (count (fst e') <= count (fst e))%nat)).
Proof.
  induction entries as [|[k l] entries IH]; intros Hslot m label Hm.
  - left. split; [reflexivity|]. intros e [].
  - destruct (Hslot (k, l)) as [Hk Hck]; [left; reflexivity|]. simpl in Hk, Hck.
    assert (Hrest : ∀ e, In e entries →
              dict_get counts (fst e) = SOwn (CNum (Num.of_nat (count (fst e))))
              ∧ Z.of_nat (count (fst e)) < 2 ^ 53)
      by (intros; apply Hslot; right; assumption).
    unfold pick in *. cbn [fold_left fst snd]. rewrite Hk.
    cbn [slot_gt slot_count]. rewrite count_ltb by assumption.
    destruct (Nat.ltb m (count k)) eqn:Hlt.
    + apply Nat.ltb_lt in Hlt. right.
      destruct (IH Hrest (count k) l Hck)
        as [[Heq Hall]|(i & e & Hi & Hp & Hgt & Hbefore & Hall)].
      * exists 0%nat, (k, l). simpl. repeat split; auto.
        -- intros j e' Hj. lia.
        -- intros e' [<-|He']; simpl; auto.
      * exists (S i), e. simpl. repeat split; auto.
        -- lia.
        -- intros [|j] e' Hj He'; simpl in *.
           ++ injection He' as <-. simpl. lia.
           ++ apply (Hbefore j); [lia|assumption].
        -- intros e' [<-|He']; simpl; auto. lia.
    + apply Nat.ltb_ge in Hlt.
      destruct (IH Hrest m label Hm)
        as [[Heq Hall]|(i & e & Hi & Hp & Hgt & Hbefore & Hall)].
      * left. split; [assumption|].
        intros e' [<-|He']; simpl; auto.
      * right. exists (S i), e. simpl. repeat split; auto.
        -- intros [|j] e' Hj He'; simpl in *.
           ++ injection He' as <-. simpl. lia.
           ++ apply (Hbefore j); [lia|assumption].
        -- intros e' [<-|He']; simpl; auto. lia.
Qed.

End Counts.

Section Sums.
Import NumFacts.

Lemma amount_cells (l : list number) c0 :
  Num.nonneg c0 → Forall Num.nonneg l →
  fold_left (fun c n => Some (or_zero_plus (slot_of c) n)) l (Some (CNum c0))
  = Some (CNum (fold_left Num.add l c0)).
Proof.
  revert c0. induction l as [|x l IH]; intros c0 Hc Hl; [reflexivity|].
  inversion Hl; subst.
  cbn [fold_left slot_of or_zero_plus].
  rewrite add_or_zero by assumption.
  apply IH; [apply add_nonneg|]; assumption.
Qed.

Lemma filed_under_In {N : Type} k (entries : list (string * N)) :
  In k (map fst entries) → filed_under k entries ≠ [].
Proof.
  unfold filed_under.
  induction entries as [|[k' n] entries IH]; intros Hin; [destruct Hin|].
  simpl. destruct (bool_decide (k' = k)) eqn:Ek; [discriminate|].
  apply bool_decide_eq_false_1 in Ek.
  destruct Hin as [Heq|Hin]; [simpl in Heq; congruence|auto].
Qed.

Lemma filed_under_Forall {N : Type} (P : N → Prop) k (entries : list (string * N)) :
  Forall P (map snd entries) → Forall P (filed_under k entries).
Proof.
  unfold filed_under.
  induction entries as [|[k' n] entries IH]; intros Hall; [constructor|].
  inversion Hall; subst. simpl.
  destruct (bool_decide (k' = k)); simpl; auto.
Qed.

(** After filing non-negative amounts, a key that [Object.prototype] does
    not define holds the sum of its amounts. *)
Lemma category_lookup (entries : list (string * number)) k :
  Object_prototype k = None →
  Forall Num.nonneg (map snd entries) →
  In k (map fst entries) →
  accumulate entries ∅ !! k = Some (CNum (sum (filed_under k entries))).
Proof.
  intros Hk Hall Hin. rewrite accumulate_lookup_own by assumption.
  rewrite lookup_empty.
  pose proof (filed_under_In k entries Hin) as Hne.
  pose proof (filed_under_Forall Num.nonneg k entries Hall) as Hf.
  destruct (filed_under k entries) as [|a l]; [congruence|].
  inversion Hf; subst.
  cbn [fold_left slot_of or_zero_plus].
  rewrite amount_cells; auto.
  apply add_nonneg; [exact I|assumption].
Qed.

(** *** The keys partition the entries *)

Lemma filed_under_cons {N : Type} k k' (n : N) entries :
  filed_under k' ((k, n) :: entries)
  = if bool_decide (k = k') then n :: filed_under k' entries
    else filed_under k' entries.
Proof. unfold filed_under. simpl. destruct (bool_decide (k = k')); reflexivity. Qed.

Lemma filed_concat_fresh {N : Type} k (n : N) entries (K : list string) :
  ¬ In k K →
  concat (map (fun k' => filed_under k' ((k, n) :: entries)) K)
  = concat (map (fun k' => filed_under k' entries) K).
Proof.
  induction K as [|k0 K IH]; intros Hnin; [reflexivity|]. simpl.
  rewrite filed_under_cons.
  rewrite bool_decide_eq_false_2 by (intros ->; apply Hnin; left; reflexivity).
  rewrite IH by (intros Hin; apply Hnin; right; assumption). reflexivity.
Qed.

Lemma filed_concat_cons {N : Type} k (n : N) entries (K : list string) :
  NoDup K → In k K →
  Permutation (concat (map (fun k' => filed_under k' ((k, n) :: entries)) K))
              (n :: concat (map (fun k' => filed_under k' entries) K)).
Proof.
  induction K as [|k0 K IH]; intros Hnd Hin; [destruct Hin|].
  apply NoDup_cons in Hnd as [Hk0 Hnd]. simpl.
  rewrite filed_under_cons.
  destruct (bool_decide (k = k0)) eqn:Ek.
  - apply bool_decide_eq_true_1 in Ek. subst k0.
    rewrite filed_concat_fresh by (rewrite <- list_elem_of_In; assumption).
    reflexivity.
  - apply bool_decide_eq_false_1 in Ek.
    destruct Hin as [->|Hin]; [congruence|].
    rewrite IH by assumption.
    symmetry. apply Permutation_middle.
Qed.

(** Listed key by key, the filed numbers are the numbers of the entries,
    each once. *)
Lemma filed_partition {N : Type} (entries : list (string * N)) (K : list string) :
  NoDup K →
  (∀ e, In e entries → In (fst e) K) →
  Permutation (concat (map (fun k => filed_under k entries) K)) (map snd entries).
Proof.
  intros Hnd. induction entries as [|[k n] entries IH]; intros Hcover.
  - clear. induction K as [|k K IHK]; [reflexivity|]. exact IHK.
  - rewrite filed_concat_cons; auto.
    + simpl. apply perm_skip, IH. intros; apply Hcover; right; assumption.
    + apply (Hcover (k, n)). left; reflexivity.
Qed.

(** A list splits into the elements that satisfy one of two exclusive
    tests. *)
Lemma filter_split {A : Type} (P Q : A → bool) (l : list A) :
  (∀ x, In x l → P x = negb (Q x)) →
  Permutation (List.filter P l ++ List.filter Q l) l.
Proof.
  induction l as [|x l IH]; intros HPQ; [reflexivity|]. simpl.
  rewrite (HPQ x) by (left; reflexivity).
  destruct (Q x); simpl.
  - rewrite <- Permutation_middle. apply perm_skip, IH.
    intros; apply HPQ; right; assumption.
  - apply perm_skip, IH. intros; apply HPQ; right; assumption.
Qed.

End Sums.

Section Keys.
Context {A B : Type} (f : A → completion B).

Lemma mapM_length l ks : mapM f l = Normal ks → length ks = length l.
Proof.
  revert ks. induction l as [|x l IH]; intros ks Hm; simpl in Hm.
  - injection Hm as <-. reflexivity.
  - destruct (f x) as [k|e]; [|discriminate]. simpl in Hm.
    destruct (mapM f l) as [ks'|e]; [|discriminate]. simpl in Hm.
    injection Hm as <-. simpl. f_equal. apply IH. reflexivity.
Qed.

Lemma mapM_lookup l ks i x :
  mapM f l = Normal ks → l !! i = Some x →
  ∃ k, ks !! i = Some k ∧ f x = Normal k.
Proof.
  revert ks i. induction l as [|y l IH]; intros ks i Hm Hi; [discriminate|].
  simpl in Hm. destruct (f y) as [k|e] eqn:Ey; [|discriminate]. simpl in Hm.
  destruct (mapM f l) as [ks'|e]; [|discriminate]. simpl in Hm.
  injection Hm as <-. destruct i as [|i]; simpl in *.
  - injection Hi as <-. eauto.
  - eapply IH; eauto.
Qed.

Lemma mapM_In l ks k :
  mapM f l = Normal ks → In k ks → ∃ x, In x l ∧ f x = Normal k.
Proof.
  revert ks. induction l as [|y l IH]; intros ks Hm Hin; simpl in Hm.
  - injection Hm as <-. destruct Hin.
  - destruct (f y) as [k0|e] eqn:Ey; [|discriminate]. simpl in Hm.
    destruct (mapM f l) as [ks'|e]; [|discriminate]. simpl in Hm.
    injection Hm as <-. destruct Hin as [<-|Hin].
    + exists y. split; [left; reflexivity|assumption].
    + destruct (IH ks' eq_refl Hin) as (x & Hx & Hfx).
      exists x. split; [right; assumption|assumption].
Qed.

(** The keys convert together exactly when each of them converts. *)
Lemma mapM_Normal l :
  (∃ ks, mapM f l = Normal ks) ↔ (∀ x, In x l → ∃ k, f x = Normal k).
Proof.
  induction l as [|y l IH]; simpl.
  - split; [intros _ x []|eauto].
  - split.
    + intros [ks Hm] x Hx.
      destruct (f y) as [k|e] eqn:Ey; [|discriminate]. simpl in Hm.
      destruct (mapM f l) as [ks'|e] eqn:El; [|discriminate].
      destruct Hx as [<-|Hx]; [eauto|].
      apply IH; eauto.
    + intros Hall.
      destruct (Hall y) as [k Hk]; [left; reflexivity|]. rewrite Hk. simpl.
      destruct (proj2 IH) as [ks Hks]; [intros; apply Hall; right; assumption|].
      rewrite Hks. simpl. eauto.
Qed.

Lemma zip_keys_fst (l : list A) (ks : list B) {C : Type} (g : A → C) :
  length ks = length l → map fst (zip ks (map g l)) = ks.
Proof.
  revert l. induction ks as [|k ks IH]; intros [|x l] Hlen; try discriminate; [reflexivity|].
  simpl. f_equal. apply IH. injection Hlen. auto.
Qed.

Lemma zip_keys_snd (l : list A) (ks : list B) {C : Type} (g : A → C) :
  length ks = length l → map snd (zip ks (map g l)) = map g l.
Proof.
  revert l. induction ks as [|k ks IH]; intros [|x l] Hlen; try discriminate; [reflexivity|].
  simpl. f_equal. apply IH. injection Hlen. auto.
Qed.

End Keys.

(** ** The outcome of a call *)

Section Outcome.

Lemma exception_unique (e : exception) : e = TypeError.
Proof. destruct e. reflexivity. Qed.

Lemma key_convert_dec {A : Type} (c : completion A) :
  (∃ k, c = Normal k) ∨ c = Throw TypeError.
Proof.
  destruct c as [k|e]; [left; eauto|right].
  rewrite (exception_unique e). reflexivity.
Qed.

Lemma labels_convert_dec txn : labels_convert txn ∨ ¬ labels_convert txn.
Proof.
  unfold labels_convert.
  destruct (key_convert_dec (category_key txn)) as [Hc|Hc];
  destruct (key_convert_dec (contact_key txn)) as [Ht|Ht]; auto;
    right; intros [[k Hk] [k' Hk']]; congruence.
Qed.

Lemma primitive_converts v : primitive v → ∃ k, ToPropertyKey v = Normal k.
Proof.
  destruct v; simpl; try contradiction; intros _; eauto.
Qed.

Lemma valid_records_nil txns :
  valid_records txns = [] ↔ (∀ txn, In txn txns → valid txn = false).
Proof.
  unfold valid_records. induction txns as [|x txns IH]; simpl.
  - split; [intros _ txn []|reflexivity].
  - destruct (valid x) eqn:Hx.
    + split; [discriminate|]. intros Hall.
      rewrite (Hall x) in Hx by (left; reflexivity). discriminate.
    + rewrite IH. split.
      * intros Hall txn [<-|Hin]; auto.
      * intros Hall txn Hin. apply Hall. right. assumption.
Qed.

Lemma mapM_keys_all (f : value → completion string) l :
  (∃ ks, mapM f l = Normal ks) ∨ (∃ x, In x l ∧ f x = Throw TypeError).
Proof.
  induction l as [|x l IH]; simpl; [left; eauto|].
  destruct (key_convert_dec (f x)) as [[k Hk]|Hk].
  - rewrite Hk. simpl. destruct IH as [[ks Hks]|(y & Hy & Hfy)].
    + rewrite Hks. left. simpl. eauto.
    + right. eauto.
  - right. eauto.
Qed.

(** A summary is the summary of the valid records of an array. *)
Lemma analyze_summary v s :
  analyzeUPITransactions v = Normal (Some s) →
  ∃ txns first rest cks tks,
    v = VArray txns
    ∧ valid_records txns = first :: rest
    ∧ mapM category_key (first :: rest) = Normal cks
    ∧ mapM contact_key (first :: rest) = Normal tks
    ∧ s = summarize first rest cks tks.
Proof.
  destruct v as [| |b|x|str|txns|props]; try discriminate.
  rewrite analyze_array.
  destruct (valid_records txns) as [|first rest] eqn:Hv; [discriminate|].
  destruct (mapM category_key (first :: rest)) as [cks|e] eqn:Hc; [|discriminate].
  destruct (mapM contact_key (first :: rest)) as [tks|e] eqn:Ht; [|discriminate].
  unfold bind. intros Hs. injection Hs as <-.
  exists txns, first, rest, cks, tks. auto.
Qed.

(** The three outcomes on an array. *)
Lemma analyze_array_null txns :
  analyzeUPITransactions (VArray txns) = Normal None ↔ valid_records txns = [].
Proof.
  rewrite analyze_array.
  destruct (valid_records txns) as [|first rest]; [tauto|].
  split; [|discriminate].
  destruct (mapM category_key (first :: rest)) as [cks|e]; [|discriminate].
  destruct (mapM contact_key (first :: rest)) as [tks|e]; discriminate.
Qed.

Lemma analyze_array_summary txns :
  (∃ s, analyzeUPITransactions (VArray txns) = Normal (Some s))
  ↔ valid_records txns ≠ []
    ∧ ∀ txn, In txn (valid_records txns) → labels_convert txn.
Proof.
  rewrite analyze_array. split.
  - intros [s Hs].
    destruct (valid_records txns) as [|first rest]; [discriminate|].
    split; [discriminate|].
    destruct (mapM category_key (first :: rest)) as [cks|e] eqn:Hc; [|discriminate].
    destruct (mapM contact_key (first :: rest)) as [tks|e] eqn:Ht; [|discriminate].
    intros txn Hin. split.
    + apply (proj1 (mapM_Normal category_key (first :: rest))); eauto.
    + apply (proj1 (mapM_Normal contact_key (first :: rest))); eauto.
  - intros [Hne Hall].
    destruct (valid_records txns) as [|first rest]; [congruence|].
    destruct (proj2 (mapM_Normal category_key (first :: rest))) as [cks ->].
    { intros txn Hin. apply Hall. assumption. }
    destruct (proj2 (mapM_Normal contact_key (first :: rest))) as [tks ->].
    { intros txn Hin. apply Hall. assumption. }
    simpl. eauto.
Qed.

Lemma analyze_array_throw txns :
  analyzeUPITransactions (VArray txns) = Throw TypeError
  ↔ ∃ txn, In txn (valid_records txns) ∧ ¬ labels_convert txn.
Proof.
  rewrite analyze_array. split.
  - destruct (valid_records txns) as [|first rest]; [discriminate|].
    destruct (mapM_keys_all category_key (first :: rest)) as [[cks Hc]|(x & Hx & Hfx)].
    + destruct (mapM_keys_all contact_key (first :: rest)) as [[tks Ht]|(x & Hx & Hfx)].
      * rewrite Hc, Ht. discriminate.
      * intros _. exists x. split; [assumption|].
        intros [_ [k Hk]]. congruence.
    + intros _. exists x. split; [assumption|].
      intros [[k Hk] _]. congruence.
  - intros (txn & Hin & Hno).
    destruct (valid_records txns) as [|first rest]; [destruct Hin|].
    destruct (mapM category_key (first :: rest)) as [cks|e] eqn:Hc;
      [|rewrite (exception_unique e); reflexivity].
    destruct (mapM contact_key (first :: rest)) as [tks|e] eqn:Ht;
      [|rewrite (exception_unique e); reflexivity].
    exfalso. apply Hno. split.
    + apply (proj1 (mapM_Normal category_key (first :: rest))); eauto.
    + apply (proj1 (mapM_Normal contact_key (first :: rest))); eauto.
Qed.



End Outcome.

(** ** The amounts of the valid records *)

Section ValidAmounts.
Import NumFacts.

Lemma valid_amount_positive txn : valid txn = true → Num.positive_number (amount txn).
Proof.
  unfold valid. intros [_ Hpos]%andb_prop. exact Hpos.
Qed.

Lemma valid_records_positive txns x :
  In x (amounts (valid_records txns)) → Num.positive_number x.
Proof.
  unfold amounts. intros (txn & <- & Hin)%in_map_iff.
  apply valid_amount_positive, (valid_records_valid txns), Hin.
Qed.

Lemma filter_valid_and (P : value → bool) txns :
  List.filter P (valid_records txns)
  = List.filter (fun txn => valid txn && P txn) txns.
Proof.
  unfold valid_records. induction txns as [|x txns IH]; [reflexivity|].
  simpl. destruct (valid x); simpl; rewrite IH; reflexivity.
Qed.

Lemma credit_xor_debit txn : valid txn = true → is_credit txn = negb (is_debit txn).
Proof.
  unfold valid, is_credit, is_debit.
  intros [[Hty _]%andb_prop _]%andb_prop.
  destruct (field txn "type") as [| | | |ty| |]; try discriminate.
  simpl in *. destruct (bool_decide (ty = "credit")) eqn:Ec.
  - apply bool_decide_eq_true_1 in Ec. subst ty. reflexivity.
  - simpl in Hty. rewrite Hty. reflexivity.
Qed.

(** [first_max] and [first_min] commute with the measure. *)
Lemma first_max_map {A : Type} (f : A → number) first rest :
  f (first_max f first rest) = first_max (fun x => x) (f first) (map f rest).
Proof.
  unfold first_max. revert first.
  induction rest as [|x rest IH]; intros first; [reflexivity|].
  simpl. rewrite IH. destruct (Num.ltb (f first) (f x)); reflexivity.
Qed.

End ValidAmounts.

Section WholeAmounts.
Import Num.

Lemma binary_round_aux_sign sx m e l :
  match binary_round_aux prec emax sx m e l with
  | S754_zero s | S754_infinity s | S754_finite s _ _ => s = sx
  | S754_nan => True
  end.
Proof.
  unfold binary_round_aux.
  destruct (shr_fexp prec emax m e l) as [mrs' e'].
  destruct (shr_fexp prec emax _ e' loc_Exact) as [mrs'' e''].
  destruct (shr_m mrs''); simpl; auto.
  destruct (e'' <=? emax - prec); reflexivity.
Qed.

Lemma of_Z_positive z : positive_number (of_Z z) → 0 < z.
Proof.
  unfold positive_number, of_Z, binary_normalize.
  destruct z as [|p|p]; [discriminate|lia|].
  unfold binary_round. destruct (shl_align p 0 _) as [mz ez].
  pose proof (binary_round_aux_sign true (Zpos mz) ez loc_Exact) as Hs.
  destruct (binary_round_aux prec emax true (Zpos mz) ez loc_Exact) as [s|s| |s m e];
    try subst s; discriminate.
Qed.

Lemma total_app zs1 zs2 : total (zs1 ++ zs2) = total zs1 + total zs2.
Proof. induction zs1 as [|z zs1 IH]; simpl; lia. Qed.

Lemma total_perm zs1 zs2 : Permutation zs1 zs2 → total zs1 = total zs2.
Proof. induction 1; simpl; lia. Qed.

Lemma total_nonneg zs : Forall (fun z => 0 <= z) zs → 0 <= total zs.
Proof. induction 1; simpl; lia. Qed.

Lemma total_concat (ls : list (list Z)) : total (concat ls) = total (map total ls).
Proof. induction ls as [|l ls IH]; simpl; [reflexivity|]. rewrite total_app, IH. reflexivity. Qed.

Lemma fold_add_of_Z zs :
  ∀ acc, 0 <= acc → Forall (fun z => 0 <= z) zs → acc + total zs < 2 ^ 53 →
         fold_left add (map of_Z zs) (of_Z acc) = of_Z (acc + total zs).
Proof.
  induction zs as [|z zs IH]; intros acc Hacc Hzs Hlt; simpl.
  - rewrite Z.add_0_r. reflexivity.
  - inversion Hzs as [|? ? Hz Hzs']; subst. simpl in Hlt.
    pose proof (total_nonneg zs Hzs').
    rewrite add_of_Z by lia. rewrite IH by (auto; lia). f_equal. lia.
Qed.

(** The floating-point sum of non-negative integers whose total is below
    2^53 is their total, whatever the order. *)
Lemma sum_of_Z zs :
  Forall (fun z => 0 <= z) zs → total zs < 2 ^ 53 → sum (map of_Z zs) = of_Z (total zs).
Proof.
  intros Hzs Hlt. unfold sum. change zero with (of_Z 0).
  rewrite fold_add_of_Z; auto; lia.
Qed.

Lemma amounts_whole_positive txns zs :
  amounts (valid_records txns) = map of_Z zs → Forall (fun z => 0 <= z) zs.
Proof.
  intros Heq. apply Forall_forall. intros z Hz%list_elem_of_In.
  assert (0 < z); [|lia]. apply of_Z_positive.
  apply (valid_records_positive txns). rewrite Heq. apply in_map. assumption.
Qed.

(** With whole amounts, totalCredit + totalDebit is the sum of all valid
    amounts. *)
Lemma credit_plus_debit_whole (credits debits : list number) zs :
  Permutation (credits ++ debits) (map of_Z zs) →
  Forall (fun z => 0 <= z) zs →
  total zs < 2 ^ 53 →
  add (sum credits) (sum debits) = of_Z (total zs).
Proof.
  intros Hperm Hzs Hlt.
  apply Permutation_map_inv in Hperm as (zs' & Heq & Hperm).
  symmetry in Heq. apply map_eq_app in Heq as (zc & zd & -> & <- & <-).
  rewrite (total_perm _ _ Hperm), total_app in *.
  assert (Hall : Forall (fun z => 0 <= z) (zc ++ zd)).
  { apply Forall_forall. intros z Hz. rewrite Forall_forall in Hzs. apply Hzs.
    apply list_elem_of_In. apply (Permutation_in z (Permutation_sym Hperm)).
    apply list_elem_of_In. assumption. }
  apply Forall_app in Hall as [Hc Hd].
  pose proof (total_nonneg zc Hc). pose proof (total_nonneg zd Hd).
  rewrite !sum_of_Z by (auto; lia).
  apply add_of_Z; lia.
Qed.

Lemma filed_under_map {A B : Type} (f : A → B) k (ks : list string) (l : list A) :
  filed_under k (zip ks (map f l)) = map f (filed_under k (zip ks l)).
Proof.
  unfold filed_under. revert l.
  induction ks as [|k' ks IH]; intros [|x l]; simpl; try reflexivity.
  destruct (bool_decide (k' = k)); simpl; rewrite IH; reflexivity.
Qed.

Lemma filed_under_nonneg k (entries : list (string * Z)) :
  Forall (fun z => 0 <= z) (map snd entries) →
  Forall (fun z => 0 <= z) (filed_under k entries)
  ∧ total (filed_under k entries) <= total (map snd entries).
Proof.
  unfold filed_under. induction entries as [|[k' z] entries IH]; intros Hall; simpl.
  - split; [constructor|lia].
  - inversion Hall as [|? ? Hz Hall']; subst. destruct (IH Hall') as [IH1 IH2].
    destruct (bool_decide (k' = k)); simpl; split; auto; simpl in *; lia.
Qed.

End WholeAmounts.

Section WholeBreakdown.
Import Num NumFacts.

Lemma of_Z_nonneg z : 0 <= z → nonneg (of_Z z).
Proof.
  intros Hz. unfold of_Z, binary_normalize. destruct z as [|p|p]; [exact I| |lia].
  unfold binary_round. destruct (shl_align p 0 _) as [mz ez].
  apply binary_round_aux_nonneg. lia.
Qed.

(** With whole amounts whose total is below 2^53 and no key that names a
    property of Object.prototype, the values of the dictionary add up to
    the total, in whatever order the keys are listed. *)
Lemma breakdown_total_whole (cks : list string) (zs : list Z) (ks : list string) :
  length cks = length zs →
  Forall (fun z => 0 <= z) zs →
  total zs < 2 ^ 53 →
  (∀ k, In k cks → Object_prototype k = None) →
  NoDup ks →
  (∀ k, In k ks ↔ is_Some (accumulate (zip cks (map of_Z zs)) ∅ !! k)) →
  sum (map (breakdown_value (accumulate (zip cks (map of_Z zs)) ∅)) ks)
  = of_Z (total zs).
Proof.
  intros Hlen Hzs Hlt Hown Hnd Hks.
  set (entries := zip cks (map of_Z zs)) in *.
  set (entriesZ := zip cks zs).
  assert (Hfst : map fst entries = cks).
  { unfold entries. apply zip_keys_fst. assumption. }
  assert (HfstZ : map fst entriesZ = cks).
  { unfold entriesZ. rewrite <- (map_id zs). apply zip_keys_fst. assumption. }
  assert (HsndZ : map snd entriesZ = zs).
  { unfold entriesZ. rewrite <- (map_id zs) at 1. rewrite zip_keys_snd by assumption.
    apply map_id. }
  assert (Hnn : Forall nonneg (map snd entries)).
  { unfold entries. rewrite zip_keys_snd by assumption.
    apply Forall_forall. intros x (z & <- & Hz)%list_elem_of_In%in_map_iff.
    apply of_Z_nonneg. rewrite Forall_forall in Hzs. apply Hzs, list_elem_of_In, Hz. }
  set (g := fun k => total (filed_under k entriesZ)).
  assert (Hg : ∀ k, 0 <= g k <= total zs).
  { intros k. unfold g.
    destruct (filed_under_nonneg k entriesZ) as [Hf Hle]; [rewrite HsndZ; assumption|].
    rewrite HsndZ in Hle. split; [apply total_nonneg; assumption|assumption]. }
  assert (Hvalue : ∀ k, In k ks → breakdown_value (accumulate entries ∅) k = of_Z (g k)).
  { intros k Hk. apply Hks in Hk.
    assert (Hin : In k cks).
    { rewrite <- Hfst. apply accumulate_lookup_Some. assumption. }
    unfold breakdown_value.
    rewrite category_lookup;
      [|apply Hown; assumption|assumption|rewrite Hfst; assumption].
    unfold entries. rewrite filed_under_map. fold entriesZ.
    destruct (filed_under_nonneg k entriesZ) as [Hf Hle]; [rewrite HsndZ; assumption|].
    rewrite HsndZ in Hle. apply sum_of_Z; [assumption|lia]. }
  rewrite (map_ext_in _ (fun k => of_Z (g k))) by exact Hvalue.
  rewrite <- (map_map g of_Z).
  assert (Htotal : total (map g ks) = total zs).
  { unfold g. rewrite <- (map_map (fun k => filed_under k entriesZ) total).
    rewrite <- total_concat. rewrite <- HsndZ.
    apply total_perm, filed_partition; [assumption|].
    intros e He. apply Hks.
    assert (Hin : In (fst e) cks) by (rewrite <- HfstZ; apply in_map; assumption).
    rewrite category_lookup;
      [eauto|apply Hown; assumption|assumption|rewrite Hfst; assumption]. }
  rewrite sum_of_Z.
  - rewrite Htotal. reflexivity.
  - apply Forall_forall. intros z (k & <- & _)%list_elem_of_In%in_map_iff. apply Hg.
  - lia.
Qed.

End WholeBreakdown.


(** ** Lookups in paired lists *)

Section ZipLookup.

Lemma zip_lookup {A B : Type} (l : list A) (k : list B) i a b :
  zip l k !! i = Some (a, b) ↔ l !! i = Some a ∧ k !! i = Some b.
Proof.
  revert k i. induction l as [|x l IH]; intros [|y k] i; simpl.
  - split; [discriminate|intros [? _]; discriminate].
  - split; [discriminate|intros [? _]; discriminate].
  - split; [discriminate|intros [_ ?]; destruct i; discriminate].
  - destruct i as [|i]; simpl.
    + split; [intros [= -> ->]; auto|intros [[= ->] [= ->]]; reflexivity].
    + apply IH.
Qed.

Lemma labels_lookup l i label :
  labels l !! i = Some label → ∃ txn, l !! i = Some txn ∧ field txn "to" = label.
Proof.
  unfold labels. rewrite list_lookup_fmap.
  destruct (l !! i) as [txn|]; simpl; [|discriminate].
  intros [= <-]. eauto.
Qed.

End ZipLookup.

(** * The statements of the specification *)

(** ** The null result *)

(** C1 (amended): analyzeUPITransactions returns null if and only if the
    input is not a non-empty array or the array holds no record satisfying
    the validity predicate; it returns a summary object if and only if the
    input is an array with a valid record and the [to] and [category] labels
    of all valid records convert to property keys (in the remaining case the
    conversion throws, see C10). *)
Theorem null_iff_nothing_valid (v : value) :
  (analyzeUPITransactions v = Normal None
   ↔ (¬ ∃ txns, v = VArray txns ∧ txns ≠ [])
     ∨ (∃ txns, v = VArray txns ∧ ∀ txn, In txn txns → valid txn = false))
  ∧ ((∃ s, analyzeUPITransactions v = Normal (Some s))
     ↔ ∃ txns,
         v = VArray txns
         ∧ (∃ txn, In txn txns ∧ valid txn = true)
         ∧ ∀ txn, In txn txns → valid txn = true → labels_convert txn).
Proof.
  split.
  - destruct v as [| |b|x|str|txns|props];
      try (split; [intros _; left; intros (txns & Hv & _); discriminate|reflexivity]).
    rewrite analyze_array_null, valid_records_nil. split.
    + intros Hall. right. eauto.
    + intros [Hno|(txns' & Heq & Hall)].
      * destruct txns as [|t txns]; [intros txn []|].
        exfalso. apply Hno. exists (t :: txns). split; [reflexivity|discriminate].
      * injection Heq as <-. assumption.
  - split.
    + intros [s Hs].
      destruct (analyze_summary v s Hs) as (txns & first & rest & cks & tks & -> & Hv & _).
      exists txns. split; [reflexivity|].
      destruct (proj1 (analyze_array_summary txns)) as [Hne Hall]; [eauto|].
      split.
      * exists first. apply filter_In. fold (valid_records txns). rewrite Hv.
        left. reflexivity.
      * intros txn Hin Hvalid. apply Hall. apply filter_In. auto.
    + intros (txns & -> & (txn & Hin & Hvalid) & Hall).
      apply analyze_array_summary. split.
      * intros Hnil. rewrite valid_records_nil in Hnil.
        rewrite (Hnil txn Hin) in Hvalid. discriminate.
      * intros txn' [Hin' Hvalid']%filter_In. auto.
Qed.

(** C1, as stated, fails: an array whose only record is valid but has an
    object for its category is neither answered with null nor with a
    summary; the call throws. *)
Lemma object_category_gives_no_summary :
  valid Sample.object_category = true
  ∧ analyzeUPITransactions (VArray [Sample.object_category]) = Throw TypeError.
Proof. split; vm_compute; reflexivity. Qed.

(** ** Valid records *)


(** ** The frequent contact *)

(** C3 (amended): for an array of fewer than 2^53 elements, when no contact
    key of a valid record names a property of Object.prototype,
    frequentContact is the [to] label of the first valid record whose
    contact key, the string form of its label, occurs most often among the
    contact keys of the valid records: no key occurs more often, and every
    key before it occurs less often.  A label that is a string is its own
    key. *)
Theorem frequent_contact_is_first_most_frequent_key
    (txns : list value) (s : summary) (tks : list string) :
  analyzeUPITransactions (VArray txns) = Normal (Some s) →
  mapM contact_key (valid_records txns) = Normal tks →
  (∀ k, In k tks → Object_prototype k = None) →
  Z.of_nat (length txns) < 2 ^ 53 →
  (∃ i txn k,
     valid_records txns !! i = Some txn
     ∧ tks !! i = Some k
     ∧ frequentContact s = field txn "to"
     ∧ (∀ k', In k' tks → (occurrences k' tks <= occurrences k tks)%nat)
     ∧ (∀ j k', (j < i)%nat → tks !! j = Some k' →
                (occurrences k' tks < occurrences k tks)%nat))
  ∧ (∀ txn l, field txn "to" = VString l → contact_key txn = Normal l).
Proof.
  intros Hs Htks Hown Hbound. split.
  2: { intros txn l Hl. unfold contact_key. rewrite Hl. reflexivity. }
  assert (Hvlen : Z.of_nat (length (valid_records txns)) < 2 ^ 53).
  { pose proof (valid_records_length txns). lia. }
  destruct (analyze_summary _ s Hs)
    as (txns' & first & rest & cks & tks' & Heq & Hv & _ & Htks' & ->).
  injection Heq as <-. rewrite Hv in *. rewrite Htks in Htks'. injection Htks' as <-.
  set (vs := first :: rest) in *.
  pose proof (mapM_length _ _ _ Htks) as Hlen.
  unfold summarize. cbn [frequentContact]. fold vs.
  set (counts := accumulate (zip tks (map (fun _ => one) vs)) ∅).
  set (entries := zip tks (labels vs)).
  assert (Hfst : map fst entries = tks).
  { unfold entries, labels. apply zip_keys_fst. assumption. }
  assert (Hcount : ∀ e, In e entries →
            dict_get counts (fst e)
            = SOwn (CNum (Num.of_nat (occurrences (fst e) tks)))
            ∧ Z.of_nat (occurrences (fst e) tks) < 2 ^ 53).
  { intros e He.
    assert (Hin : In (fst e) tks) by (rewrite <- Hfst; apply in_map; assumption).
    split.
    - apply count_slot; auto. lia.
    - pose proof (occurrences_le (fst e) tks). lia. }
  change Num.zero with (Num.of_nat 0).
  destruct (pick_scan counts (fun k => occurrences k tks) entries Hcount
              O (field first "to") ltac:(reflexivity))
    as [[_ Hall]|(i & [k label] & Hi & Hp & _ & Hbefore & Hall)].
  - (* the first entry already has a count above 0 *)
    exfalso.
    destruct tks as [|k0 tks0]; [discriminate|].
    assert (He : In (k0, field first "to") entries) by (left; reflexivity).
    specialize (Hall _ He).
    pose proof (occurrences_pos k0 (k0 :: tks0) ltac:(left; reflexivity)).
    simpl in *. lia.
  - apply zip_lookup in Hi as [Hk Hlabel].
    apply labels_lookup in Hlabel as (txn & Htxn & Hto).
    exists i, txn, k. rewrite Hp. simpl snd.
    split; [assumption|]. split; [assumption|]. split; [auto|]. split.
    + intros k' Hk'. rewrite <- Hfst in Hk'.
      apply in_map_iff in Hk' as (e' & <- & He').
      exact (Hall e' He').
    + intros j k' Hj Hk'.
      assert (Hjlen : (j < length vs)%nat).
      { rewrite <- Hlen. eapply lookup_lt_Some, Hk'. }
      destruct (lookup_lt_is_Some_2 (labels vs) j) as [label' Hlabel'].
      { unfold labels. rewrite length_map. assumption. }
      assert (Hj' : entries !! j = Some (k', label')) by (apply zip_lookup; auto).
      exact (Hbefore j _ Hj Hj').
Qed.

Lemma frequent_contact_is_first_most_frequent_key_witness :
  analyzeUPITransactions (VArray Sample.documented)
  = Normal (Some Sample.documented_summary)
  ∧ mapM contact_key (valid_records Sample.documented)
    = Normal ["Salary"; "Swiggy"; "Swiggy"]
  ∧ (∀ k, In k ["Salary"; "Swiggy"; "Swiggy"] → Object_prototype k = None)
  ∧ Z.of_nat (length Sample.documented) < 2 ^ 53
  ∧ ∃ i txn k,
      valid_records Sample.documented !! i = Some txn
      ∧ ["Salary"; "Swiggy"; "Swiggy"] !! i = Some k
      ∧ frequentContact Sample.documented_summary = field txn "to"
      ∧ frequentContact Sample.documented_summary = VString "Swiggy".
Proof.
  assert (Hs : analyzeUPITransactions (VArray Sample.documented)
               = Normal (Some Sample.documented_summary))
    by (vm_compute; reflexivity).
  assert (Hk : mapM contact_key (valid_records Sample.documented)
               = Normal ["Salary"; "Swiggy"; "Swiggy"])
    by (vm_compute; reflexivity).
  assert (Hown : ∀ k, In k ["Salary"; "Swiggy"; "Swiggy"] → Object_prototype k = None)
    by (intros k [<-|[<-|[<-|[]]]]; vm_compute; reflexivity).
  assert (Hlt : Z.of_nat (length Sample.documented) < 2 ^ 53)
    by (vm_compute; reflexivity).
  split; [exact Hs|]. split; [exact Hk|]. split; [exact Hown|]. split; [exact Hlt|].
  destruct (frequent_contact_is_first_most_frequent_key
              Sample.documented Sample.documented_summary
              ["Salary"; "Swiggy"; "Swiggy"] Hs Hk Hown Hlt)
    as [(i & txn & k & Htxn & Hki & Hfc & _) _].
  exists i, txn, k.
  split; [exact Htxn|]. split; [exact Hki|]. split; [exact Hfc|].
  vm_compute. reflexivity.
Defined.

(** C3, as stated, fails: with one record without a contact, one whose
    contact is the string "undefined" and two whose contact is "A", the
    label A occurs twice and every other label once, yet frequentContact is
    undefined. *)
Lemma missing_contact_counts_as_undefined_string :
  ∃ s,
    analyzeUPITransactions (VArray Sample.missing_contact) = Normal (Some s)
    ∧ frequentContact s = VUndefined
    ∧ label_count (frequentContact s) (labels (valid_records Sample.missing_contact)) = 1%nat
    ∧ label_count (VString "A") (labels (valid_records Sample.missing_contact)) = 2%nat.
Proof.
  eexists. split; [vm_compute; reflexivity|].
  repeat split; vm_compute; reflexivity.
Qed.

(** ** The highest transaction *)

(** C4: highestTransaction is a valid record of the input whose amount is
    at least the amount of every valid record, and every valid record before
    it in input order has a strictly smaller amount: among the records of
    greatest amount it is the first. *)
Theorem highest_is_first_maximum (txns : list value) (s : summary) :
  analyzeUPITransactions (VArray txns) = Normal (Some s) →
  In (highestTransaction s) txns
  ∧ valid (highestTransaction s) = true
  ∧ (∀ txn, In txn txns → valid txn = true →
            Num.leb (amount txn) (amount (highestTransaction s)) = true)
  ∧ ∃ i,
      valid_records txns !! i = Some (highestTransaction s)
      ∧ ∀ j txn, (j < i)%nat → valid_records txns !! j = Some txn →
                 Num.ltb (amount txn) (amount (highestTransaction s)) = true.
Proof.
  intros Hs.
  destruct (analyze_summary _ s Hs) as (txns' & first & rest & cks & tks & Heq & Hv & _ & _ & ->).
  injection Heq as <-. unfold summarize. cbn [highestTransaction]. unfold highest.
  assert (Hpos : ∀ x, In x (first :: rest) → Num.positive_number (amount x)).
  { intros x Hx. apply valid_amount_positive, (valid_records_valid txns).
    rewrite Hv. exact Hx. }
  destruct (first_max_spec amount first rest Hpos) as (i & Hat & Hle & Hlt).
  assert (Hin : In (first_max amount first rest) (valid_records txns)).
  { rewrite Hv. apply list_elem_of_In. eapply list_elem_of_lookup_2, Hat. }
  apply filter_In in Hin as [Hin Hvalid].
  split; [assumption|]. split; [assumption|]. split.
  - intros txn Htxn Hvtxn. apply Hle. rewrite <- Hv. apply filter_In. auto.
  - exists i. rewrite Hv. auto.
Qed.

Lemma highest_is_first_maximum_witness :
  analyzeUPITransactions (VArray Sample.documented)
  = Normal (Some Sample.documented_summary)
  ∧ highestTransaction Sample.documented_summary = Sample.T1
  ∧ In (highestTransaction Sample.documented_summary) Sample.documented
  ∧ valid (highestTransaction Sample.documented_summary) = true.
Proof.
  assert (Hs : analyzeUPITransactions (VArray Sample.documented)
               = Normal (Some Sample.documented_summary))
    by (vm_compute; reflexivity).
  split; [exact Hs|].
  destruct (highest_is_first_maximum Sample.documented Sample.documented_summary Hs)
    as (Hin & Hvalid & _).
  split; [vm_compute; reflexivity|]. split; assumption.
Defined.

(** ** The average *)

(** C5 (amended): avgTransaction is the sum of the amounts of all valid
    records, added in input order, divided by transactionCount and rounded
    to the nearest integer with halves rounded up.  totalCredit + totalDebit
    adds the same amounts, each valid record being of exactly one of the two
    types, but in another order; it is equal to that sum, and avgTransaction
    to the rounded quotient of totalCredit + totalDebit, when the amounts
    are whole numbers whose total is below 2^53. *)
Theorem average_of_valid_amounts (txns : list value) (s : summary) :
  analyzeUPITransactions (VArray txns) = Normal (Some s) →
  let quotient :=
    Num.div (sum (amounts (valid_records txns))) (Num.of_nat (transactionCount s)) in
  transactionCount s = length (valid_records txns)
  ∧ avgTransaction s = Num.round quotient
  ∧ (∀ sg m e, quotient = S754_finite sg m e → e < 0 →
       ∃ k, nearest_half_up sg m e k
            ∧ avgTransaction s = if k =? 0 then S754_zero sg else Num.of_Z k)
  ∧ (∀ sg m e, quotient = S754_finite sg m e → 0 <= e → avgTransaction s = quotient)
  ∧ Permutation
      (amounts (List.filter (fun txn => valid txn && is_credit txn) txns)
       ++ amounts (List.filter (fun txn => valid txn && is_debit txn) txns))
      (amounts (valid_records txns))
  ∧ (∀ zs,
       amounts (valid_records txns) = map Num.of_Z zs →
       total zs < 2 ^ 53 →
       Num.add (totalCredit s) (totalDebit s) = sum (amounts (valid_records txns))
       ∧ avgTransaction s
         = Num.round (Num.div (Num.add (totalCredit s) (totalDebit s))
                              (Num.of_nat (transactionCount s)))).
Proof.
  intros Hs.
  destruct (analyze_summary _ s Hs) as (txns' & first & rest & cks & tks & Heq & Hv & _ & _ & ->).
  injection Heq as <-. unfold summarize.
  cbn [transactionCount avgTransaction totalCredit totalDebit].
  rewrite <- Hv.
  assert (Hperm : Permutation
            (amounts (List.filter is_credit (valid_records txns))
             ++ amounts (List.filter is_debit (valid_records txns)))
            (amounts (valid_records txns))).
  { unfold amounts. rewrite <- map_app. apply Permutation_map, filter_split.
    intros txn Hin. apply credit_xor_debit, (valid_records_valid txns), Hin. }
  split; [reflexivity|]. split; [reflexivity|]. split; [|split; [|split]].
  - intros sg m e -> He. exists (Num.round_int sg m e). split.
    + apply NumFacts.round_int_nearest. assumption.
    + unfold Num.round. rewrite (proj2 (Z.leb_gt 0 e)) by assumption. reflexivity.
  - intros sg m e -> He. unfold Num.round.
    rewrite (proj2 (Z.leb_le 0 e)) by assumption. reflexivity.
  - rewrite <- !filter_valid_and. exact Hperm.
  - intros zs Hzs Hlt.
    pose proof (amounts_whole_positive txns zs Hzs) as Hnn.
    assert (Hadd : Num.add (sum (amounts (List.filter is_credit (valid_records txns))))
                           (sum (amounts (List.filter is_debit (valid_records txns))))
                   = sum (amounts (valid_records txns))).
    { rewrite Hzs in Hperm.
      rewrite (credit_plus_debit_whole _ _ zs Hperm Hnn Hlt).
      rewrite Hzs, sum_of_Z by assumption. reflexivity. }
    rewrite Hadd. split; reflexivity.
Qed.

Lemma average_of_valid_amounts_witness :
  analyzeUPITransactions (VArray Sample.documented)
  = Normal (Some Sample.documented_summary)
  ∧ sum (amounts (valid_records Sample.documented)) = Num.of_Z 5300
  ∧ transactionCount Sample.documented_summary = 3%nat
  ∧ avgTransaction Sample.documented_summary = Num.of_Z 1767
  ∧ amounts (valid_records Sample.documented) = map Num.of_Z [5000; 200; 100]
  ∧ total [5000; 200; 100] < 2 ^ 53
  ∧ avgTransaction Sample.documented_summary
    = Num.round (Num.div (Num.add (totalCredit Sample.documented_summary)
                                  (totalDebit Sample.documented_summary))
                         (Num.of_nat (transactionCount Sample.documented_summary))).
Proof.
  assert (Hs : analyzeUPITransactions (VArray Sample.documented)
               = Normal (Some Sample.documented_summary))
    by (vm_compute; reflexivity).
  assert (Hzs : amounts (valid_records Sample.documented) = map Num.of_Z [5000; 200; 100])
    by (vm_compute; reflexivity).
  assert (Hlt : total [5000; 200; 100] < 2 ^ 53) by (vm_compute; reflexivity).
  split; [exact Hs|].
  destruct (average_of_valid_amounts Sample.documented Sample.documented_summary Hs)
    as (Hcount & Havg & _ & _ & _ & Hwhole).
  split; [vm_compute; reflexivity|]. split; [|split; [|split; [|split]]].
  - rewrite Hcount. vm_compute. reflexivity.
  - rewrite Havg. vm_compute. reflexivity.
  - exact Hzs.
  - exact Hlt.
  - apply (Hwhole [5000; 200; 100] Hzs Hlt).
Defined.

(** C5, as stated, fails: for a credit of 0.1 followed by debits of 0.1 and
    4.3 the average of the summary is 2, and the rounded quotient of
    totalCredit + totalDebit by the count is 1. *)
Lemma average_differs_from_credit_plus_debit :
  ∃ s,
    analyzeUPITransactions (VArray Sample.small_amounts) = Normal (Some s)
    ∧ avgTransaction s = Num.of_Z 2
    ∧ Num.round (Num.div (Num.add (totalCredit s) (totalDebit s))
                         (Num.of_nat (transactionCount s))) = Num.of_Z 1.
Proof.
  eexists. split; [vm_compute; reflexivity|]. split; vm_compute; reflexivity.
Qed.

(** ** The category breakdown *)

(** C6 (amended): categoryBreakdown maps the key of each category label of
    a valid record, unless it names a property of Object.prototype, to the
    sum of the amounts of the valid records filed under that key, added in
    input order, and has no other keys.  When no key names such a property,
    the values of categoryBreakdown add up the amounts of the valid records,
    each once, as totalCredit and totalDebit do together, and their sum,
    over the keys in any order, equals totalCredit + totalDebit when the
    amounts are whole numbers whose total is below 2^53. *)
Theorem category_breakdown_sums_by_key
    (txns : list value) (s : summary) (cks : list string) :
  analyzeUPITransactions (VArray txns) = Normal (Some s) →
  mapM category_key (valid_records txns) = Normal cks →
  let entries := zip cks (amounts (valid_records txns)) in
  (∀ k, In k cks → Object_prototype k = None →
        categoryBreakdown s !! k = Some (CNum (sum (filed_under k entries))))
  ∧ (∀ k, is_Some (categoryBreakdown s !! k) → In k cks)
  ∧ ((∀ k, In k cks → Object_prototype k = None) →
     Permutation
       (concat (map (fun k => filed_under k entries)
                    (elements (dom (categoryBreakdown s)))))
       (amounts (valid_records txns)))
  ∧ Permutation
      (amounts (List.filter (fun txn => valid txn && is_credit txn) txns)
       ++ amounts (List.filter (fun txn => valid txn && is_debit txn) txns))
      (amounts (valid_records txns))
  ∧ totalCredit s = sum (amounts (List.filter (fun txn => valid txn && is_credit txn) txns))
  ∧ totalDebit s = sum (amounts (List.filter (fun txn => valid txn && is_debit txn) txns))
  ∧ (∀ zs ks,
       amounts (valid_records txns) = map Num.of_Z zs →
       total zs < 2 ^ 53 →
       (∀ k, In k cks → Object_prototype k = None) →
       NoDup ks →
       (∀ k, In k ks ↔ is_Some (categoryBreakdown s !! k)) →
       sum (map (breakdown_value (categoryBreakdown s)) ks)
       = Num.add (totalCredit s) (totalDebit s)).
Proof.
  intros Hs Hcks entries.
  destruct (analyze_summary _ s Hs)
    as (txns' & first & rest & cks' & tks & Heq & Hv & Hcks' & _ & ->).
  injection Heq as <-. rewrite <- Hv in *. rewrite Hcks in Hcks'. injection Hcks' as <-.
  pose proof (mapM_length _ _ _ Hcks) as Hlen.
  unfold summarize. cbn [categoryBreakdown totalCredit totalDebit].
  rewrite <- Hv. fold entries.
  assert (Hfst : map fst entries = cks).
  { unfold entries, amounts. apply zip_keys_fst. assumption. }
  assert (Hsnd : map snd entries = amounts (valid_records txns)).
  { unfold entries, amounts. apply zip_keys_snd. assumption. }
  assert (Hnonneg : Forall Num.nonneg (map snd entries)).
  { rewrite Hsnd. apply Forall_forall. intros x Hx%list_elem_of_In.
    apply NumFacts.positive_nonneg, (valid_records_positive txns), Hx. }
  assert (Hcell : ∀ k, In k cks → Object_prototype k = None →
            accumulate entries ∅ !! k = Some (CNum (sum (filed_under k entries)))).
  { intros k Hk Hown. apply category_lookup; auto. rewrite Hfst. assumption. }
  assert (Hperm : Permutation
            (amounts (List.filter is_credit (valid_records txns))
             ++ amounts (List.filter is_debit (valid_records txns)))
            (amounts (valid_records txns))).
  { unfold amounts. rewrite <- map_app. apply Permutation_map, filter_split.
    intros txn Hin. apply credit_xor_debit, (valid_records_valid txns), Hin. }
  split; [exact Hcell|]. split; [|split; [|split; [|split; [|split]]]].
  - intros k Hk. rewrite <- Hfst. apply accumulate_lookup_Some. assumption.
  - intros Hown. rewrite <- Hsnd. apply filed_partition.
    + apply NoDup_elements.
    + intros e He. apply list_elem_of_In, elem_of_elements, elem_of_dom.
      assert (Hk : In (fst e) cks) by (rewrite <- Hfst; apply in_map; assumption).
      rewrite Hcell by auto. eauto.
  - rewrite <- !filter_valid_and. exact Hperm.
  - rewrite filter_valid_and. reflexivity.
  - rewrite filter_valid_and. reflexivity.
  - intros zs ks Hzs Hlt Hown Hnd Hks.
    pose proof (amounts_whole_positive txns zs Hzs) as Hnn.
    rewrite Hzs in Hperm.
    rewrite (credit_plus_debit_whole _ _ zs Hperm Hnn Hlt).
    assert (Hlz : length cks = length zs).
    { rewrite Hlen. pose proof (f_equal (@length number) Hzs) as Hl.
      unfold amounts in Hl. rewrite !length_map in Hl. exact Hl. }
    subst entries. rewrite Hzs in Hks |- *.
    apply breakdown_total_whole; assumption.
Qed.

Lemma category_breakdown_sums_by_key_witness :
  analyzeUPITransactions (VArray Sample.documented)
  = Normal (Some Sample.documented_summary)
  ∧ mapM category_key (valid_records Sample.documented)
    = Normal ["income"; "food"; "food"]
  ∧ categoryBreakdown Sample.documented_summary !! "income" = Some (CNum (Num.of_Z 5000))
  ∧ categoryBreakdown Sample.documented_summary !! "food" = Some (CNum (Num.of_Z 300))
  ∧ amounts (valid_records Sample.documented) = map Num.of_Z [5000; 200; 100]
  ∧ total [5000; 200; 100] < 2 ^ 53
  ∧ sum (map (breakdown_value (categoryBreakdown Sample.documented_summary))
             ["food"; "income"])
    = Num.add (totalCredit Sample.documented_summary)
              (totalDebit Sample.documented_summary).
Proof.
  assert (Hs : analyzeUPITransactions (VArray Sample.documented)
               = Normal (Some Sample.documented_summary))
    by (vm_compute; reflexivity).
  assert (Hk : mapM category_key (valid_records Sample.documented)
               = Normal ["income"; "food"; "food"])
    by (vm_compute; reflexivity).
  assert (Hzs : amounts (valid_records Sample.documented) = map Num.of_Z [5000; 200; 100])
    by (vm_compute; reflexivity).
  assert (Hlt : total [5000; 200; 100] < 2 ^ 53) by (vm_compute; reflexivity).
  assert (Hown : ∀ k, In k ["income"; "food"; "food"] → Object_prototype k = None)
    by (intros k [<-|[<-|[<-|[]]]]; vm_compute; reflexivity).
  split; [exact Hs|]. split; [exact Hk|].
  destruct (category_breakdown_sums_by_key
              Sample.documented Sample.documented_summary ["income"; "food"; "food"]
              Hs Hk)
    as (Hcell & Hkeys & _ & _ & _ & _ & Hwhole).
  split; [|split; [|split; [|split]]].
  - rewrite (Hcell "income").
    + vm_compute. reflexivity.
    + left. reflexivity.
    + vm_compute. reflexivity.
  - rewrite (Hcell "food").
    + vm_compute. reflexivity.
    + right. left. reflexivity.
    + vm_compute. reflexivity.
  - exact Hzs.
  - exact Hlt.
  - apply (Hwhole [5000; 200; 100] ["food"; "income"] Hzs Hlt Hown).
    + apply NoDup_cons. split; [|apply NoDup_singleton].
      intros Hin%list_elem_of_singleton. discriminate.
    + intros k. split.
      * intros [<-|[<-|[]]]; rewrite Hcell; eauto; try (vm_compute; reflexivity);
          simpl; auto.
      * intros Hsome. apply Hkeys in Hsome as [<-|[<-|[<-|[]]]]; simpl; auto.
Defined.

(** C6, as stated, fails: for a credit of 0.1 and a debit of 0.1 on food
    and a debit of 4.3 on rent, categoryBreakdown is food: 0.2, rent: 4.3,
    whose sum, in either order, is 4.5, while totalCredit + totalDebit is
    4.499999999999999. *)
Lemma breakdown_total_differs_from_credit_plus_debit :
  ∃ s,
    analyzeUPITransactions (VArray Sample.small_amounts) = Normal (Some s)
    ∧ categoryBreakdown s
      = <["food" := CNum (Num.dec 2 10)]> (<["rent" := CNum (Num.dec 43 10)]> ∅)
    ∧ ∀ values,
        Permutation values [Num.dec 2 10; Num.dec 43 10] →
        sum values = Num.dec 45 10
        ∧ sum values ≠ Num.add (totalCredit s) (totalDebit s).
Proof.
  eexists. split; [vm_compute; reflexivity|]. split; [vm_compute; reflexivity|].
  intros values Hperm. symmetry in Hperm.
  apply Permutation_length_2_inv in Hperm as [-> | ->];
    (split; [vm_compute; reflexivity|vm_compute; discriminate]).
Qed.

(** ** The flags *)

(** C7: allAbove100 holds if and only if the least amount of the valid
    records is greater than 100, and hasLargeTransaction holds if and only
    if their greatest amount is at least 5000. *)
Theorem flags_from_extremes (txns : list value) (s : summary) (first : value) (rest : list value) :
  analyzeUPITransactions (VArray txns) = Normal (Some s) →
  valid_records txns = first :: rest →
  let least := minimum (amount first) (amounts rest) in
  let greatest := maximum (amount first) (amounts rest) in
  (allAbove100 s = true ↔ Num.ltb hundred least = true)
  ∧ (hasLargeTransaction s = true ↔ Num.leb five_thousand greatest = true)
  ∧ (In least (amounts (valid_records txns))
     ∧ ∀ a, In a (amounts (valid_records txns)) → Num.leb least a = true)
  ∧ (In greatest (amounts (valid_records txns))
     ∧ ∀ a, In a (amounts (valid_records txns)) → Num.leb a greatest = true).
Proof.
  intros Hs Hv least greatest.
  destruct (analyze_summary _ s Hs) as (txns' & first' & rest' & cks & tks & Heq & Hv' & _ & _ & ->).
  injection Heq as <-. rewrite Hv in Hv'. injection Hv' as <- <-.
  pose proof (valid_records_positive txns) as Hpos. rewrite Hv in *.
  assert (H100 : Num.positive_number hundred) by reflexivity.
  assert (H5000 : Num.positive_number five_thousand) by reflexivity.
  destruct (first_min_spec (fun x => x) (amount first) (amounts rest) Hpos)
    as [Hmin_in Hmin_le].
  destruct (first_max_spec (fun x => x) (amount first) (amounts rest) Hpos)
    as (i & Hmax_at & Hmax_le & _).
  change (first_min _ _ _) with least in Hmin_in, Hmin_le.
  change (first_max _ _ _) with greatest in Hmax_at, Hmax_le.
  change (amount first :: amounts rest) with (amounts (first :: rest)) in *.
  assert (Hmax_in : In greatest (amounts (first :: rest))).
  { apply list_elem_of_In. eapply list_elem_of_lookup_2, Hmax_at. }
  unfold summarize. cbn [allAbove100 hasLargeTransaction].
  split; [|split; [|split; split; assumption]].
  - rewrite forallb_forall. split.
    + intros Hall. apply in_map_iff in Hmin_in as (txn & <- & Hin). apply Hall, Hin.
    + intros Hlt txn Hin. apply (in_map amount) in Hin.
      apply (NumFacts.ltb_leb_trans hundred least (amount txn)); auto.
  - rewrite existsb_exists. split.
    + intros (txn & Hin & Hle). apply (in_map amount) in Hin.
      apply (NumFacts.leb_trans five_thousand (amount txn) greatest); auto.
    + intros Hle. apply in_map_iff in Hmax_in as (txn & Heq & Hin).
      exists txn. split; [assumption|]. rewrite Heq. assumption.
Qed.

Lemma flags_from_extremes_witness :
  analyzeUPITransactions (VArray Sample.documented)
  = Normal (Some Sample.documented_summary)
  ∧ valid_records Sample.documented = Sample.T1 :: [Sample.T2; Sample.T3]
  ∧ minimum (amount Sample.T1) (amounts [Sample.T2; Sample.T3]) = Num.of_Z 100
  ∧ maximum (amount Sample.T1) (amounts [Sample.T2; Sample.T3]) = Num.of_Z 5000
  ∧ allAbove100 Sample.documented_summary = false
  ∧ hasLargeTransaction Sample.documented_summary = true.
Proof.
  assert (Hs : analyzeUPITransactions (VArray Sample.documented)
               = Normal (Some Sample.documented_summary))
    by (vm_compute; reflexivity).
  assert (Hv : valid_records Sample.documented = Sample.T1 :: [Sample.T2; Sample.T3])
    by (vm_compute; reflexivity).
  split; [exact Hs|]. split; [exact Hv|].
  destruct (flags_from_extremes Sample.documented Sample.documented_summary
              Sample.T1 [Sample.T2; Sample.T3] Hs Hv)
    as (Hall & Hsome & _).
  split; [vm_compute; reflexivity|]. split; [vm_compute; reflexivity|]. split.
  - apply not_true_is_false. rewrite Hall. vm_compute. discriminate.
  - apply Hsome. vm_compute. reflexivity.
Defined.

(** ** The totals *)

(** C8: totalCredit is the sum of the amounts of the valid records of type
    "credit", totalDebit the sum of the amounts of the valid records of type
    "debit" (both added in input order), and netBalance is their difference,
    with no rounding besides that of the subtraction itself. *)
Theorem totals_by_type (txns : list value) (s : summary) :
  analyzeUPITransactions (VArray txns) = Normal (Some s) →
  totalCredit s = sum (amounts (List.filter (fun txn => valid txn && is_credit txn) txns))
  ∧ totalDebit s = sum (amounts (List.filter (fun txn => valid txn && is_debit txn) txns))
  ∧ netBalance s = Num.sub (totalCredit s) (totalDebit s).
Proof.
  intros Hs.
  destruct (analyze_summary _ s Hs) as (txns' & first & rest & cks & tks & Heq & Hv & _ & _ & ->).
  injection Heq as <-. unfold summarize. cbn [totalCredit totalDebit netBalance].
  rewrite <- Hv, !filter_valid_and. auto.
Qed.

Lemma totals_by_type_witness :
  analyzeUPITransactions (VArray Sample.documented)
  = Normal (Some Sample.documented_summary)
  ∧ totalCredit Sample.documented_summary = Num.of_Z 5000
  ∧ totalDebit Sample.documented_summary = Num.of_Z 300
  ∧ netBalance Sample.documented_summary = Num.of_Z 4700.
Proof.
  assert (Hs : analyzeUPITransactions (VArray Sample.documented)
               = Normal (Some Sample.documented_summary))
    by (vm_compute; reflexivity).
  split; [exact Hs|].
  destruct (totals_by_type Sample.documented Sample.documented_summary Hs)
    as (Hc & Hd & Hn).
  rewrite Hn, Hc, Hd. vm_compute. auto.
Defined.

(** ** The result depends on the valid records only *)

(** C9: two arrays with the same valid records, in the same order, have the
    same result. *)
Theorem valid_records_determine_result (txns1 txns2 : list value) :
  valid_records txns1 = valid_records txns2 →
  analyzeUPITransactions (VArray txns1) = analyzeUPITransactions (VArray txns2).
Proof.
  intros Heq. rewrite !analyze_array, Heq. reflexivity.
Qed.

Lemma valid_records_determine_result_witness :
  valid_records Sample.noisy = valid_records Sample.documented
  ∧ analyzeUPITransactions (VArray Sample.noisy)
    = analyzeUPITransactions (VArray Sample.documented).
Proof.
  split.
  - vm_compute. reflexivity.
  - apply (valid_records_determine_result Sample.noisy Sample.documented).
    vm_compute. reflexivity.
Defined.

(** ** Exceptions *)

(** C10 (amended): for every argument the call returns normally, with null
    or a summary, if and only if the [to] and [category] labels of all valid
    records convert to property keys, and throws a TypeError otherwise.
    Non-arrays, elements that are not valid records, and valid records whose
    labels are missing or primitive never make it throw. *)
Theorem throws_only_on_unconvertible_label (v : value) :
  ((∃ r, analyzeUPITransactions v = Normal r)
   ↔ ∀ txns txn, v = VArray txns → In txn txns → valid txn = true → labels_convert txn)
  ∧ (analyzeUPITransactions v = Throw TypeError
     ↔ ∃ txns txn, v = VArray txns ∧ In txn txns ∧ valid txn = true ∧ ¬ labels_convert txn)
  ∧ (∀ txn, primitive (field txn "to") → primitive (field txn "category") →
            labels_convert txn).
Proof.
  assert (Hthrow : ∀ txns,
    analyzeUPITransactions (VArray txns) = Throw TypeError
    ↔ ∃ txn, In txn txns ∧ valid txn = true ∧ ¬ labels_convert txn).
  { intros txns. rewrite analyze_array_throw. split.
    - intros (txn & [Hin Hv]%filter_In & Hno). eauto.
    - intros (txn & Hin & Hv & Hno). exists txn. split; [|assumption].
      apply filter_In. auto. }
  split; [split|split; [split|]].
  - intros [r Hr] txns txn -> Hin Hv.
    destruct (labels_convert_dec txn) as [Hc|Hno]; [assumption|].
    assert (Ht : analyzeUPITransactions (VArray txns) = Throw TypeError)
      by (apply Hthrow; eauto).
    congruence.
  - intros Hall.
    destruct (analyzeUPITransactions v) as [r|e] eqn:Hr; [eauto|].
    rewrite (exception_unique e) in Hr.
    destruct v as [| |b|x|str|txns|props]; try discriminate.
    apply Hthrow in Hr as (txn & Hin & Hv & Hno).
    exfalso. apply Hno. eapply Hall; eauto.
  - intros Hr. destruct v as [| |b|x|str|txns|props]; try discriminate.
    apply Hthrow in Hr as (txn & Hin & Hv & Hno). eauto 10.
  - intros (txns & txn & -> & Hin & Hv & Hno). apply Hthrow. eauto.
  - intros txn Hto Hcat. split; apply primitive_converts; assumption.
Qed.

(** C10, as stated, fails: the call throws on an array that holds a valid
    record whose contact is an object with an own "toString" property. *)
Lemma object_contact_throws :
  analyzeUPITransactions (VArray [Sample.T1; Sample.object_contact]) = Throw TypeError.
Proof. vm_compute. reflexivity. Qed.

(** ** Further observations *)

(** Inserting or removing an element that is not a valid record changes
    nothing. *)
Lemma invalid_element_is_ignored (before after : list value) (x : value) :
  valid x = false →
  analyzeUPITransactions (VArray (before ++ x :: after))
  = analyzeUPITransactions (VArray (before ++ after)).
Proof.
  intros Hx. rewrite !analyze_array. unfold valid_records.
  rewrite !List.filter_app. simpl. rewrite Hx. reflexivity.
Qed.

(** What the amended statements leave out: a label named like a property of
    Object.prototype is never counted.  Two payments to "constructor" lose
    against one to "Asha", and the category "constructor" holds a string. *)
Lemma inherited_names_are_not_counted :
  ∃ s,
    analyzeUPITransactions (VArray Sample.inherited_names) = Normal (Some s)
    ∧ frequentContact s = VString "Asha"
    ∧ label_count (VString "constructor") (labels (valid_records Sample.inherited_names)) = 2%nat
    ∧ label_count (VString "Asha") (labels (valid_records Sample.inherited_names)) = 1%nat
    ∧ cell_text <$> (categoryBreakdown s !! "constructor")
      = Some "function Object() { [native code] }500".
Proof.
  eexists. split; [vm_compute; reflexivity|].
  repeat split; vm_compute; reflexivity.
Qed.

(** * Further properties of the analyzer *)

(** ** The frequent contact is a label of the input *)

Section Labels.

Lemma pick_label counts (entries : list (string * value)) :
  ∀ st, snd (pick counts entries st) = snd st
        ∨ In (snd (pick counts entries st)) (map snd entries).
Proof.
  optimize_heap.
  unfold pick. induction entries as [|[k l] entries IH]; intros st; [left; reflexivity|].
  cbn [fold_left map fst snd].
  destruct (slot_gt (dict_get counts k) (fst st)).
  - destruct (IH (slot_count (dict_get counts k) (fst st), l)) as [H|H].
    + right. left. rewrite H. reflexivity.
    + right. right. assumption.
  - destruct (IH st) as [H|H]; [left; assumption|right; right; assumption].
Qed.

Lemma mapM_In_key {A B : Type} (f : A → completion B) l ks x :
  mapM f l = Normal ks → In x l → ∃ k, In k ks ∧ f x = Normal k.
Proof.
  intros Hm Hin. apply list_elem_of_In, list_elem_of_lookup_1 in Hin as [i Hi].
  destruct (mapM_lookup f l ks i x Hm Hi) as (k & Hk & Hfx).
  exists k. split; [|assumption].
  apply list_elem_of_In. eapply list_elem_of_lookup_2, Hk.
Qed.

End Labels.

(** ** The own properties of the category breakdown *)

Section BreakdownKeys.

Lemma accumulate_keys (entries : list (string * number)) k :
  ∀ acc, is_Some (accumulate entries acc !! k)
         ↔ is_Some (acc !! k) ∨ (In k (map fst entries) ∧ k ≠ "__proto__").
Proof.
  unfold accumulate.
  induction entries as [|[k' n] entries IH]; intros acc.
  - simpl. tauto.
  - cbn [fold_left map fst snd]. rewrite IH.
    destruct (decide (k' = k)) as [->|Hne].
    + destruct (decide (k = "__proto__")) as [->|Hp].
      * unfold dict_set. rewrite bool_decide_eq_true_2 by reflexivity.
        split; [intros [H|[H ?]]; [left; assumption|congruence]|].
        intros [H|[_ ?]]; [left; assumption|congruence].
      * rewrite dict_set_lookup_eq by assumption.
        split; [intros _; right; split; [left; reflexivity|assumption]|].
        intros _. left. eauto.
    + rewrite dict_set_lookup_ne by assumption.
      split; intros [H|[H ?]]; auto.
      * right. split; [right; assumption|assumption].
      * destruct H as [H|H]; [congruence|]. right. auto.
Qed.

(** Under a key that [Object.prototype] defines, the first write puts the
    inherited value in front of the number and later writes append. *)
Lemma accumulate_lookup_inherited (entries : list (string * number)) k i :
  Object_prototype k = Some i →
  k ≠ "__proto__" →
  ∀ acc,
    accumulate entries acc !! k
    = fold_left
        (fun c n => Some (or_zero_plus
                            (match c with Some c => SOwn c | None => SInherited i end) n))
        (filed_under k entries) (acc !! k).
Proof.
  intros Hk Hp.
  induction entries as [|[k' n] entries IH]; intros acc; [reflexivity|].
  unfold accumulate, filed_under in *. simpl.
  rewrite IH. destruct (bool_decide (k' = k)) eqn:Ek.
  - apply bool_decide_eq_true_1 in Ek. subst k'. simpl.
    rewrite dict_set_lookup_eq by assumption.
    unfold dict_get. rewrite Hk. destruct (acc !! k); reflexivity.
  - apply bool_decide_eq_false_1 in Ek.
    rewrite dict_set_lookup_ne by assumption. reflexivity.
Qed.

Lemma append_cells i (l : list number) :
  ∀ l0,
    fold_left
      (fun c n => Some (or_zero_plus
                          (match c with Some c => SOwn c | None => SInherited i end) n))
      l (Some (CText i l0))
    = Some (CText i (l0 ++ l)).
Proof.
  induction l as [|n l IH]; intros l0; simpl.
  - rewrite app_nil_r. reflexivity.
  - rewrite IH, <- app_assoc. reflexivity.
Qed.

End BreakdownKeys.

(** X1: the frequent contact of a summary is the [to] label of one of the
    valid records of the input, whatever the labels are. *)
Theorem frequent_contact_is_a_valid_label (txns : list value) (s : summary) :
  analyzeUPITransactions (VArray txns) = Normal (Some s) →
  ∃ txn, In txn (valid_records txns) ∧ frequentContact s = field txn "to".
Proof.
  intros Hs.
  destruct (analyze_summary _ s Hs)
    as (txns' & first & rest & cks & tks & Heq & Hv & _ & Htks & ->).
  injection Heq as <-. rewrite Hv.
  pose proof (mapM_length _ _ _ Htks) as Hlen.
  unfold summarize. cbn [frequentContact].
  set (counts := accumulate _ _).
  destruct (pick_label counts (zip tks (labels (first :: rest)))
              (Num.zero, field first "to")) as [H|H].
  - exists first. split; [left; reflexivity|exact H].
  - unfold labels in H. rewrite zip_keys_snd in H by assumption.
    apply in_map_iff in H as (txn & Htxn & Hin).
    exists txn. split; [assumption|]. symmetry. exact Htxn.
Qed.

Lemma frequent_contact_is_a_valid_label_witness :
  analyzeUPITransactions (VArray Sample.documented)
  = Normal (Some Sample.documented_summary)
  ∧ ∃ txn, In txn (valid_records Sample.documented)
           ∧ frequentContact Sample.documented_summary = field txn "to".
Proof.
  split; [vm_compute; reflexivity|].
  apply (frequent_contact_is_a_valid_label Sample.documented). vm_compute. reflexivity.
Defined.

(** X2: the own properties of categoryBreakdown are the category keys of
    the valid records, except "__proto__", which is never one. *)
Theorem category_breakdown_keys (txns : list value) (s : summary) :
  analyzeUPITransactions (VArray txns) = Normal (Some s) →
  ∀ k, is_Some (categoryBreakdown s !! k)
       ↔ k ≠ "__proto__"
         ∧ ∃ txn, In txn (valid_records txns) ∧ category_key txn = Normal k.
Proof.
  intros Hs k.
  destruct (analyze_summary _ s Hs)
    as (txns' & first & rest & cks & tks & Heq & Hv & Hcks & _ & ->).
  injection Heq as <-. rewrite Hv.
  pose proof (mapM_length _ _ _ Hcks) as Hlen.
  unfold summarize. cbn [categoryBreakdown].
  rewrite accumulate_keys, lookup_empty.
  unfold amounts. rewrite zip_keys_fst by assumption.
  split.
  - intros [[c Hc]|[Hin Hp]]; [discriminate|].
    split; [assumption|]. eapply mapM_In; eauto.
  - intros (Hp & txn & Hin & Hk). right. split; [|assumption].
    destruct (mapM_In_key _ _ _ _ Hcks Hin) as (k' & Hk' & Hfx).
    congruence.
Qed.

Lemma category_breakdown_keys_witness :
  analyzeUPITransactions (VArray Sample.documented)
  = Normal (Some Sample.documented_summary)
  ∧ (is_Some (categoryBreakdown Sample.documented_summary !! "food")
     ↔ "food" ≠ "__proto__"
       ∧ ∃ txn, In txn (valid_records Sample.documented)
                ∧ category_key txn = Normal "food").
Proof.
  split; [vm_compute; reflexivity|].
  apply (category_breakdown_keys Sample.documented). vm_compute. reflexivity.
Defined.

(** X3: under a category key that names a property of Object.prototype,
    other than "__proto__", categoryBreakdown holds a string: the text of
    the inherited value followed by the amounts filed under the key, in
    input order. *)
Theorem inherited_category_holds_text
    (txns : list value) (s : summary) (cks : list string) (k : string) (i : inherited) :
  analyzeUPITransactions (VArray txns) = Normal (Some s) →
  mapM category_key (valid_records txns) = Normal cks →
  In k cks →
  Object_prototype k = Some i →
  k ≠ "__proto__" →
  let filed := filed_under k (zip cks (amounts (valid_records txns))) in
  categoryBreakdown s !! k = Some (CText i filed)
  ∧ cell_text (CText i filed)
    = fold_left (fun text n => text +:+ Num.to_string n) filed (inherited_text i).
Proof.
  intros Hs Hcks Hin Hk Hp filed. split; [|reflexivity].
  destruct (analyze_summary _ s Hs)
    as (txns' & first & rest & cks' & tks & Heq & Hv & Hcks' & _ & ->).
  injection Heq as <-. subst filed. rewrite Hv in *.
  rewrite Hcks in Hcks'. injection Hcks' as <-.
  pose proof (mapM_length _ _ _ Hcks) as Hlen.
  unfold summarize. cbn [categoryBreakdown].
  rewrite (accumulate_lookup_inherited _ k i Hk Hp), lookup_empty.
  pose proof (filed_under_In k (zip cks (amounts (first :: rest)))) as Hne.
  unfold amounts in Hne at 1. rewrite zip_keys_fst in Hne by assumption.
  specialize (Hne Hin).
  destruct (filed_under k (zip cks (amounts (first :: rest)))) as [|n l]; [congruence|].
  cbn [fold_left or_zero_plus]. apply (append_cells i l [n]).
Qed.
Lemma inherited_category_holds_text_witness :
  analyzeUPITransactions (VArray Sample.inherited_names)
  = Normal (Some Scenario.inherited_names_summary)
  ∧ categoryBreakdown Scenario.inherited_names_summary !! "constructor"
    = Some (CText (NativeFunction "Object") [Num.of_Z 500])
  ∧ cell_text (CText (NativeFunction "Object") [Num.of_Z 500])
    = "function Object() { [native code] }500".
Proof.
  split; [vm_compute; reflexivity|].
  split; [|vm_compute; reflexivity].
  apply (inherited_category_holds_text Sample.inherited_names
           Scenario.inherited_names_summary ["constructor"; "food"; "food"]
           "constructor" (NativeFunction "Object")).
  - vm_compute. reflexivity.
  - vm_compute. reflexivity.
  - left. reflexivity.
  - vm_compute. reflexivity.
  - discriminate.
Defined.

(** ** Only four properties of a record are read *)

Section Entries.

Lemma same_entry_valid a b : same_entry a b → valid a = valid b.
Proof.
  intros (Hty & Ham & _ & _). unfold valid, is_credit, is_debit, amount.
  rewrite Hty, Ham. reflexivity.
Qed.

Lemma same_entry_amount a b : same_entry a b → amount a = amount b.
Proof. intros (_ & Ham & _ & _). unfold amount. rewrite Ham. reflexivity. Qed.

Lemma Forall2_filter {A : Type} (R : A → A → Prop) (P : A → bool) l1 l2 :
  (∀ a b, R a b → P a = P b) →
  Forall2 R l1 l2 → Forall2 R (List.filter P l1) (List.filter P l2).
Proof.
  intros HP. induction 1 as [|a b l1 l2 Hab _ IH]; simpl; [constructor|].
  rewrite <- (HP a b Hab). destruct (P a); [constructor; assumption|assumption].
Qed.

Lemma Forall2_map_eq {A B : Type} (R : A → A → Prop) (f : A → B) l1 l2 :
  (∀ a b, R a b → f a = f b) → Forall2 R l1 l2 → map f l1 = map f l2.
Proof.
  intros Hf. induction 1 as [|a b l1 l2 Hab _ IH]; simpl; [reflexivity|].
  rewrite (Hf a b Hab), IH. reflexivity.
Qed.

Lemma Forall2_mapM_eq {A B : Type} (R : A → A → Prop) (f : A → completion B) l1 l2 :
  (∀ a b, R a b → f a = f b) → Forall2 R l1 l2 → mapM f l1 = mapM f l2.
Proof.
  intros Hf. induction 1 as [|a b l1 l2 Hab _ IH]; simpl; [reflexivity|].
  rewrite (Hf a b Hab), IH. reflexivity.
Qed.

Lemma zip_filter_In {A : Type} (R : A → A → Prop) (P : A → bool) l1 l2 x :
  (∀ a b, R a b → P a = P b) →
  Forall2 R l1 l2 →
  In x (zip (List.filter P l1) (List.filter P l2)) → In x (zip l1 l2).
Proof.
  intros HP. induction 1 as [|a b l1 l2 Hab _ IH]; simpl; [tauto|].
  rewrite <- (HP a b Hab). destruct (P a); simpl; tauto.
Qed.

(** Scanning two lists whose elements have the same measures stops at the
    same position. *)
Lemma first_max_pair {A : Type} (R : A → A → Prop) (f : A → number) rest1 rest2 :
  (∀ a b, R a b → f a = f b) →
  Forall2 R rest1 rest2 →
  ∀ first1 first2,
    R first1 first2 →
    In (first_max f first1 rest1, first_max f first2 rest2)
       ((first1, first2) :: zip rest1 rest2).
Proof.
  intros Hf. unfold first_max.
  induction 1 as [|a b rest1 rest2 Hab _ IH]; intros first1 first2 H12.
  - left. reflexivity.
  - cbn [fold_left zip zip_with]. rewrite <- (Hf a b Hab), <- (Hf _ _ H12).
    destruct (Num.ltb (f first1) (f a)).
    + right. apply IH. assumption.
    + destruct (IH first1 first2 H12) as [H|H]; [left; assumption|right; right; assumption].
Qed.

Lemma first_max_related {A : Type} (R : A → A → Prop) (f : A → number) rest1 rest2 :
  (∀ a b, R a b → f a = f b) →
  Forall2 R rest1 rest2 →
  ∀ first1 first2,
    R first1 first2 → R (first_max f first1 rest1) (first_max f first2 rest2).
Proof.
  intros Hf. unfold first_max.
  induction 1 as [|a b rest1 rest2 Hab _ IH]; intros first1 first2 H12; [assumption|].
  cbn [fold_left]. rewrite <- (Hf a b Hab), <- (Hf _ _ H12).
  destruct (Num.ltb (f first1) (f a)); apply IH; assumption.
Qed.

End Entries.

(** X4: the analyzer reads only the type, the amount, the contact and the
    category of an element.  Two arrays whose elements agree on these four
    properties, position by position, give the same outcome: null for both,
    an exception for both, or two summaries that are equal field by field,
    the highest transactions being the elements at the same position. *)
Theorem only_four_properties_are_read (txns1 txns2 : list value) :
  Forall2 same_entry txns1 txns2 →
  match analyzeUPITransactions (VArray txns1), analyzeUPITransactions (VArray txns2) with
  | Normal None, Normal None => True
  | Normal (Some s1), Normal (Some s2) =>
      same_but_record s1 s2
      ∧ ∃ i, txns1 !! i = Some (highestTransaction s1)
             ∧ txns2 !! i = Some (highestTransaction s2)
  | Throw _, Throw _ => True
  | _, _ => False
  end.
Proof.
  intros Hsame. rewrite !analyze_array.
  pose proof (Forall2_filter same_entry valid _ _ same_entry_valid Hsame) as Hv.
  fold (valid_records txns1) in Hv. fold (valid_records txns2) in Hv.
  destruct (valid_records txns1) as [|first1 rest1] eqn:E1;
    destruct (valid_records txns2) as [|first2 rest2] eqn:E2;
    inversion Hv as [|? ? ? ? Hfirst Hrest]; subst; [exact I|].
  assert (Hvs : Forall2 same_entry (first1 :: rest1) (first2 :: rest2))
    by (constructor; assumption).
  rewrite <- (Forall2_mapM_eq same_entry category_key _ _
                ltac:(intros a b (_ & _ & _ & Hc); unfold category_key; rewrite Hc; reflexivity)
                Hvs).
  rewrite <- (Forall2_mapM_eq same_entry contact_key _ _
                ltac:(intros a b (_ & _ & Ht & _); unfold contact_key; rewrite Ht; reflexivity)
                Hvs).
  destruct (mapM category_key (first1 :: rest1)) as [cks|e]; [|exact I].
  destruct (mapM contact_key (first1 :: rest1)) as [tks|e]; [|exact I].
  cbv [bind]. split.
  - assert (Ham : amounts (first1 :: rest1) = amounts (first2 :: rest2))
      by (apply (Forall2_map_eq same_entry); [apply same_entry_amount|assumption]).
    assert (Hcr : amounts (List.filter is_credit (first1 :: rest1))
                  = amounts (List.filter is_credit (first2 :: rest2))).
    { apply (Forall2_map_eq same_entry); [apply same_entry_amount|].
      apply Forall2_filter; [|assumption].
      intros a b (Hty & _). unfold is_credit. rewrite Hty. reflexivity. }
    assert (Hdb : amounts (List.filter is_debit (first1 :: rest1))
                  = amounts (List.filter is_debit (first2 :: rest2))).
    { apply (Forall2_map_eq same_entry); [apply same_entry_amount|].
      apply Forall2_filter; [|assumption].
      intros a b (Hty & _). unfold is_debit. rewrite Hty. reflexivity. }
    assert (Hlb : labels (first1 :: rest1) = labels (first2 :: rest2)).
    { apply (Forall2_map_eq same_entry); [|assumption]. intros a b (_ & _ & Ht & _). exact Ht. }
    assert (Hlen : length (first1 :: rest1) = length (first2 :: rest2))
      by (eapply Forall2_length; eassumption).
    assert (Hones : map (fun _ : value => one) (first1 :: rest1)
                    = map (fun _ : value => one) (first2 :: rest2)).
    { clear -Hvs. induction Hvs; simpl; congruence. }
    assert (Hall : forallb (fun txn => Num.ltb hundred (amount txn)) (first1 :: rest1)
                   = forallb (fun txn => Num.ltb hundred (amount txn)) (first2 :: rest2)).
    { clear -Hvs. induction Hvs as [|a b l1 l2 Hab _ IH]; [reflexivity|].
      simpl. rewrite (same_entry_amount a b Hab), IH. reflexivity. }
    assert (Hsome : existsb (fun txn => Num.leb five_thousand (amount txn)) (first1 :: rest1)
                    = existsb (fun txn => Num.leb five_thousand (amount txn)) (first2 :: rest2)).
    { clear -Hvs. induction Hvs as [|a b l1 l2 Hab _ IH]; [reflexivity|].
      simpl. rewrite (same_entry_amount a b Hab), IH. reflexivity. }
    destruct Hfirst as (Hty0 & Ham0 & Hto0 & Hc0).
    unfold same_but_record, summarize.
    cbn [totalCredit totalDebit netBalance transactionCount avgTransaction
         categoryBreakdown frequentContact allAbove100 hasLargeTransaction
         highestTransaction].
    rewrite Ham, Hcr, Hdb, Hlb, Hlen, Hones, Hall, Hsome, Hto0.
    repeat (split; [reflexivity|]).
    apply (first_max_related same_entry amount); [apply same_entry_amount|assumption|].
    repeat split; assumption.
  - unfold summarize. cbn [highestTransaction]. unfold highest.
    pose proof (first_max_pair same_entry amount rest1 rest2 same_entry_amount Hrest
                  first1 first2 Hfirst) as Hin.
    change ((first1, first2) :: zip rest1 rest2)
      with (zip (first1 :: rest1) (first2 :: rest2)) in Hin.
    rewrite <- E1, <- E2 in Hin.
    apply (zip_filter_In same_entry valid txns1 txns2) in Hin;
      [|apply same_entry_valid|assumption].
    apply list_elem_of_In, list_elem_of_lookup_1 in Hin as [i Hi].
    apply zip_lookup in Hi. exists i. exact Hi.
Qed.

Lemma only_four_properties_are_read_witness :
  Forall2 same_entry Sample.documented Scenario.relabelled
  ∧ analyzeUPITransactions (VArray Sample.documented)
    = Normal (Some Sample.documented_summary)
  ∧ analyzeUPITransactions (VArray Scenario.relabelled)
    = Normal (Some Scenario.relabelled_summary)
  ∧ same_but_record Sample.documented_summary Scenario.relabelled_summary
  ∧ ∃ i, Sample.documented !! i = Some (highestTransaction Sample.documented_summary)
         ∧ Scenario.relabelled !! i
           = Some (highestTransaction Scenario.relabelled_summary).
Proof.
  assert (H : Forall2 same_entry Sample.documented Scenario.relabelled)
    by (repeat constructor).
  assert (E1 : analyzeUPITransactions (VArray Sample.documented)
               = Normal (Some Sample.documented_summary)) by (vm_compute; reflexivity).
  assert (E2 : analyzeUPITransactions (VArray Scenario.relabelled)
               = Normal (Some Scenario.relabelled_summary)) by (vm_compute; reflexivity).
  split; [exact H|]. split; [exact E1|]. split; [exact E2|].
  pose proof (only_four_properties_are_read Sample.documented Scenario.relabelled H) as Hr.
  rewrite E1, E2 in Hr. exact Hr.
Defined.

(** ** Whole amounts *)

Section WholeRecords.
Import Num NumFacts.

Lemma whole_amounts_map units l :
  whole_amounts units l → amounts l = map of_Z (map units l).
Proof.
  optimize_heap.
  unfold whole_amounts, amounts. induction l as [|x l IH]; intros Hw; [reflexivity|].
  simpl. rewrite (Hw x) by (left; reflexivity).
  rewrite IH by (intros; apply Hw; right; assumption). reflexivity.
Qed.

Lemma whole_units_nonneg units l :
  whole_amounts units l → (∀ txn, In txn l → valid txn = true) →
  Forall (fun z => 0 <= z) (map units l).
Proof.
  intros Hw Hv. apply Forall_forall. intros z Hz%list_elem_of_In.
  apply in_map_iff in Hz as (txn & <- & Hin).
  pose proof (valid_amount_positive txn (Hv txn Hin)) as Hpos.
  rewrite (Hw txn Hin) in Hpos. apply of_Z_positive in Hpos. lia.
Qed.

Lemma total_filter_le {A : Type} (g : A → Z) (P : A → bool) l :
  Forall (fun z => 0 <= z) (map g l) →
  0 <= total (map g (List.filter P l)) <= total (map g l).
Proof.
  induction l as [|x l IH]; intros Hall; simpl; [lia|].
  inversion Hall; subst. specialize (IH ltac:(assumption)).
  destruct (P x); simpl; lia.
Qed.

Lemma whole_amounts_filter units (P : value → bool) l :
  whole_amounts units l → whole_amounts units (List.filter P l).
Proof. intros Hw txn [Hin _]%filter_In. apply Hw, Hin. Qed.

(** The sum of whole amounts is the Number of their total. *)
Lemma whole_sum units l :
  whole_amounts units l → (∀ txn, In txn l → valid txn = true) →
  units_total units l < 2 ^ 53 →
  sum (amounts l) = of_Z (units_total units l).
Proof.
  intros Hw Hv Hlt. rewrite (whole_amounts_map units l Hw).
  apply sum_of_Z; [apply whole_units_nonneg|]; assumption.
Qed.

Lemma whole_sum_filter units (P : value → bool) l :
  whole_amounts units l → (∀ txn, In txn l → valid txn = true) →
  units_total units l < 2 ^ 53 →
  sum (amounts (List.filter P l)) = of_Z (units_total units (List.filter P l))
  ∧ 0 <= units_total units (List.filter P l) <= units_total units l.
Proof.
  intros Hw Hv Hlt.
  pose proof (total_filter_le units P l (whole_units_nonneg units l Hw Hv)) as Hle.
  split; [|exact Hle].
  apply whole_sum.
  - apply whole_amounts_filter, Hw.
  - intros txn [Hin _]%filter_In. apply Hv, Hin.
  - unfold units_total in *. lia.
Qed.

(** The numbers filed under a key are those of the records filed under it. *)
Lemma filed_under_records {B : Type} (key : value → completion string) (g : value → B) k l :
  ∀ ks, mapM key l = Normal ks →
        filed_under k (zip ks (map g l)) = map g (filed_records key k l).
Proof.
  unfold filed_under, filed_records.
  induction l as [|x l IH]; intros ks Hm; simpl in Hm.
  - injection Hm as <-. reflexivity.
  - destruct (key x) as [k0|e] eqn:Ex; [|discriminate]. simpl in Hm.
    destruct (mapM key l) as [ks'|e]; [|discriminate]. simpl in Hm.
    injection Hm as <-. simpl. rewrite Ex.
    destruct (bool_decide (k0 = k)); simpl; rewrite (IH ks' eq_refl); reflexivity.
Qed.

End WholeRecords.

(** ** Reordering the input *)

Section Reordering.
Import Num NumFacts.

Lemma filter_perm {A : Type} (P : A → bool) l1 l2 :
  Permutation l1 l2 → Permutation (List.filter P l1) (List.filter P l2).
Proof.
  induction 1 as [|x l1 l2 _ IH|x y l|l1 l2 l3 _ IH1 _ IH2]; simpl.
  - constructor.
  - destruct (P x); [constructor|]; assumption.
  - destruct (P x), (P y); try reflexivity. constructor.
  - etransitivity; eassumption.
Qed.

Lemma forallb_perm {A : Type} (p : A → bool) l1 l2 :
  Permutation l1 l2 → forallb p l1 = forallb p l2.
Proof.
  induction 1 as [|x l1 l2 _ IH|x y l|l1 l2 l3 _ IH1 _ IH2]; simpl.
  - reflexivity.
  - rewrite IH. reflexivity.
  - destruct (p x), (p y); reflexivity.
  - congruence.
Qed.

Lemma existsb_perm {A : Type} (p : A → bool) l1 l2 :
  Permutation l1 l2 → existsb p l1 = existsb p l2.
Proof.
  induction 1 as [|x l1 l2 _ IH|x y l|l1 l2 l3 _ IH1 _ IH2]; simpl.
  - reflexivity.
  - rewrite IH. reflexivity.
  - destruct (p x), (p y); reflexivity.
  - congruence.
Qed.

Lemma mapM_perm_Normal {A B : Type} (f : A → completion B) l1 l2 :
  Permutation l1 l2 → (∃ ks, mapM f l1 = Normal ks) → ∃ ks, mapM f l2 = Normal ks.
Proof.
  intros Hp H1. apply mapM_Normal. intros x Hx.
  apply (proj1 (mapM_Normal f l1) H1). eapply Permutation_in; [symmetry|]; eassumption.
Qed.

Lemma units_total_perm units l1 l2 :
  Permutation l1 l2 → units_total units l1 = units_total units l2.
Proof. intros Hp. apply total_perm, Permutation_map, Hp. Qed.

Lemma leb_antisym x y :
  positive_number x → positive_number y →
  leb x y = true → leb y x = true → x = y.
Proof.
  intros Hx Hy. rewrite !leb_le_pos by assumption.
  destruct (positive_cases x Hx) as [->|(m1 & e1 & ->)];
  destruct (positive_cases y Hy) as [->|(m2 & e2 & ->)]; simpl; try tauto.
  intros H1 H2. assert (e1 = e2) by lia. subst e2.
  assert (m1 = m2) by lia. subst m2. reflexivity.
Qed.

(** The greatest amount does not depend on the order. *)
Lemma first_max_perm {A : Type} (f : A → number) first1 rest1 first2 rest2 :
  (∀ x, In x (first1 :: rest1) → positive_number (f x)) →
  Permutation (first1 :: rest1) (first2 :: rest2) →
  f (first_max f first1 rest1) = f (first_max f first2 rest2).
Proof.
  intros Hpos1 Hp.
  assert (Hpos2 : ∀ x, In x (first2 :: rest2) → positive_number (f x)).
  { intros x Hx. apply Hpos1. eapply Permutation_in; [symmetry|]; eassumption. }
  destruct (first_max_spec f first1 rest1 Hpos1) as (i1 & Hi1 & Hmax1 & _).
  destruct (first_max_spec f first2 rest2 Hpos2) as (i2 & Hi2 & Hmax2 & _).
  assert (Hin1 : In (first_max f first1 rest1) (first1 :: rest1))
    by (apply list_elem_of_In; eapply list_elem_of_lookup_2, Hi1).
  assert (Hin2 : In (first_max f first2 rest2) (first2 :: rest2))
    by (apply list_elem_of_In; eapply list_elem_of_lookup_2, Hi2).
  apply leb_antisym; auto.
  - apply Hmax2. eapply Permutation_in; eassumption.
  - apply Hmax1. eapply Permutation_in; [symmetry|]; eassumption.
Qed.

Lemma key_of_record (key : value → completion string) l ks k :
  mapM key l = Normal ks → (In k ks ↔ ∃ txn, In txn l ∧ key txn = Normal k).
Proof.
  intros Hm. split.
  - intros Hin. eapply mapM_In; eassumption.
  - intros (txn & Hin & Hk).
    destruct (mapM_In_key key l ks txn Hm Hin) as (k' & Hk' & Hfx). congruence.
Qed.

(** The cells of the breakdown of whole amounts. *)
Lemma whole_breakdown_cell units l cks k :
  mapM category_key l = Normal cks →
  whole_amounts units l → (∀ txn, In txn l → valid txn = true) →
  units_total units l < 2 ^ 53 →
  In k cks → Object_prototype k = None →
  accumulate (zip cks (amounts l)) ∅ !! k
  = Some (CNum (of_Z (units_total units (filed_records category_key k l)))).
Proof.
  intros Hm Hw Hv Hlt Hin Hk.
  pose proof (mapM_length _ _ _ Hm) as Hlen.
  rewrite category_lookup; try assumption.
  - unfold amounts. rewrite (filed_under_records category_key amount k l cks Hm).
    fold (amounts (filed_records category_key k l)). unfold filed_records.
    rewrite (proj1 (whole_sum_filter units _ l Hw Hv Hlt)). reflexivity.
  - unfold amounts. rewrite zip_keys_snd by assumption.
    apply Forall_forall. intros x Hx%list_elem_of_In.
    apply in_map_iff in Hx as (txn & <- & Hx).
    apply positive_nonneg, valid_amount_positive, Hv, Hx.
  - unfold amounts. rewrite zip_keys_fst by assumption. assumption.
Qed.

End Reordering.

(** X5: the order of the records matters only for ties and for rounding.
    Two arrays that hold the same elements in different orders give the
    same kind of outcome, and their summaries agree on transactionCount,
    on both flags, on the amount of highestTransaction and on the keys of
    categoryBreakdown.  When the amounts are whole numbers whose total is
    below 2^53, they agree on the totals, the net balance and the average
    as well, and on categoryBreakdown when no key names a property of
    Object.prototype. *)
Theorem reordering_the_records (txns1 txns2 : list value) (units : value → Z) :
  Permutation txns1 txns2 →
  match analyzeUPITransactions (VArray txns1), analyzeUPITransactions (VArray txns2) with
  | Normal None, Normal None => True
  | Throw _, Throw _ => True
  | Normal (Some s1), Normal (Some s2) =>
      transactionCount s1 = transactionCount s2
      ∧ allAbove100 s1 = allAbove100 s2
      ∧ hasLargeTransaction s1 = hasLargeTransaction s2
      ∧ amount (highestTransaction s1) = amount (highestTransaction s2)
      ∧ (∀ k, is_Some (categoryBreakdown s1 !! k) ↔ is_Some (categoryBreakdown s2 !! k))
      ∧ (whole_amounts units (valid_records txns1) →
         units_total units (valid_records txns1) < 2 ^ 53 →
         totalCredit s1 = totalCredit s2
         ∧ totalDebit s1 = totalDebit s2
         ∧ netBalance s1 = netBalance s2
         ∧ avgTransaction s1 = avgTransaction s2
         ∧ ((∀ k, is_Some (categoryBreakdown s1 !! k) → Object_prototype k = None) →
            categoryBreakdown s1 = categoryBreakdown s2))
  | _, _ => False
  end.
Proof.
  intros Hperm. rewrite !analyze_array.
  pose proof (filter_perm valid _ _ Hperm) as Hp.
  fold (valid_records txns1) in Hp. fold (valid_records txns2) in Hp.
  pose proof (valid_records_valid txns1) as Hv1.
  pose proof (valid_records_valid txns2) as Hv2.
  destruct (valid_records txns1) as [|first1 rest1] eqn:E1;
    destruct (valid_records txns2) as [|first2 rest2] eqn:E2.
  - exact I.
  - apply Permutation_nil in Hp. discriminate.
  - symmetry in Hp. apply Permutation_nil in Hp. discriminate.
  - set (vs1 := first1 :: rest1) in *. set (vs2 := first2 :: rest2) in *.
    destruct (mapM category_key vs1) as [cks1|e1] eqn:Hc1.
    2: { destruct (mapM category_key vs2) as [cks2|e2] eqn:Hc2; [|exact I].
         destruct (mapM_perm_Normal category_key vs2 vs1 ltac:(symmetry; exact Hp)
                     ltac:(eauto)) as [ks Hks]. congruence. }
    destruct (mapM_perm_Normal category_key vs1 vs2 Hp ltac:(eauto)) as [cks2 Hc2].
    rewrite Hc2. cbv [bind].
    destruct (mapM contact_key vs1) as [tks1|e1] eqn:Ht1.
    2: { destruct (mapM contact_key vs2) as [tks2|e2] eqn:Ht2; [|exact I].
         destruct (mapM_perm_Normal contact_key vs2 vs1 ltac:(symmetry; exact Hp)
                     ltac:(eauto)) as [ks Hks]. congruence. }
    destruct (mapM_perm_Normal contact_key vs1 vs2 Hp ltac:(eauto)) as [tks2 Ht2].
    rewrite Ht2.
    pose proof (mapM_length _ _ _ Hc1) as Hlen1.
    pose proof (mapM_length _ _ _ Hc2) as Hlen2.
    assert (Hkeys : ∀ k, is_Some (accumulate (zip cks1 (amounts vs1)) ∅ !! k)
                         ↔ is_Some (accumulate (zip cks2 (amounts vs2)) ∅ !! k)).
    { intros k. rewrite !accumulate_keys, !lookup_empty. unfold amounts.
      rewrite !zip_keys_fst by assumption.
      rewrite (key_of_record category_key vs1 cks1 k Hc1).
      rewrite (key_of_record category_key vs2 cks2 k Hc2).
      split; (intros [[c Hc]|[(txn & Hin & Hk) Hne]]; [discriminate|]);
        right; (split; [|assumption]); exists txn; (split; [|assumption]).
      - eapply Permutation_in; eassumption.
      - eapply Permutation_in; [symmetry|]; eassumption. }
    unfold summarize. fold vs1 vs2.
    cbn [totalCredit totalDebit netBalance transactionCount avgTransaction
         categoryBreakdown allAbove100 hasLargeTransaction highestTransaction].
    split; [apply Permutation_length, Hp|].
    split; [apply forallb_perm, Hp|].
    split; [apply existsb_perm, Hp|].
    split.
    { unfold highest. apply first_max_perm; [|exact Hp].
      intros x Hx. apply valid_amount_positive, Hv1, Hx. }
    split; [exact Hkeys|].
    intros Hw1 Hlt1.
    assert (Hw2 : whole_amounts units vs2).
    { intros txn Hin. apply Hw1. eapply Permutation_in; [symmetry|]; eassumption. }
    assert (Hlt2 : units_total units vs2 < 2 ^ 53)
      by (rewrite <- (units_total_perm units vs1 vs2 Hp); assumption).
    assert (Hcr : sum (amounts (List.filter is_credit vs1))
                  = sum (amounts (List.filter is_credit vs2))).
    { rewrite (proj1 (whole_sum_filter units is_credit vs1 Hw1 Hv1 Hlt1)).
      rewrite (proj1 (whole_sum_filter units is_credit vs2 Hw2 Hv2 Hlt2)).
      f_equal. apply units_total_perm, filter_perm, Hp. }
    assert (Hdb : sum (amounts (List.filter is_debit vs1))
                  = sum (amounts (List.filter is_debit vs2))).
    { rewrite (proj1 (whole_sum_filter units is_debit vs1 Hw1 Hv1 Hlt1)).
      rewrite (proj1 (whole_sum_filter units is_debit vs2 Hw2 Hv2 Hlt2)).
      f_equal. apply units_total_perm, filter_perm, Hp. }
    assert (Hall : sum (amounts vs1) = sum (amounts vs2)).
    { rewrite (whole_sum units vs1 Hw1 Hv1 Hlt1), (whole_sum units vs2 Hw2 Hv2 Hlt2).
      f_equal. apply units_total_perm, Hp. }
    rewrite Hcr, Hdb, Hall, (Permutation_length Hp).
    repeat (split; [reflexivity|]).
    intros Hown. apply map_eq. intros k.
    destruct (accumulate (zip cks1 (amounts vs1)) ∅ !! k) as [c|] eqn:Ek.
    + assert (Hk : Object_prototype k = None) by (apply Hown; rewrite Ek; eauto).
      assert (Hs1 : is_Some (accumulate (zip cks1 (amounts vs1)) ∅ !! k))
        by (rewrite Ek; eauto).
      pose proof (proj1 (Hkeys k) Hs1) as Hs2.
      assert (Hin1 : In k cks1).
      { apply accumulate_lookup_Some in Hs1. unfold amounts in Hs1.
        rewrite zip_keys_fst in Hs1 by assumption. exact Hs1. }
      assert (Hin2 : In k cks2).
      { apply accumulate_lookup_Some in Hs2. unfold amounts in Hs2.
        rewrite zip_keys_fst in Hs2 by assumption. exact Hs2. }
      rewrite <- Ek.
      rewrite (whole_breakdown_cell units vs1 cks1 k) by assumption.
      rewrite (whole_breakdown_cell units vs2 cks2 k) by assumption.
      do 3 f_equal. apply units_total_perm. unfold filed_records.
      apply filter_perm, Hp.
    + destruct (accumulate (zip cks2 (amounts vs2)) ∅ !! k) as [c|] eqn:Ek2; [|reflexivity].
      assert (Hs : is_Some (accumulate (zip cks1 (amounts vs1)) ∅ !! k)).
      { apply Hkeys. rewrite Ek2. eauto. }
      rewrite Ek in Hs. destruct Hs. discriminate.
Qed.

Lemma reordering_the_records_witness :
  Permutation Sample.documented Scenario.shuffled
  ∧ analyzeUPITransactions (VArray Sample.documented)
    = Normal (Some Sample.documented_summary)
  ∧ analyzeUPITransactions (VArray Scenario.shuffled)
    = Normal (Some Scenario.shuffled_summary)
  ∧ transactionCount Sample.documented_summary
    = transactionCount Scenario.shuffled_summary
  ∧ amount (highestTransaction Sample.documented_summary)
    = amount (highestTransaction Scenario.shuffled_summary)
  ∧ totalCredit Sample.documented_summary = totalCredit Scenario.shuffled_summary
  ∧ avgTransaction Sample.documented_summary = avgTransaction Scenario.shuffled_summary.
Proof.
  assert (Hp : Permutation Sample.documented Scenario.shuffled).
  { symmetry. apply (Permutation_cons_append [Sample.T1; Sample.T2] Sample.T3). }
  assert (E1 : analyzeUPITransactions (VArray Sample.documented)
               = Normal (Some Sample.documented_summary)) by (vm_compute; reflexivity).
  assert (E2 : analyzeUPITransactions (VArray Scenario.shuffled)
               = Normal (Some Scenario.shuffled_summary)) by (vm_compute; reflexivity).
  split; [exact Hp|]. split; [exact E1|]. split; [exact E2|].
  pose proof (reordering_the_records Sample.documented Scenario.shuffled rupees Hp) as Hr.
  rewrite E1, E2 in Hr.
  destruct Hr as (Hn & _ & _ & Hh & _ & Hw).
  assert (Hwa : whole_amounts rupees (valid_records Sample.documented)).
  { intros txn Hin. vm_compute in Hin.
    destruct Hin as [<-|[<-|[<-|[]]]]; vm_compute; reflexivity. }
  assert (Hlt : units_total rupees (valid_records Sample.documented) < 2 ^ 53)
    by (vm_compute; reflexivity).
  destruct (Hw Hwa Hlt) as (Hc & _ & _ & Ha & _).
  split; [exact Hn|]. split; [exact Hh|]. split; [exact Hc|exact Ha].
Defined.

(** ** Joining two inputs *)

Section Joining.
Import Num NumFacts.

Lemma valid_records_app txns1 txns2 :
  valid_records (txns1 ++ txns2) = valid_records txns1 ++ valid_records txns2.
Proof. apply List.filter_app. Qed.

Lemma mapM_app {A B : Type} (f : A → completion B) l1 l2 ks1 ks2 :
  mapM f l1 = Normal ks1 → mapM f l2 = Normal ks2 →
  mapM f (l1 ++ l2) = Normal (ks1 ++ ks2).
Proof.
  revert ks1. induction l1 as [|x l1 IH]; intros ks1 H1 H2; simpl in *.
  - injection H1 as <-. assumption.
  - destruct (f x) as [k|e]; [|discriminate]. simpl in *.
    destruct (mapM f l1) as [ks|e]; [|discriminate]. simpl in *.
    injection H1 as <-. rewrite (IH ks eq_refl H2). reflexivity.
Qed.

Lemma leb_not_ltb x y :
  positive_number x → positive_number y → leb y x = true → ltb x y = false.
Proof.
  intros Hx Hy Hle. destruct (ltb x y) eqn:E; [|reflexivity].
  exfalso. revert Hle E. order_pos2 x y Hx Hy.
Qed.

Lemma first_max_In {A : Type} (f : A → number) rest :
  ∀ first, In (first_max f first rest) (first :: rest).
Proof.
  unfold first_max. induction rest as [|x rest IH]; intros first; [left; reflexivity|].
  cbn [fold_left]. destruct (ltb (f first) (f x)).
  - right. apply IH.
  - destruct (IH first) as [H|H]; [left; assumption|right; right; assumption].
Qed.

(** Scanning on from a running choice [m] over [b :: l] ends with the
    greatest element of [b :: l] when it is greater than [m], and with [m]
    otherwise. *)
Lemma first_max_continue {A : Type} (f : A → number) l :
  ∀ b m,
    positive_number (f m) →
    (∀ x, In x (b :: l) → positive_number (f x)) →
    fold_left (fun max x => if ltb (f max) (f x) then x else max) (b :: l) m
    = if ltb (f m) (f (first_max f b l)) then first_max f b l else m.
Proof.
  induction l as [|x l IH]; intros b m Hm Hpos; [reflexivity|].
  assert (Hb : positive_number (f b)) by (apply Hpos; left; reflexivity).
  assert (Hl : ∀ y, In y (x :: l) → positive_number (f y))
    by (intros; apply Hpos; right; assumption).
  assert (HH : positive_number (f (first_max f x l))) by (apply Hl, first_max_In).
  change (fold_left (fun max y => if ltb (f max) (f y) then y else max) (b :: x :: l) m)
    with (fold_left (fun max y => if ltb (f max) (f y) then y else max) (x :: l)
            (if ltb (f m) (f b) then b else m)).
  change (first_max f b (x :: l))
    with (fold_left (fun max y => if ltb (f max) (f y) then y else max) (x :: l) b).
  rewrite (IH x b Hb Hl).
  rewrite (IH x (if ltb (f m) (f b) then b else m)) by (destruct (ltb (f m) (f b)); auto).
  set (H := first_max f x l) in *.
  destruct (ltb (f m) (f b)) eqn:Emb; destruct (ltb (f b) (f H)) eqn:EbH.
  - rewrite (ltb_trans (f m) (f b) (f H)) by assumption. reflexivity.
  - rewrite Emb. reflexivity.
  - reflexivity.
  - rewrite Emb.
    rewrite (leb_not_ltb (f m) (f H)); auto.
    apply (leb_trans _ (f b)); auto; apply not_ltb_leb; auto.
Qed.

Lemma first_max_app {A : Type} (f : A → number) first1 rest1 first2 rest2 :
  (∀ x, In x (first1 :: rest1) → positive_number (f x)) →
  (∀ x, In x (first2 :: rest2) → positive_number (f x)) →
  first_max f first1 (rest1 ++ first2 :: rest2)
  = if ltb (f (first_max f first1 rest1)) (f (first_max f first2 rest2))
    then first_max f first2 rest2
    else first_max f first1 rest1.
Proof.
  intros H1 H2. unfold first_max at 1. rewrite fold_left_app.
  fold (first_max f first1 rest1).
  apply first_max_continue; [|assumption].
  apply H1, first_max_In.
Qed.

Lemma zip_app_keys {A B : Type} (ks1 ks2 : list A) (l1 l2 : list B) :
  length ks1 = length l1 → zip (ks1 ++ ks2) (l1 ++ l2) = zip ks1 l1 ++ zip ks2 l2.
Proof.
  revert l1. induction ks1 as [|k ks1 IH]; intros [|x l1] Hlen; try discriminate; [reflexivity|].
  simpl. f_equal. apply IH. injection Hlen. auto.
Qed.

End Joining.

(** X6: the summary of two inputs joined, from their summaries.  When both
    inputs have a summary so has their concatenation: its count is the sum
    of the counts, allAbove100 the conjunction and hasLargeTransaction the
    disjunction of the flags, its highest transaction that of the second
    input when its amount is greater and that of the first input otherwise,
    its totals continue the sums of the first input with the amounts of the
    second, and its categories are those of both.  With whole amounts whose
    total is below 2^53 its totals are the sums of the totals. *)
Theorem summary_of_joined_inputs (txns1 txns2 : list value) (s1 s2 : summary) :
  analyzeUPITransactions (VArray txns1) = Normal (Some s1) →
  analyzeUPITransactions (VArray txns2) = Normal (Some s2) →
  ∃ s,
    analyzeUPITransactions (VArray (txns1 ++ txns2)) = Normal (Some s)
    ∧ transactionCount s = (transactionCount s1 + transactionCount s2)%nat
    ∧ allAbove100 s = allAbove100 s1 && allAbove100 s2
    ∧ hasLargeTransaction s = hasLargeTransaction s1 || hasLargeTransaction s2
    ∧ highestTransaction s
      = (if Num.ltb (amount (highestTransaction s1)) (amount (highestTransaction s2))
         then highestTransaction s2 else highestTransaction s1)
    ∧ totalCredit s
      = fold_left Num.add (amounts (List.filter is_credit (valid_records txns2)))
          (totalCredit s1)
    ∧ totalDebit s
      = fold_left Num.add (amounts (List.filter is_debit (valid_records txns2)))
          (totalDebit s1)
    ∧ (∀ k, is_Some (categoryBreakdown s !! k)
            ↔ is_Some (categoryBreakdown s1 !! k) ∨ is_Some (categoryBreakdown s2 !! k))
    ∧ (∀ units,
         whole_amounts units (valid_records (txns1 ++ txns2)) →
         units_total units (valid_records (txns1 ++ txns2)) < 2 ^ 53 →
         totalCredit s = Num.add (totalCredit s1) (totalCredit s2)
         ∧ totalDebit s = Num.add (totalDebit s1) (totalDebit s2)).
Proof.
  intros Hs1 Hs2.
  destruct (analyze_summary _ s1 Hs1)
    as (txns1' & first1 & rest1 & cks1 & tks1 & Heq1 & Hv1 & Hc1 & Ht1 & ->).
  destruct (analyze_summary _ s2 Hs2)
    as (txns2' & first2 & rest2 & cks2 & tks2 & Heq2 & Hv2 & Hc2 & Ht2 & ->).
  injection Heq1 as <-. injection Heq2 as <-.
  pose proof (valid_records_valid txns1) as Hval1.
  pose proof (valid_records_valid txns2) as Hval2.
  rewrite Hv1 in Hval1. rewrite Hv2 in Hval2.
  set (vs1 := first1 :: rest1) in *. set (vs2 := first2 :: rest2) in *.
  pose proof (mapM_length _ _ _ Hc1) as Hlen1.
  pose proof (mapM_length _ _ _ Hc2) as Hlen2.
  assert (Hv : valid_records (txns1 ++ txns2) = first1 :: (rest1 ++ vs2)).
  { rewrite valid_records_app, Hv1, Hv2. reflexivity. }
  exists (summarize first1 (rest1 ++ vs2) (cks1 ++ cks2) (tks1 ++ tks2)).
  split.
  { rewrite analyze_array, Hv.
    change (first1 :: rest1 ++ vs2) with (vs1 ++ vs2).
    rewrite (mapM_app category_key vs1 vs2 cks1 cks2 Hc1 Hc2).
    rewrite (mapM_app contact_key vs1 vs2 tks1 tks2 Ht1 Ht2). reflexivity. }
  rewrite Hv, Hv2. unfold summarize.
  cbn [totalCredit totalDebit netBalance transactionCount avgTransaction
       categoryBreakdown allAbove100 hasLargeTransaction highestTransaction].
  change (first1 :: rest1 ++ vs2) with (vs1 ++ vs2). fold vs1 vs2.
  split; [apply length_app|].
  split; [apply forallb_app|].
  split; [apply existsb_app|].
  split.
  { unfold highest. apply first_max_app.
    - intros x Hx. apply valid_amount_positive, Hval1, Hx.
    - intros x Hx. apply valid_amount_positive, Hval2, Hx. }
  split.
  { unfold sum, amounts. rewrite List.filter_app, map_app, fold_left_app. reflexivity. }
  split.
  { unfold sum, amounts. rewrite List.filter_app, map_app, fold_left_app. reflexivity. }
  split.
  { intros k. rewrite !accumulate_keys, !lookup_empty. unfold amounts.
    rewrite !zip_keys_fst by (rewrite ?length_app; lia).
    rewrite in_app_iff. split.
    - intros [[c Hc]|[[Hin|Hin] Hne]]; [discriminate| |]; [left|right]; right; auto.
    - intros [[[c Hc]|[Hin Hne]]|[[c Hc]|[Hin Hne]]]; try discriminate; right; auto. }
  intros units Hw Hlt.
  assert (Hval : ∀ txn, In txn (vs1 ++ vs2) → valid txn = true).
  { intros txn [Hin|Hin]%in_app_or; auto. }
  assert (Hw1 : whole_amounts units vs1) by (intros txn Hin; apply Hw, in_or_app; auto).
  assert (Hw2 : whole_amounts units vs2) by (intros txn Hin; apply Hw, in_or_app; auto).
  assert (Htot : units_total units (vs1 ++ vs2)
                 = units_total units vs1 + units_total units vs2).
  { unfold units_total. rewrite map_app. apply total_app. }
  pose proof (total_nonneg _ (whole_units_nonneg units vs1 Hw1 Hval1)) as Hn1.
  pose proof (total_nonneg _ (whole_units_nonneg units vs2 Hw2 Hval2)) as Hn2.
  fold (units_total units vs1) in Hn1. fold (units_total units vs2) in Hn2.
  assert (Hlt1 : units_total units vs1 < 2 ^ 53) by lia.
  assert (Hlt2 : units_total units vs2 < 2 ^ 53) by lia.
  assert (Hpart : ∀ P : value → bool,
            sum (amounts (List.filter P (vs1 ++ vs2)))
            = Num.add (sum (amounts (List.filter P vs1))) (sum (amounts (List.filter P vs2)))).
  { intros P.
    destruct (whole_sum_filter units P (vs1 ++ vs2) Hw Hval Hlt) as [-> Hle].
    destruct (whole_sum_filter units P vs1 Hw1 Hval1 Hlt1) as [-> Hle1].
    destruct (whole_sum_filter units P vs2 Hw2 Hval2 Hlt2) as [-> Hle2].
    assert (Hsplit : units_total units (List.filter P (vs1 ++ vs2))
                     = units_total units (List.filter P vs1)
                       + units_total units (List.filter P vs2)).
    { unfold units_total. rewrite List.filter_app, map_app. apply total_app. }
    rewrite Hsplit, add_of_Z; [reflexivity|lia|lia|lia]. }
  split; apply Hpart.
Qed.

Lemma summary_of_joined_inputs_witness :
  analyzeUPITransactions (VArray Sample.documented)
  = Normal (Some Sample.documented_summary)
  ∧ analyzeUPITransactions (VArray Scenario.shuffled)
    = Normal (Some Scenario.shuffled_summary)
  ∧ ∃ s,
      analyzeUPITransactions (VArray (Sample.documented ++ Scenario.shuffled))
      = Normal (Some s)
      ∧ transactionCount s = 6%nat
      ∧ highestTransaction s = Sample.T1
      ∧ totalCredit s = Num.of_Z 10000.
Proof.
  assert (H1 : analyzeUPITransactions (VArray Sample.documented)
               = Normal (Some Sample.documented_summary)) by (vm_compute; reflexivity).
  assert (H2 : analyzeUPITransactions (VArray Scenario.shuffled)
               = Normal (Some Scenario.shuffled_summary))
    by (vm_compute; reflexivity).
  split; [exact H1|]. split; [exact H2|].
  destruct (summary_of_joined_inputs Sample.documented Scenario.shuffled _ _ H1 H2)
    as (s & Hs & Hn & _ & _ & Hh & Hc & _).
  exists s. split; [exact Hs|].
  split; [rewrite Hn; reflexivity|].
  split; [rewrite Hh; vm_compute; reflexivity|].
  rewrite Hc. vm_compute. reflexivity.
Defined.

(** ** The flags and the highest transaction *)

Section Flags.
Import Num NumFacts.

Lemma hundred_positive : positive_number hundred.
Proof. reflexivity. Qed.

Lemma five_thousand_positive : positive_number five_thousand.
Proof. reflexivity. Qed.

Lemma hundred_below_five_thousand : ltb hundred five_thousand = true.
Proof. reflexivity. Qed.

(** Some amount is at least [bound] exactly when the greatest amount is. *)
Lemma existsb_first_max {A : Type} (f : A → number) bound first rest :
  positive_number bound →
  (∀ x, In x (first :: rest) → positive_number (f x)) →
  existsb (fun x => leb bound (f x)) (first :: rest)
  = leb bound (f (first_max f first rest)).
Proof.
  intros Hb Hpos.
  destruct (first_max_spec f first rest Hpos) as (i & Hi & Hmax & _).
  assert (Hin : In (first_max f first rest) (first :: rest))
    by (apply list_elem_of_In; eapply list_elem_of_lookup_2, Hi).
  apply eq_true_iff_eq. rewrite existsb_exists. split.
  - intros (x & Hx & Hle). apply (leb_trans _ (f x)); auto.
  - intros Hle. eauto.
Qed.

End Flags.

(** X7: the flags and the highest transaction agree.  hasLargeTransaction
    holds exactly when the amount of highestTransaction is at least 5000;
    when allAbove100 holds, that amount is above 100; and a summary with
    hasLargeTransaction but without allAbove100 counts at least two
    records. *)
Theorem flags_agree_with_highest_transaction (txns : list value) (s : summary) :
  analyzeUPITransactions (VArray txns) = Normal (Some s) →
  hasLargeTransaction s = Num.leb five_thousand (amount (highestTransaction s))
  ∧ (allAbove100 s = true → Num.ltb hundred (amount (highestTransaction s)) = true)
  ∧ (hasLargeTransaction s = true → allAbove100 s = false →
     (2 <= transactionCount s)%nat).
Proof.
  intros Hs.
  destruct (analyze_summary _ s Hs)
    as (txns' & first & rest & cks & tks & Heq & Hv & _ & _ & ->).
  injection Heq as <-.
  pose proof (valid_records_valid txns) as Hval. rewrite Hv in Hval.
  assert (Hpos : ∀ x, In x (first :: rest) → Num.positive_number (amount x))
    by (intros x Hx; apply valid_amount_positive, Hval, Hx).
  unfold summarize.
  cbn [hasLargeTransaction allAbove100 highestTransaction transactionCount].
  unfold highest.
  split; [apply existsb_first_max; [apply five_thousand_positive|assumption]|].
  split.
  - intros Hall. rewrite forallb_forall in Hall. apply Hall, first_max_In.
  - intros Hlarge Hlow. destruct rest as [|second rest]; [|simpl; lia].
    exfalso. cbn [existsb forallb] in Hlarge, Hlow.
    rewrite orb_false_r in Hlarge. rewrite andb_true_r in Hlow.
    assert (Hp : Num.positive_number (amount first)) by (apply Hpos; left; reflexivity).
    rewrite (NumFacts.ltb_leb_trans hundred five_thousand (amount first)) in Hlow;
      [discriminate|apply hundred_positive|apply five_thousand_positive|assumption
      |apply hundred_below_five_thousand|assumption].
Qed.

Lemma flags_agree_with_highest_transaction_witness :
  analyzeUPITransactions (VArray Sample.documented)
  = Normal (Some Sample.documented_summary)
  ∧ hasLargeTransaction Sample.documented_summary = true
  ∧ Num.leb five_thousand (amount (highestTransaction Sample.documented_summary)) = true
  ∧ (2 <= transactionCount Sample.documented_summary)%nat.
Proof.
  assert (Hs : analyzeUPITransactions (VArray Sample.documented)
               = Normal (Some Sample.documented_summary)) by (vm_compute; reflexivity).
  destruct (flags_agree_with_highest_transaction Sample.documented
              Sample.documented_summary Hs) as (Hlarge & _ & Htwo).
  split; [exact Hs|].
  split; [vm_compute; reflexivity|].
  split; [rewrite <- Hlarge; vm_compute; reflexivity|].
  apply Htwo; vm_compute; reflexivity.
Defined.

(** ** How many records are counted *)

Section Counting.

Lemma filter_length_all {A : Type} (P : A → bool) l :
  length (List.filter P l) = length l ↔ ∀ x, In x l → P x = true.
Proof.
  induction l as [|x l IH]; simpl.
  - split; [intros _ y []|reflexivity].
  - pose proof (List.filter_length_le P l) as Hle.
    destruct (P x) eqn:Ex; simpl.
    + split.
      * intros Hlen y [<-|Hy]; [assumption|]. apply IH; [lia|assumption].
      * intros Hall. f_equal. apply IH. intros y Hy. apply Hall. right. assumption.
    + split; [lia|]. intros Hall. rewrite Hall in Ex by (left; reflexivity). discriminate.
Qed.

End Counting.

(** X8: transactionCount is at least 1 and at most the length of the input,
    and it is the length of the input exactly when every element is a valid
    record. *)
Theorem transaction_count_bounds (txns : list value) (s : summary) :
  analyzeUPITransactions (VArray txns) = Normal (Some s) →
  (1 <= transactionCount s <= length txns)%nat
  ∧ (transactionCount s = length txns ↔ ∀ txn, In txn txns → valid txn = true).
Proof.
  intros Hs.
  destruct (analyze_summary _ s Hs)
    as (txns' & first & rest & cks & tks & Heq & Hv & _ & _ & ->).
  injection Heq as <-.
  unfold summarize. cbn [transactionCount]. rewrite <- Hv.
  split.
  - split; [rewrite Hv; simpl; lia|apply valid_records_length].
  - apply filter_length_all.
Qed.

Lemma transaction_count_bounds_witness :
  analyzeUPITransactions (VArray Sample.noisy) = Normal (Some Sample.documented_summary)
  ∧ (1 <= transactionCount Sample.documented_summary <= length Sample.noisy)%nat
  ∧ transactionCount Sample.documented_summary = 3%nat
  ∧ length Sample.noisy = 8%nat.
Proof.
  assert (Hs : analyzeUPITransactions (VArray Sample.noisy)
               = Normal (Some Sample.documented_summary)) by (vm_compute; reflexivity).
  split; [exact Hs|].
  split; [apply (transaction_count_bounds Sample.noisy _ Hs)|].
  split; reflexivity.
Defined.

(** ** Differences of integers, and Numbers that are never NaN *)

Section SignedIntegers.
Import Num NumFacts.

Lemma binary_round_aux_signed sx m e l r e' :
  binary_round_aux prec emax false m e l = S754_finite false r e' →
  binary_round_aux prec emax sx m e l = S754_finite sx r e'.
Proof.
  unfold binary_round_aux.
  destruct (shr_fexp prec emax m e l) as [mrs1 e1].
  destruct (shr_fexp prec emax _ e1 loc_Exact) as [mrs2 e2].
  destruct (shr_m mrs2); try discriminate.
  destruct (e2 <=? emax - prec); try discriminate.
  intros [= <- <-]. reflexivity.
Qed.

Lemma binary_round_signed sx M e r e' :
  binary_round prec emax false M e = S754_finite false r e' →
  binary_round prec emax sx M e = S754_finite sx r e'.
Proof.
  unfold binary_round. destruct (shl_align _ _ _) as [mz ez].
  apply binary_round_aux_signed.
Qed.

Lemma binary_round_negative M e q :
  e <= 0 → Zpos M = q * 2 ^ (- e) → 0 < q < 2 ^ 53 →
  binary_round prec emax true M e = SFopp (normal_form q).
Proof.
  intros He HM Hq. pose proof (binary_round_integer M e q He HM Hq) as Hr.
  unfold normal_form in *. apply (binary_round_signed true) in Hr. exact Hr.
Qed.

Lemma of_Z_negative q : 0 < q < 2 ^ 53 → of_Z (- q) = SFopp (normal_form q).
Proof.
  intros Hq. unfold of_Z, binary_normalize.
  destruct q as [|p|p]; try lia. simpl Z.opp.
  apply binary_round_negative; [lia| |assumption]. simpl. lia.
Qed.

(** Subtracting two non-negative integers below 2^53 is exact. *)
Lemma sub_of_Z a b :
  0 <= a < 2 ^ 53 → 0 <= b < 2 ^ 53 → sub (of_Z a) (of_Z b) = of_Z (a - b).
Proof.
  intros Ha Hb.
  destruct (Z.eq_dec b 0) as [->|Hb0].
  { rewrite Z.sub_0_r. destruct (Z.eq_dec a 0) as [->|Ha0]; [reflexivity|].
    rewrite !(of_Z_normal_form a) by lia. reflexivity. }
  destruct (Z.eq_dec a 0) as [->|Ha0].
  { rewrite Z.sub_0_l, of_Z_negative, (of_Z_normal_form b) by lia. reflexivity. }
  rewrite (of_Z_normal_form a), (of_Z_normal_form b) by lia.
  destruct (normal_form_mantissa a ltac:(lia)) as (Hla & Hra & _).
  destruct (normal_form_mantissa b ltac:(lia)) as (Hlb & Hrb & _).
  unfold normal_form at 1 2. unfold sub, SFsub.
  set (ra := Z.to_pos (a * 2 ^ (52 - Z.log2 a))) in *.
  set (rb := Z.to_pos (b * 2 ^ (52 - Z.log2 b))) in *.
  set (ez := Z.min (Z.log2 a - 52) (Z.log2 b - 52)).
  simpl cond_Zopp.
  assert (Hpe : 0 < 2 ^ (- ez)) by (apply Z.pow_pos_nonneg; unfold ez; lia).
  assert (Hdiff : Zpos (fst (shl_align ra (Z.log2 a - 52) ez))
                  - Zpos (fst (shl_align rb (Z.log2 b - 52) ez))
                  = (a - b) * 2 ^ (- ez)).
  { rewrite !shl_align_value by (unfold ez; lia). rewrite Hra, Hrb.
    rewrite <- !Z.mul_assoc, <- !Z.pow_add_r by (unfold ez; lia).
    replace (52 - Z.log2 a + (Z.log2 a - 52 - ez)) with (- ez) by lia.
    replace (52 - Z.log2 b + (Z.log2 b - 52 - ez)) with (- ez) by lia.
    lia. }
  unfold binary_normalize.
  destruct (Zpos (fst (shl_align ra (Z.log2 a - 52) ez))
            - Zpos (fst (shl_align rb (Z.log2 b - 52) ez))) as [|M|M] eqn:HM.
  - assert (a - b = 0) by nia. replace (a - b) with 0 by lia. reflexivity.
  - rewrite (of_Z_normal_form (a - b)) by nia.
    apply binary_round_integer; [unfold ez; lia| |nia].
    rewrite <- Hdiff. reflexivity.
  - replace (a - b) with (- (b - a)) by lia.
    rewrite of_Z_negative by nia.
    apply binary_round_negative; [unfold ez; lia| |nia].
    replace ((b - a) * 2 ^ (- ez)) with (- ((a - b) * 2 ^ (- ez))) by lia.
    rewrite <- Hdiff. reflexivity.
Qed.

(** *** Rounding never gives NaN *)

Lemma binary_round_aux_number sx m e l :
  0 <= m → binary_round_aux prec emax sx m e l ≠ S754_nan.
Proof.
  intros Hm. pose proof (binary_round_aux_nonneg m e l Hm) as Hn.
  unfold binary_round_aux in *.
  destruct (shr_fexp prec emax m e l) as [mrs1 e1].
  destruct (shr_fexp prec emax _ e1 loc_Exact) as [mrs2 e2].
  destruct (shr_m mrs2); [discriminate| |contradiction].
  destruct (e2 <=? emax - prec); discriminate.
Qed.

Lemma binary_normalize_number m e s : binary_normalize prec emax m e s ≠ S754_nan.
Proof.
  unfold binary_normalize. destruct m as [|p|p]; [discriminate| |];
    unfold binary_round; destruct (shl_align _ _ _) as [mz ez];
    apply binary_round_aux_number; lia.
Qed.

(** The difference of two non-negative Numbers is NaN only for
    Infinity - Infinity. *)
Lemma sub_nan x y :
  nonneg x → nonneg y →
  (sub x y = nan ↔ x = infinity ∧ y = infinity).
Proof.
  destruct x as [[]|[]| |[] mx ex]; simpl; try contradiction;
  destruct y as [[]|[]| |[] my ey]; simpl; try contradiction; intros _ _;
    unfold sub, nan, infinity; simpl;
    try (split; [discriminate|intros [? ?]; discriminate]);
    try (split; [reflexivity|auto]; fail).
  - split; auto.
  - split; [|intros [? ?]; discriminate].
    intros H. exfalso. revert H. apply binary_normalize_number.
Qed.

Lemma div_nonneg x my ey :
  nonneg x → nonneg (div x (S754_finite false my ey)).
Proof.
  destruct x as [[]|[]| |[] mx ex]; simpl; try contradiction; intros _; try exact I.
  unfold div, SFdiv, SFdiv_core_binary. simpl xorb.
  set (m' := match _ with 0 => Zpos mx | Zpos _ => _ | Zneg _ => 0 end).
  assert (Hm' : 0 <= m').
  { subst m'. destruct (_ - _ - _) as [|p|p]; try lia.
    apply Z.shiftl_nonneg. lia. }
  pose proof (Z.div_pos m' (Zpos my) Hm' ltac:(lia)) as Hq.
  unfold Z.div in Hq.
  destruct (Z.div_eucl m' (Zpos my)) as [q r]. simpl in Hq.
  apply binary_round_aux_nonneg. exact Hq.
Qed.

Lemma round_nonneg x : nonneg x → nonneg (round x).
Proof.
  destruct x as [[]|[]| |[] m e]; simpl; try contradiction; intros _; try exact I.
  destruct (0 <=? e) eqn:He; [exact I|].
  apply Z.leb_gt in He.
  assert (Hk : 0 <= round_int false m e).
  { unfold round_int. simpl cond_Zopp. apply Z.div_pos.
    - assert (0 < 2 ^ (- e)) by (apply Z.pow_pos_nonneg; lia). lia.
    - apply Z.pow_pos_nonneg; lia. }
  destruct (round_int false m e =? 0) eqn:Ek; [exact I|].
  apply of_Z_nonneg. exact Hk.
Qed.

End SignedIntegers.

Section AmountSums.
Import Num NumFacts.

Lemma sum_valid_nonneg l :
  (∀ txn, In txn l → valid txn = true) → nonneg (sum (amounts l)).
Proof.
  intros Hv. apply fold_add_nonneg; [exact I|].
  apply Forall_forall. intros x Hx%list_elem_of_In.
  apply in_map_iff in Hx as (txn & <- & Hin).
  apply positive_nonneg, valid_amount_positive, Hv, Hin.
Qed.

Lemma add_zero_positive x : positive_number x → add zero x = x.
Proof. intros [->|(m & e & ->)]%positive_cases; reflexivity. Qed.

Lemma sub_zero_positive x : positive_number x → sub x zero = x.
Proof. intros [->|(m & e & ->)]%positive_cases; reflexivity. Qed.

Lemma zero_sub_positive x : positive_number x → sub zero x = SFopp x.
Proof. intros [->|(m & e & ->)]%positive_cases; reflexivity. Qed.

(** Credits and debits split the total of the units. *)
Lemma units_total_split units l :
  (∀ txn, In txn l → valid txn = true) →
  units_total units (List.filter is_credit l) + units_total units (List.filter is_debit l)
  = units_total units l.
Proof.
  unfold units_total. induction l as [|x l IH]; intros Hv; [reflexivity|].
  simpl. rewrite (credit_xor_debit x) by (apply Hv; left; reflexivity).
  specialize (IH ltac:(intros; apply Hv; right; assumption)).
  destruct (is_debit x); simpl; lia.
Qed.

End AmountSums.

(** ** Numbers that are never NaN *)

(** X9: the totals and the average of a summary are Numbers that are zero,
    positive or Infinity, never NaN and never negative (for an array of
    fewer than 2^53 elements), and netBalance is NaN exactly when both
    totals are Infinity. *)
Theorem totals_are_never_nan (txns : list value) (s : summary) :
  analyzeUPITransactions (VArray txns) = Normal (Some s) →
  Z.of_nat (length txns) < 2 ^ 53 →
  Num.nonneg (totalCredit s)
  ∧ Num.nonneg (totalDebit s)
  ∧ Num.nonneg (avgTransaction s)
  ∧ (netBalance s = Num.nan
     ↔ totalCredit s = Num.infinity ∧ totalDebit s = Num.infinity).
Proof.
  intros Hs Hbound.
  destruct (analyze_summary _ s Hs)
    as (txns' & first & rest & cks & tks & Heq & Hv & _ & _ & ->).
  injection Heq as <-.
  pose proof (valid_records_valid txns) as Hval.
  pose proof (valid_records_length txns) as Hlen.
  rewrite Hv in Hval, Hlen.
  set (vs := first :: rest) in *.
  assert (Hc : Num.nonneg (sum (amounts (List.filter is_credit vs))))
    by (apply sum_valid_nonneg, filter_valid_subset, Hval).
  assert (Hd : Num.nonneg (sum (amounts (List.filter is_debit vs))))
    by (apply sum_valid_nonneg, filter_valid_subset, Hval).
  unfold summarize. fold vs.
  cbn [totalCredit totalDebit netBalance avgTransaction].
  split; [exact Hc|]. split; [exact Hd|]. split.
  - apply round_nonneg. unfold Num.of_nat.
    rewrite (of_Z_normal_form (Z.of_nat (length vs))) by (subst vs; simpl in *; lia).
    unfold Num.normal_form. apply div_nonneg, sum_valid_nonneg, Hval.
  - apply sub_nan; assumption.
Qed.

Lemma totals_are_never_nan_witness :
  analyzeUPITransactions (VArray Scenario.unbounded)
  = Normal (Some Scenario.unbounded_summary)
  ∧ Z.of_nat (length Scenario.unbounded) < 2 ^ 53
  ∧ totalCredit Scenario.unbounded_summary = Num.infinity
  ∧ totalDebit Scenario.unbounded_summary = Num.infinity
  ∧ netBalance Scenario.unbounded_summary = Num.nan
  ∧ Num.nonneg (avgTransaction Scenario.unbounded_summary).
Proof.
  assert (Hs : analyzeUPITransactions (VArray Scenario.unbounded)
               = Normal (Some Scenario.unbounded_summary)) by (vm_compute; reflexivity).
  assert (Hlt : Z.of_nat (length Scenario.unbounded) < 2 ^ 53) by (vm_compute; reflexivity).
  assert (Hc : totalCredit Scenario.unbounded_summary = Num.infinity)
    by (vm_compute; reflexivity).
  assert (Hd : totalDebit Scenario.unbounded_summary = Num.infinity)
    by (vm_compute; reflexivity).
  destruct (totals_are_never_nan Scenario.unbounded _ Hs Hlt) as (_ & _ & Ha & Hn).
  split; [exact Hs|]. split; [exact Hlt|]. split; [exact Hc|]. split; [exact Hd|].
  split; [apply Hn; split; assumption|exact Ha].
Defined.

(** ** A single valid record *)

(** X10: when exactly one element of the input is a valid record, it is the
    highest transaction, its contact the frequent contact, its amount the
    total of its type and the only entry of the breakdown, and the net
    balance is its amount for a credit and the negated amount for a debit. *)
Theorem single_valid_record (txns : list value) (txn : value) (s : summary) :
  valid_records txns = [txn] →
  analyzeUPITransactions (VArray txns) = Normal (Some s) →
  transactionCount s = 1%nat
  ∧ highestTransaction s = txn
  ∧ frequentContact s = field txn "to"
  ∧ totalCredit s = (if is_credit txn then amount txn else Num.zero)
  ∧ totalDebit s = (if is_credit txn then Num.zero else amount txn)
  ∧ netBalance s = (if is_credit txn then amount txn else SFopp (amount txn))
  ∧ allAbove100 s = Num.ltb hundred (amount txn)
  ∧ hasLargeTransaction s = Num.leb five_thousand (amount txn)
  ∧ (∀ k, category_key txn = Normal k → Object_prototype k = None →
          categoryBreakdown s = {[ k := CNum (amount txn) ]}).
Proof.
  intros Hone Hs.
  destruct (analyze_summary _ s Hs)
    as (txns' & first & rest & cks & tks & Heq & Hv & Hcks & Htks & ->).
  injection Heq as <-. rewrite Hone in Hv. injection Hv as <- <-.
  assert (Hval : valid txn = true).
  { apply (valid_records_valid txns). rewrite Hone. left. reflexivity. }
  pose proof (valid_amount_positive txn Hval) as Hpos.
  simpl in Hcks, Htks.
  destruct (category_key txn) as [ck|e] eqn:Eck; [|discriminate].
  destruct (contact_key txn) as [tk|e] eqn:Etk; [|discriminate].
  simpl in Hcks, Htks. injection Hcks as <-. injection Htks as <-.
  unfold summarize.
  cbn [totalCredit totalDebit netBalance transactionCount avgTransaction
       categoryBreakdown frequentContact allAbove100 hasLargeTransaction
       highestTransaction].
  split; [reflexivity|]. split; [reflexivity|]. split.
  { unfold pick, labels. cbn [zip zip_with map fold_left fst snd].
    destruct (slot_gt _ _); reflexivity. }
  cbn [List.filter]. rewrite (credit_xor_debit txn Hval).
  destruct (is_debit txn); cbn [negb amounts map sum fold_left forallb existsb];
    rewrite ?add_zero_positive by assumption;
    rewrite ?sub_zero_positive, ?zero_sub_positive by assumption;
    rewrite andb_true_r, orb_false_r;
    (repeat (split; [reflexivity|]));
    intros k [= <-] Hk;
    unfold accumulate; cbn [zip zip_with fold_left fst snd];
    rewrite dict_get_own by assumption; rewrite lookup_empty;
    cbn [slot_of or_zero_plus]; rewrite add_zero_positive by assumption;
    unfold dict_set; rewrite bool_decide_eq_false_2 by (apply proto_not_own; assumption);
    reflexivity.
Qed.

Lemma single_valid_record_witness :
  valid_records [VNull; Sample.T2; VString "x"] = [Sample.T2]
  ∧ analyzeUPITransactions (VArray [VNull; Sample.T2; VString "x"])
    = Normal (Some (summarize Sample.T2 [] ["food"] ["Swiggy"]))
  ∧ netBalance (summarize Sample.T2 [] ["food"] ["Swiggy"]) = Num.of_Z (-200)
  ∧ categoryBreakdown (summarize Sample.T2 [] ["food"] ["Swiggy"])
    = {[ "food" := CNum (Num.of_Z 200) ]}.
Proof.
  assert (Hv : valid_records [VNull; Sample.T2; VString "x"] = [Sample.T2])
    by (vm_compute; reflexivity).
  assert (Hs : analyzeUPITransactions (VArray [VNull; Sample.T2; VString "x"])
               = Normal (Some (summarize Sample.T2 [] ["food"] ["Swiggy"])))
    by (vm_compute; reflexivity).
  split; [exact Hv|]. split; [exact Hs|].
  destruct (single_valid_record _ _ _ Hv Hs) as (_ & _ & _ & _ & _ & Hn & _ & _ & Hcb).
  split.
  - rewrite Hn. vm_compute. reflexivity.
  - rewrite (Hcb "food"); [reflexivity|vm_compute; reflexivity|vm_compute; reflexivity].
Defined.

(** ** Whole amounts give exact totals *)

(** X11: when the amounts of the valid records are whole numbers whose
    total is below 2^53, nothing is rounded: totalCredit and totalDebit are
    the totals of the credits and of the debits, which together make the
    total of all amounts, netBalance is their difference, and a category
    whose key does not name a property of Object.prototype holds the total
    of the amounts filed under it. *)
Theorem whole_amounts_give_exact_totals
    (txns : list value) (s : summary) (units : value → Z) :
  analyzeUPITransactions (VArray txns) = Normal (Some s) →
  whole_amounts units (valid_records txns) →
  units_total units (valid_records txns) < 2 ^ 53 →
  let credit := units_total units (List.filter is_credit (valid_records txns)) in
  let debit := units_total units (List.filter is_debit (valid_records txns)) in
  totalCredit s = Num.of_Z credit
  ∧ totalDebit s = Num.of_Z debit
  ∧ netBalance s = Num.of_Z (credit - debit)
  ∧ credit + debit = units_total units (valid_records txns)
  ∧ (∀ k, is_Some (categoryBreakdown s !! k) →
          Object_prototype k = None →
          categoryBreakdown s !! k
          = Some (CNum (Num.of_Z (units_total units
                                    (filed_records category_key k (valid_records txns)))))).
Proof.
  intros Hs Hw Hlt credit debit.
  destruct (analyze_summary _ s Hs)
    as (txns' & first & rest & cks & tks & Heq & Hv & Hcks & _ & ->).
  injection Heq as <-.
  pose proof (valid_records_valid txns) as Hval.
  subst credit debit. rewrite Hv in *.
  set (vs := first :: rest) in *.
  destruct (whole_sum_filter units is_credit vs Hw Hval Hlt) as [Hc Hcle].
  destruct (whole_sum_filter units is_debit vs Hw Hval Hlt) as [Hd Hdle].
  unfold summarize. fold vs.
  cbn [totalCredit totalDebit netBalance categoryBreakdown].
  rewrite Hc, Hd.
  split; [reflexivity|]. split; [reflexivity|]. split; [apply sub_of_Z; lia|].
  split; [apply units_total_split, Hval|].
  intros k Hk Hown.
  apply whole_breakdown_cell; try assumption.
  apply accumulate_lookup_Some in Hk. unfold amounts in Hk.
  rewrite zip_keys_fst in Hk by (eapply mapM_length; eassumption). exact Hk.
Qed.

Lemma whole_amounts_give_exact_totals_witness :
  analyzeUPITransactions (VArray Sample.documented)
  = Normal (Some Sample.documented_summary)
  ∧ whole_amounts rupees (valid_records Sample.documented)
  ∧ units_total rupees (valid_records Sample.documented) < 2 ^ 53
  ∧ totalCredit Sample.documented_summary = Num.of_Z 5000
  ∧ totalDebit Sample.documented_summary = Num.of_Z 300
  ∧ netBalance Sample.documented_summary = Num.of_Z 4700.
Proof.
  assert (Hs : analyzeUPITransactions (VArray Sample.documented)
               = Normal (Some Sample.documented_summary)) by (vm_compute; reflexivity).
  assert (Hw : whole_amounts rupees (valid_records Sample.documented)).
  { intros txn Hin. vm_compute in Hin.
    destruct Hin as [<-|[<-|[<-|[]]]]; vm_compute; reflexivity. }
  assert (Hlt : units_total rupees (valid_records Sample.documented) < 2 ^ 53)
    by (vm_compute; reflexivity).
  split; [exact Hs|]. split; [exact Hw|]. split; [exact Hlt|].
  destruct (whole_amounts_give_exact_totals Sample.documented _ rupees Hs Hw Hlt)
    as (Hc & Hd & Hn & _).
  split; [rewrite Hc; vm_compute; reflexivity|].
  split; [rewrite Hd; vm_compute; reflexivity|].
  rewrite Hn. vm_compute. reflexivity.
Defined.

(** ** The average of whole amounts *)

Section Quotients.
Import Num NumFacts.

Lemma new_location_compare mb r :
  0 < mb → 0 <= r < mb →
  new_location mb r = if r =? 0 then loc_Exact else loc_Inexact (2 * r ?= mb).
Proof.
  optimize_heap.
  intros Hmb Hr. unfold new_location, new_location_even, new_location_odd.
  destruct (Z.even mb) eqn:Ev; [reflexivity|].
  destruct (r =? 0); [reflexivity|].
  pose proof (Zmod_even mb) as Hmod. rewrite Ev in Hmod.
  pose proof (Z.div_mod mb 2 ltac:(lia)) as Hdm.
  destruct (Z.compare_spec (2 * r + 1) mb); destruct (Z.compare_spec (2 * r) mb);
    try reflexivity; lia.
Qed.

Lemma loc_of_shr_record_of_loc m l : loc_of_shr_record (shr_record_of_loc m l) = l.
Proof. destruct l as [|[]]; reflexivity. Qed.

Lemma round_nearest_even_cases m l :
  round_nearest_even m l = m
  ∨ (round_nearest_even m l = m + 1 ∧ (l = loc_Inexact Eq ∨ l = loc_Inexact Gt)).
Proof.
  destruct l as [|[]]; simpl; auto.
  destruct (Z.even m); auto.
Qed.

(** The quotient of two 53-bit mantissas, as [SFdiv] computes it. *)
Lemma div_core ma ea mb eb :
  Zpos (digits2_pos ma) = 53 → Zpos (digits2_pos mb) = 53 →
  -1021 <= ea - eb →
  SFdiv_core_binary prec emax (Zpos ma) ea (Zpos mb) eb
  = (Zpos ma * 2 ^ 53 / Zpos mb, ea - eb - 53,
     new_location (Zpos mb) ((Zpos ma * 2 ^ 53) mod Zpos mb)).
Proof.
  intros Ha Hb He. unfold SFdiv_core_binary. simpl Zdigits2. rewrite Ha, Hb.
  replace (53 + ea - (53 + eb)) with (ea - eb) by lia.
  replace (Z.min (fexp prec emax (ea - eb)) (ea - eb)) with (ea - eb - 53)
    by (unfold fexp, SpecFloat.emin, prec, emax; lia).
  replace (ea - eb - (ea - eb - 53)) with 53 by lia.
  cbv iota. change (IntDef.Z.shiftl (Zpos ma) 53) with (Z.shiftl (Zpos ma) 53).
  rewrite Z.shiftl_mul_pow2 by lia.
  unfold Z.div, Z.modulo.
  change IntDef.Z.div_eucl with Z.div_eucl.
  destruct (Z.div_eucl (Zpos ma * 2 ^ 53) (Zpos mb)) as [q r]. reflexivity.
Qed.

End Quotients.

Section RoundedQuotients.
Import Num NumFacts.

Lemma Zdigits2_53 q : 2 ^ 52 <= q < 2 ^ 53 → Zdigits2 q = 53.
Proof.
  intros Hq. destruct q as [|p|p]; try lia. simpl.
  apply digits2_unique. simpl Z.sub. lia.
Qed.

Lemma Zdigits2_54 q : 2 ^ 53 <= q < 2 ^ 54 → Zdigits2 q = 54.
Proof.
  intros Hq. destruct q as [|p|p]; try lia. simpl.
  apply digits2_unique. simpl Z.sub. lia.
Qed.

(** Rounding a mantissa of 53 bits keeps it or adds 1. *)
Lemma round_aux_53 q e l :
  2 ^ 52 <= q < 2 ^ 53 → -1074 <= e <= 970 →
  round_nearest_even q l < 2 ^ 53 →
  binary_round_aux prec emax false q e l
  = S754_finite false (Z.to_pos (round_nearest_even q l)) e.
Proof.
  intros Hq He Hm. unfold binary_round_aux, shr_fexp.
  rewrite (Zdigits2_53 q Hq).
  replace (fexp prec emax (53 + e) - e) with 0
    by (unfold fexp, SpecFloat.emin, prec, emax; lia).
  cbn [shr]. rewrite loc_of_shr_record_of_loc.
  replace (shr_m (shr_record_of_loc q l)) with q by (destruct l as [|[]]; reflexivity).
  assert (Hm1 : 2 ^ 52 <= round_nearest_even q l < 2 ^ 53).
  { destruct (round_nearest_even_cases q l) as [E|[E _]]; rewrite E in *; lia. }
  rewrite (Zdigits2_53 _ Hm1).
  replace (fexp prec emax (53 + e) - e) with 0
    by (unfold fexp, SpecFloat.emin, prec, emax; lia).
  cbn [shr shr_record_of_loc shr_m].
  destruct (round_nearest_even q l) as [|p|p] eqn:Er; try lia.
  rewrite (proj2 (Z.leb_le e (emax - prec))) by (unfold emax, prec; lia).
  reflexivity.
Qed.

(** Rounding a mantissa of 54 bits drops its last bit first. *)
Lemma round_aux_54 q e l :
  2 ^ 53 <= q < 2 ^ 54 → -1075 <= e <= 969 →
  let l' := loc_of_shr_record
              {| shr_m := q / 2; shr_r := Z.odd q; shr_s := inexact l |} in
  round_nearest_even (q / 2) l' < 2 ^ 53 →
  binary_round_aux prec emax false q e l
  = S754_finite false (Z.to_pos (round_nearest_even (q / 2) l')) (e + 1).
Proof.
  intros Hq He l' Hm. unfold binary_round_aux, shr_fexp.
  rewrite (Zdigits2_54 q Hq).
  replace (fexp prec emax (54 + e) - e) with 1
    by (unfold fexp, SpecFloat.emin, prec, emax; lia).
  cbn [shr SpecFloat.iter_pos].
  assert (Hshr : shr_1 (shr_record_of_loc q l)
                 = {| shr_m := q / 2; shr_r := Z.odd q; shr_s := inexact l |}).
  { destruct q as [|p|p]; try lia.
    destruct p as [p|p|]; try lia.
    - replace (Zpos p~1 / 2) with (Zpos p)
        by (apply (Z.div_unique (Zpos p~1) 2 (Zpos p) 1); lia).
      destruct l as [|[]]; reflexivity.
    - replace (Zpos p~0 / 2) with (Zpos p)
        by (apply (Z.div_unique (Zpos p~0) 2 (Zpos p) 0); lia).
      destruct l as [|[]]; reflexivity. }
  rewrite Hshr. cbn [shr_m]. fold l'.
  assert (Hq2 : 2 ^ 52 <= q / 2 < 2 ^ 53).
  { split; [apply Z.div_le_lower_bound; lia|apply Z.div_lt_upper_bound; lia]. }
  assert (Hm1 : 2 ^ 52 <= round_nearest_even (q / 2) l' < 2 ^ 53).
  { destruct (round_nearest_even_cases (q / 2) l') as [E|[E _]]; rewrite E in *; lia. }
  rewrite (Zdigits2_53 _ Hm1).
  replace (fexp prec emax (53 + (e + 1)) - (e + 1)) with 0
    by (unfold fexp, SpecFloat.emin, prec, emax; lia).
  cbn [shr shr_record_of_loc shr_m].
  destruct (round_nearest_even (q / 2) l') as [|p|p] eqn:Er; try lia.
  rewrite (proj2 (Z.leb_le (e + 1) (emax - prec))) by (unfold emax, prec; lia).
  reflexivity.
Qed.

End RoundedQuotients.

Section HalvesOfQuotients.
Import Num NumFacts.

(** A quotient [a * 2^j / b] with [b < 2^j] is not within half a unit below
    [2^53]. *)
Lemma quotient_below_power a b j :
  0 < a → 0 < b < 2 ^ 53 → 1 <= j → b < 2 ^ j →
  (a * 2 ^ j) / b = 2 ^ 53 - 1 →
  b <= 2 * ((a * 2 ^ j) mod b) →
  False.
Proof.
  intros Ha Hb Hj Hbj HF Hrho.
  pose proof (Z.div_mod (a * 2 ^ j) b ltac:(lia)) as Hdm.
  pose proof (Z.mod_pos_bound (a * 2 ^ j) b ltac:(lia)) as Hr.
  rewrite HF in Hdm.
  set (rho := (a * 2 ^ j) mod b) in *.
  assert (Hj0 : 0 < 2 ^ j) by (apply Z.pow_pos_nonneg; lia).
  destruct (Z_le_gt_dec j 53) as [Hle|Hgt].
  - assert (E : 2 ^ 53 = 2 ^ (53 - j) * 2 ^ j).
    { rewrite <- Z.pow_add_r by lia. f_equal. lia. }
    assert (Hc0 : 0 < 2 ^ (53 - j)) by (apply Z.pow_pos_nonneg; lia).
    set (c := 2 ^ (53 - j)) in *. set (P := 2 ^ j) in *.
    assert (HX : 2 * P * (c * b - a) = 2 * b - 2 * rho) by (rewrite E in Hdm; nia).
    assert (1 <= c * b - a) by nia.
    nia.
  - assert (E : 2 ^ j = 2 ^ (j - 53) * 2 ^ 53).
    { rewrite <- Z.pow_add_r by lia. f_equal. lia. }
    assert (Hc0 : 0 < 2 ^ (j - 53)) by (apply Z.pow_pos_nonneg; lia).
    set (c := 2 ^ (j - 53)) in *.
    assert (HX : 2 * 2 ^ 53 * (b - c * a) = 2 * b - 2 * rho) by (rewrite E in Hdm; nia).
    assert (1 <= b - c * a) by nia.
    nia.
Qed.

(** Rounding the rounded quotient to an integer gives the integer nearest
    to the quotient itself. *)
Lemma nearest_of_rounded_quotient a b j m :
  0 < a → 0 < b → 1 <= j → b < 2 ^ j →
  (a * 2 ^ j) / b <= m <= (a * 2 ^ j) / b + 1 →
  (m = (a * 2 ^ j) / b + 1 → b <= 2 * ((a * 2 ^ j) mod b)) →
  (2 * m + 2 ^ j) / 2 ^ (1 + j) = (2 * a + b) / (2 * b).
Proof.
  intros Ha Hb Hj Hbj Hm Hup.
  pose proof (Z.div_mod (a * 2 ^ j) b ltac:(lia)) as Hdm.
  pose proof (Z.mod_pos_bound (a * 2 ^ j) b ltac:(lia)) as Hr.
  pose proof (Z.div_mod (2 * a + b) (2 * b) ltac:(lia)) as HK.
  pose proof (Z.mod_pos_bound (2 * a + b) (2 * b) ltac:(lia)) as HKr.
  set (F := (a * 2 ^ j) / b) in *. set (rho := (a * 2 ^ j) mod b) in *.
  set (K := (2 * a + b) / (2 * b)) in *. set (kr := (2 * a + b) mod (2 * b)) in *.
  assert (EP : 2 ^ j = 2 * 2 ^ (j - 1)).
  { rewrite <- Z.pow_succ_r by lia. f_equal. lia. }
  assert (EP1 : 2 ^ (1 + j) = 2 * 2 ^ j).
  { rewrite Z.add_comm, <- Z.pow_succ_r by lia. reflexivity. }
  assert (HP' : 0 < 2 ^ (j - 1)) by (apply Z.pow_pos_nonneg; lia).
  set (P' := 2 ^ (j - 1)) in *. set (P := 2 ^ j) in *.
  rewrite EP1.
  assert (Hlo : K * P <= F + P').
  { assert (b * (K * P) < b * (F + 1 + P')) by nia. nia. }
  assert (Hhi : m < K * P + P').
  { assert (H1 : b * F + rho + b * P' + P' <= b * (K * P) + b * P) by nia.
    destruct (Z.eq_dec m F) as [->|Hne].
    - assert (b * F < b * (K * P + P')) by nia. nia.
    - assert (Em : m = F + 1) by lia. specialize (Hup Em).
      assert (2 * b * (F + 1) < 2 * b * (K * P + P')) by nia. nia. }
  symmetry. apply (Z.div_unique _ _ _ (2 * m + P - 2 * P * K)); lia.
Qed.

End HalvesOfQuotients.

Section WholeAverages.
Import Num NumFacts.

Lemma round_of_finite m e k :
  e < 0 →
  (2 * m + 2 ^ (- e)) / 2 ^ (1 + - e) = k →
  0 < m →
  round (S754_finite false (Z.to_pos m) e) = of_Z k.
Proof.
  intros He Hk Hm. unfold round, round_int.
  rewrite (proj2 (Z.leb_gt 0 e)) by assumption.
  simpl cond_Zopp. rewrite Z2Pos.id by assumption.
  replace (1 - e) with (1 + - e) by lia. rewrite Hk.
  destruct (k =? 0) eqn:Ek; [|reflexivity].
  apply Z.eqb_eq in Ek. rewrite Ek. reflexivity.
Qed.

(** Dividing whole numbers and rounding the result to an integer gives the
    integer nearest to the exact quotient, halves upwards, when the dividend
    is below 2^52. *)
Lemma round_div_whole a b :
  0 < a < 2 ^ 52 → 0 < b < 2 ^ 53 →
  round (div (of_Z a) (of_Z b)) = of_Z ((2 * a + b) / (2 * b)).
Proof.
  intros Ha Hb.
  rewrite (of_Z_normal_form a), (of_Z_normal_form b) by lia.
  destruct (normal_form_mantissa a ltac:(lia)) as (Hla & Hra & Hda).
  destruct (normal_form_mantissa b ltac:(lia)) as (Hlb & Hrb & Hdb).
  assert (Hla' : Z.log2 a < 52) by (apply Z.log2_lt_pow2; lia).
  pose proof (Z.log2_spec b ltac:(lia)) as [Hblo Hbhi].
  unfold normal_form, div, SFdiv.
  set (ra := Z.to_pos (a * 2 ^ (52 - Z.log2 a))) in *.
  set (rb := Z.to_pos (b * 2 ^ (52 - Z.log2 b))) in *.
  set (la := Z.log2 a) in *. set (lb := Z.log2 b) in *.
  rewrite div_core by (try assumption; lia). simpl xorb.
  replace (la - 52 - (lb - 52) - 53) with (la - lb - 53) by lia.
  pose proof (digits2_bounds ra) as Hba. rewrite Hda in Hba.
  pose proof (digits2_bounds rb) as Hbb. rewrite Hdb in Hbb.
  simpl Z.sub in Hba, Hbb.
  (* the quotient of the mantissas is the quotient of the integers *)
  set (Pq := 2 ^ (53 + lb - la)).
  set (c := 2 ^ (52 - lb)).
  assert (Hc : 0 < c) by (apply Z.pow_pos_nonneg; lia).
  assert (HPq : 0 < Pq) by (apply Z.pow_pos_nonneg; lia).
  assert (Enum : Zpos ra * 2 ^ 53 = (a * Pq) * c).
  { rewrite Hra. unfold Pq, c. rewrite <- !Z.mul_assoc, <- !Z.pow_add_r by lia.
    f_equal. f_equal. lia. }
  assert (Eden : Zpos rb = b * c) by (rewrite Hrb; reflexivity).
  rewrite Enum, Eden.
  rewrite Z.div_mul_cancel_r by lia.
  rewrite Z.mul_mod_distr_r by lia.
  pose proof (Z.div_mod (a * Pq) b ltac:(lia)) as Hdm.
  pose proof (Z.mod_pos_bound (a * Pq) b ltac:(lia)) as Hrho.
  set (q := (a * Pq) / b) in *. set (rho := (a * Pq) mod b) in *.
  rewrite new_location_compare;
    [|apply Z.mul_pos_pos; lia
     |split; [apply Z.mul_nonneg_nonneg; lia|apply Z.mul_lt_mono_pos_r; lia]].
  assert (Hq : 2 ^ 52 <= q < 2 ^ 54).
  { assert (Hq' : q = (Zpos ra * 2 ^ 53) / Zpos rb).
    { rewrite Enum, Eden, Z.div_mul_cancel_r by lia. reflexivity. }
    rewrite Hq'. split.
    - apply Z.div_le_lower_bound; lia.
    - apply Z.div_lt_upper_bound; lia. }
  assert (Hbl : b < 2 ^ (1 + lb)).
  { rewrite Z.add_comm. exact Hbhi. }
  destruct (Z_lt_le_dec q (2 ^ 53)) as [Hq53|Hq54].
  - (* 53 bits *)
    set (l := if rho * c =? 0 then loc_Exact else loc_Inexact (2 * (rho * c) ?= b * c)).
    assert (Hup : round_nearest_even q l = q + 1 → b <= 2 * rho).
    { intros Hr1. destruct (round_nearest_even_cases q l) as [E|[_ [E|E]]]; [lia| |];
        subst l; destruct (rho * c =? 0); try discriminate;
        injection E as E; [apply Z.compare_eq in E|apply Z.compare_gt_iff in E];
        clear -E Hc; nia. }
    assert (HbP : b < 2 ^ (53 + lb - la)).
    { apply (Z.lt_le_trans _ (2 ^ (1 + lb))); [exact Hbl|].
      apply Z.pow_le_mono_r; lia. }
    assert (Hm : round_nearest_even q l < 2 ^ 53).
    { destruct (round_nearest_even_cases q l) as [E|[E _]]; [lia|].
      rewrite E. destruct (Z.eq_dec q (2 ^ 53 - 1)) as [Hq1|]; [|lia].
      exfalso. apply (quotient_below_power a b (53 + lb - la)); auto; try lia. }
    rewrite round_aux_53 by (try assumption; lia).
    apply round_of_finite.
    + lia.
    + replace (- (la - lb - 53)) with (53 + lb - la) by lia.
      apply nearest_of_rounded_quotient; try lia; try assumption.
      change (a * 2 ^ (53 + lb - la) / b) with q.
      destruct (round_nearest_even_cases q l) as [E|[E _]]; lia.
    + destruct (round_nearest_even_cases q l) as [E|[E _]]; lia.
  - (* 54 bits: the last bit is dropped *)
    set (l := if rho * c =? 0 then loc_Exact else loc_Inexact (2 * (rho * c) ?= b * c)).
    set (P1 := 2 ^ (52 + lb - la)).
    assert (EP : Pq = 2 * P1).
    { unfold Pq, P1. rewrite <- Z.pow_succ_r by lia. f_equal. lia. }
    assert (HP1 : 0 < P1) by (apply Z.pow_pos_nonneg; lia).
    assert (EF : (a * P1) / b = q / 2).
    { unfold q. rewrite Z.div_div by lia. rewrite EP.
      replace (a * (2 * P1)) with ((a * P1) * 2) by lia.
      rewrite Z.div_mul_cancel_r by lia. reflexivity. }
    pose proof (Z.div_mod (a * P1) b ltac:(lia)) as Hdm1.
    pose proof (Z.mod_pos_bound (a * P1) b ltac:(lia)) as Hrho1.
    pose proof (Z.div_mod q 2 ltac:(lia)) as Hq2.
    pose proof (Zmod_odd q) as Hodd.
    set (l' := loc_of_shr_record
                 {| shr_m := q / 2; shr_r := Z.odd q; shr_s := inexact l |}).
    assert (Hup : round_nearest_even (q / 2) l' = q / 2 + 1 →
                  b <= 2 * ((a * P1) mod b)).
    { intros Hr1.
      assert (Ho : Z.odd q = true).
      { destruct (round_nearest_even_cases (q / 2) l') as [E|[_ [E|E]]]; [lia| |];
          subst l'; destruct (Z.odd q); destruct (inexact l); simpl in E;
          try discriminate; reflexivity. }
      rewrite Ho in Hodd. rewrite EF in Hdm1.
      clear -Hodd Hq2 Hdm EP Hdm1 Hrho. nia. }
    assert (HbP : b < 2 ^ (52 + lb - la)).
    { apply (Z.lt_le_trans _ (2 ^ (1 + lb))); [exact Hbl|].
      apply Z.pow_le_mono_r; lia. }
    assert (Hq2b : 2 ^ 52 <= q / 2 < 2 ^ 53).
    { split; [apply Z.div_le_lower_bound; lia|apply Z.div_lt_upper_bound; lia]. }
    assert (Hm : round_nearest_even (q / 2) l' < 2 ^ 53).
    { destruct (round_nearest_even_cases (q / 2) l') as [E|[E _]]; [lia|].
      rewrite E. destruct (Z.eq_dec (q / 2) (2 ^ 53 - 1)) as [Hq1|]; [|lia].
      exfalso. apply (quotient_below_power a b (52 + lb - la)); auto; try lia.
      change (2 ^ (52 + lb - la)) with P1. rewrite EF. exact Hq1. }
    rewrite round_aux_54 by (try assumption; lia).
    fold l'. apply round_of_finite.
    + lia.
    + replace (- (la - lb - 53 + 1)) with (52 + lb - la) by lia.
      apply nearest_of_rounded_quotient; try lia; try assumption.
      * change (2 ^ (52 + lb - la)) with P1. rewrite EF.
        destruct (round_nearest_even_cases (q / 2) l') as [E|[E _]]; lia.
      * change (2 ^ (52 + lb - la)) with P1. rewrite EF. exact Hup.
    + destruct (round_nearest_even_cases (q / 2) l') as [E|[E _]]; lia.
Qed.

End WholeAverages.

Section Averages.
Import Num NumFacts.

Lemma whole_units_positive units l :
  whole_amounts units l → (∀ txn, In txn l → valid txn = true) →
  Forall (fun z => 0 < z) (map units l).
Proof.
  intros Hw Hv. apply Forall_forall. intros z Hz%list_elem_of_In.
  apply in_map_iff in Hz as (txn & <- & Hin).
  pose proof (valid_amount_positive txn (Hv txn Hin)) as Hpos.
  rewrite (Hw txn Hin) in Hpos. apply of_Z_positive in Hpos. exact Hpos.
Qed.

Lemma total_at_least_length zs :
  Forall (fun z => 0 < z) zs → Z.of_nat (length zs) <= total zs.
Proof. induction 1; simpl length; simpl total; lia. Qed.

Lemma total_between lo hi zs :
  Forall (fun z => lo <= z <= hi) zs →
  Z.of_nat (length zs) * lo <= total zs <= Z.of_nat (length zs) * hi.
Proof. induction 1; simpl length; simpl total; lia. Qed.

End Averages.

(** X12: when the amounts of the valid records are whole numbers whose
    total is below 2^52, avgTransaction is exactly the integer nearest to
    total / transactionCount, the greater one when two are equally near:
    the division and Math.round lose nothing.  It lies between any two
    bounds of the amounts. *)
Theorem average_of_whole_amounts
    (txns : list value) (s : summary) (units : value → Z) :
  analyzeUPITransactions (VArray txns) = Normal (Some s) →
  whole_amounts units (valid_records txns) →
  units_total units (valid_records txns) < 2 ^ 52 →
  let sum_of_units := units_total units (valid_records txns) in
  let count := Z.of_nat (transactionCount s) in
  let average := (2 * sum_of_units + count) / (2 * count) in
  avgTransaction s = Num.of_Z average
  ∧ (2 * average - 1) * count <= 2 * sum_of_units < (2 * average + 1) * count
  ∧ (∀ lo hi,
       (∀ txn, In txn (valid_records txns) → lo <= units txn <= hi) →
       lo <= average <= hi).
Proof.
  intros Hs Hw Hlt sum_of_units count average.
  destruct (analyze_summary _ s Hs)
    as (txns' & first & rest & cks & tks & Heq & Hv & _ & _ & ->).
  injection Heq as <-.
  pose proof (valid_records_valid txns) as Hval.
  subst sum_of_units count average. rewrite Hv in *.
  set (vs := first :: rest) in *.
  pose proof (total_at_least_length _ (whole_units_positive units vs Hw Hval)) as Hn.
  rewrite length_map in Hn. fold (units_total units vs) in Hn.
  unfold summarize. fold vs. cbn [avgTransaction transactionCount].
  assert (Hlen : 0 < Z.of_nat (length vs)) by (subst vs; simpl length; lia).
  set (n := Z.of_nat (length vs)) in *. set (T := units_total units vs) in *.
  pose proof (Z.div_mod (2 * T + n) (2 * n) ltac:(lia)) as Hdm.
  pose proof (Z.mod_pos_bound (2 * T + n) (2 * n) ltac:(lia)) as Hr.
  split; [|split].
  - rewrite (whole_sum units vs Hw Hval) by (fold T; lia).
    unfold Num.of_nat. fold n T. apply round_div_whole; lia.
  - nia.
  - intros lo hi Hb.
    assert (Hall : Forall (fun z => lo <= z <= hi) (map units vs)).
    { apply Forall_forall. intros z Hz%list_elem_of_In.
      apply in_map_iff in Hz as (txn & <- & Hin). apply Hb, Hin. }
    apply total_between in Hall. rewrite length_map in Hall.
    fold (units_total units vs) in Hall. fold n T in Hall.
    nia.
Qed.

Lemma average_of_whole_amounts_witness :
  analyzeUPITransactions (VArray Sample.documented)
  = Normal (Some Sample.documented_summary)
  ∧ whole_amounts rupees (valid_records Sample.documented)
  ∧ units_total rupees (valid_records Sample.documented) < 2 ^ 52
  ∧ avgTransaction Sample.documented_summary = Num.of_Z 1767.
Proof.
  assert (Hs : analyzeUPITransactions (VArray Sample.documented)
               = Normal (Some Sample.documented_summary)) by (vm_compute; reflexivity).
  assert (Hw : whole_amounts rupees (valid_records Sample.documented)).
  { intros txn Hin. vm_compute in Hin.
    destruct Hin as [<-|[<-|[<-|[]]]]; vm_compute; reflexivity. }
  assert (Hlt : units_total rupees (valid_records Sample.documented) < 2 ^ 52)
    by (vm_compute; reflexivity).
  split; [exact Hs|]. split; [exact Hw|]. split; [exact Hlt|].
  destruct (average_of_whole_amounts Sample.documented _ rupees Hs Hw Hlt) as (Ha & _).
  rewrite Ha. vm_compute. reflexivity.
Defined.

(** The bound on the total is needed: three whole amounts whose total is
    3 * 2^51 + 1 have an average of 2^51 + 1/3, and avgTransaction is
    2^51 + 1. *)
Lemma average_of_large_whole_amounts :
  ∃ s,
    analyzeUPITransactions (VArray Scenario.large_amounts) = Normal (Some s)
    ∧ amounts (valid_records Scenario.large_amounts)
      = map Num.of_Z [3 * 2 ^ 51 - 1; 1; 1]
    ∧ avgTransaction s = Num.of_Z (2 ^ 51 + 1)
    ∧ (2 * (3 * 2 ^ 51 + 1) + 3) / (2 * 3) = 2 ^ 51.
Proof.
  eexists. split; [vm_compute; reflexivity|].
  repeat split; vm_compute; reflexivity.
Qed.

(** ** The most frequent contact among string labels *)

Section StringLabels.

Lemma label_count_strings l ks :
  label_count (VString l) (map VString ks) = occurrences l ks.
Proof.
  unfold label_count, occurrences. induction ks as [|k ks IH]; [reflexivity|].
  simpl. destruct (decide (k = l)) as [->|Hne].
  - rewrite !bool_decide_eq_true_2 by reflexivity. simpl. rewrite IH. reflexivity.
  - rewrite !bool_decide_eq_false_2 by congruence. exact IH.
Qed.

Lemma string_labels_are_keys l :
  ∀ tks, mapM contact_key l = Normal tks →
         (∀ txn, In txn l → ∃ k, field txn "to" = VString k) →
         labels l = map VString tks.
Proof.
  unfold labels. induction l as [|x l IH]; intros tks Hm Hstr; simpl in Hm.
  - injection Hm as <-. reflexivity.
  - destruct (Hstr x ltac:(left; reflexivity)) as [k Hk].
    unfold contact_key in Hm at 1. rewrite Hk in Hm. simpl in Hm.
    destruct (mapM contact_key l) as [ks|e]; [|discriminate]. simpl in Hm.
    injection Hm as <-. simpl. rewrite Hk. f_equal.
    apply IH; [reflexivity|]. intros txn Hin. apply Hstr. right. assumption.
Qed.

End StringLabels.

(** X13: when the contacts of all valid records are strings none of which
    names a property of Object.prototype (and the array has fewer than 2^53
    elements), frequentContact is the contact that occurs most often among
    the valid records, the one met first in the input among equally
    frequent ones: no contact occurs more often, and every contact before
    its first occurrence occurs less often. *)
Theorem frequent_contact_among_string_labels (txns : list value) (s : summary) :
  analyzeUPITransactions (VArray txns) = Normal (Some s) →
  Z.of_nat (length txns) < 2 ^ 53 →
  (∀ txn, In txn (valid_records txns) →
          ∃ l, field txn "to" = VString l ∧ Object_prototype l = None) →
  let contacts := labels (valid_records txns) in
  ∃ i,
    contacts !! i = Some (frequentContact s)
    ∧ (∀ l, In l contacts →
            (label_count l contacts <= label_count (frequentContact s) contacts)%nat)
    ∧ (∀ j l, (j < i)%nat → contacts !! j = Some l →
              (label_count l contacts < label_count (frequentContact s) contacts)%nat).
Proof.
  intros Hs Hbound Hstr contacts.
  assert (Hvlen : Z.of_nat (length (valid_records txns)) < 2 ^ 53).
  { pose proof (valid_records_length txns). lia. }
  destruct (analyze_summary _ s Hs)
    as (txns' & first & rest & cks & tks & Heq & Hv & _ & Htks & ->).
  injection Heq as <-. subst contacts. rewrite Hv in *.
  set (vs := first :: rest) in *.
  pose proof (mapM_length _ _ _ Htks) as Hlen.
  assert (Hlabels : labels vs = map VString tks).
  { apply string_labels_are_keys; [assumption|].
    intros txn Hin. destruct (Hstr txn Hin) as (l & Hl & _). eauto. }
  assert (Hown : ∀ k, In k tks → Object_prototype k = None).
  { intros k Hk. destruct (mapM_In contact_key vs tks k Htks Hk) as (txn & Hin & Hkey).
    destruct (Hstr txn Hin) as (l & Hl & Hp).
    unfold contact_key in Hkey. rewrite Hl in Hkey. simpl in Hkey.
    injection Hkey as <-. exact Hp. }
  unfold summarize. cbn [frequentContact]. fold vs.
  set (counts := accumulate (zip tks (map (fun _ => one) vs)) ∅).
  set (entries := zip tks (labels vs)).
  assert (Hfst : map fst entries = tks).
  { unfold entries, labels. apply zip_keys_fst. assumption. }
  assert (Hcount : ∀ e, In e entries →
            dict_get counts (fst e)
            = SOwn (CNum (Num.of_nat (occurrences (fst e) tks)))
            ∧ Z.of_nat (occurrences (fst e) tks) < 2 ^ 53).
  { intros e He.
    assert (Hin : In (fst e) tks) by (rewrite <- Hfst; apply in_map; assumption).
    split.
    - apply count_slot; auto. lia.
    - pose proof (occurrences_le (fst e) tks). lia. }
  change Num.zero with (Num.of_nat 0).
  destruct (pick_scan counts (fun k => occurrences k tks) entries Hcount
              O (field first "to") ltac:(reflexivity))
    as [[_ Hall]|(i & [k label] & Hi & Hp & _ & Hbefore & Hall)].
  - exfalso.
    destruct tks as [|k0 tks0]; [discriminate|].
    assert (He : In (k0, field first "to") entries) by (left; reflexivity).
    specialize (Hall _ He).
    pose proof (occurrences_pos k0 (k0 :: tks0) ltac:(left; reflexivity)).
    simpl in *. lia.
  - apply zip_lookup in Hi as [Hk Hlabel].
    assert (Elabel : label = VString k).
    { rewrite Hlabels, list_lookup_fmap, Hk in Hlabel. simpl in Hlabel. congruence. }
    exists i. rewrite Hp. simpl snd. subst label.
    split; [assumption|].
    rewrite Hlabels, !label_count_strings. split.
    + intros l (k' & <- & Hk')%in_map_iff. rewrite label_count_strings.
      rewrite <- Hfst in Hk'. apply in_map_iff in Hk' as (e' & <- & He').
      exact (Hall e' He').
    + intros j l Hj Hl. rewrite list_lookup_fmap in Hl.
      destruct (tks !! j) as [k'|] eqn:Hk'; [|discriminate].
      simpl in Hl. injection Hl as <-. rewrite label_count_strings.
      assert (Hj' : entries !! j = Some (k', VString k')).
      { apply zip_lookup. split; [assumption|].
        rewrite Hlabels, list_lookup_fmap, Hk'. reflexivity. }
      exact (Hbefore j _ Hj Hj').
Qed.

Lemma frequent_contact_among_string_labels_witness :
  analyzeUPITransactions (VArray Sample.documented)
  = Normal (Some Sample.documented_summary)
  ∧ Z.of_nat (length Sample.documented) < 2 ^ 53
  ∧ frequentContact Sample.documented_summary = VString "Swiggy"
  ∧ ∃ i, labels (valid_records Sample.documented) !! i
         = Some (frequentContact Sample.documented_summary).
Proof.
  assert (Hs : analyzeUPITransactions (VArray Sample.documented)
               = Normal (Some Sample.documented_summary)) by (vm_compute; reflexivity).
  assert (Hlt : Z.of_nat (length Sample.documented) < 2 ^ 53) by (vm_compute; reflexivity).
  split; [exact Hs|]. split; [exact Hlt|]. split; [vm_compute; reflexivity|].
  destruct (frequent_contact_among_string_labels Sample.documented _ Hs Hlt)
    as (i & Hi & _).
  - intros txn Hin. vm_compute in Hin.
    destruct Hin as [<-|[<-|[<-|[]]]]; eexists; (split; [reflexivity|vm_compute; reflexivity]).
  - exists i. exact Hi.
Defined.
